(** * ratcave_utils: the arena scanner

    A shallow embedding of [ratcave_utils/arena_scanner.py] (the [scan_arena]
    command) together with the properties of its reconstruction pipeline.

    Conventions of the embedding.
    - A numpy [float64] is an exact rational or the not-a-number value
      ([num]); rounding is not modelled, the one special value that exact
      arithmetic can produce here (the mean of an empty selection, 0/0) is.
    - A numpy (N,3) array is a [list vec]; an integer index array is a
      [list (list Z)], flattened row by row.
    - numpy arrays are objects: the model keeps them in a [heap] and program
      variables hold addresses, so that [a -= v] (in place) and a rebinding
      are different things.
    - The interpreter is Python 3: [str.encode()] gives [bytes], and [bytes]
      and [str] do not concatenate ([text]).
    - The motion-capture driver, the display, the plots and the file system
      are one abstract state machine ([Environment]) that reacts to every
      [Event] the program emits; the program's reads are functions of its
      state.  The calls into the collaborators are taken to return; the
      exceptions of the model are those that the statements of [scan_arena]
      raise themselves, and the one of [open] on a path that cannot be
      written.  [print] and [click.echo] output is not part of the model.
    - The functions of [ratcave_utils.utils.pointcloud] that [scan_arena]
      calls are a record of functions ([PointcloudLib]). *)

From Stdlib Require Import Ascii String.
From Stdlib Require Import ZArith QArith Qabs Qfield Lqa Bool Lia Arith List.
Import ListNotations.

Local Open Scope Z_scope.

(** ** Numbers *)

Inductive num : Type :=
| Fin (q : Q)
| NaN.

Definition nadd (a b : num) : num :=
  match a, b with
  | Fin x, Fin y => Fin (x + y)
  | _, _ => NaN
  end.

Definition nsub (a b : num) : num :=
  match a, b with
  | Fin x, Fin y => Fin (x - y)
  | _, _ => NaN
  end.

(** Division of a sum by the number of summands: 0/0 is not a number. *)
Definition ndiv_count (a : num) (n : nat) : num :=
  match n, a with
  | O, _ => NaN
  | S _, Fin x => Fin (x / inject_Z (Z.of_nat n))
  | S _, NaN => NaN
  end.

Definition nzero : num := Fin 0.

(** [np.isclose(a, b, rtol, atol)]: [|a - b| <= atol + rtol * |b|], false as
    soon as one side is not a number. *)
Definition isclose (rtol atol : Q) (a b : num) : bool :=
  match a, b with
  | Fin x, Fin y => Qle_bool (Qabs (x - y)) (atol + rtol * Qabs y)
  | _, _ => false
  end.

Definition default_rtol : Q := 1 # 100000.
Definition default_atol : Q := 1 # 100000000.
Definition pivot_rtol : Q := 1 # 1000.

(** The number is finite and equal to zero (as a rational). *)
Definition is_zero (a : num) : Prop :=
  match a with
  | Fin x => (x == 0)%Q
  | NaN => False
  end.

(** ** Vectors and arrays *)

Definition vec : Type := (num * num * num)%type.
Definition ndarray : Type := list vec.

Definition vx (v : vec) : num := fst (fst v).
Definition vy (v : vec) : num := snd (fst v).
Definition vz (v : vec) : num := snd v.

Definition vsub (v m : vec) : vec :=
  (nsub (vx v) (vx m), nsub (vy v) (vy m), nsub (vz v) (vz m)).

Definition nsum (l : list num) : num := fold_right nadd nzero l.

Definition nmean (l : list num) : num := ndiv_count (nsum l) (length l).

(** [np.mean(a, axis=0)] of an (N,3) array. *)
Definition mean_axis0 (a : ndarray) : vec :=
  (nmean (map vx a), nmean (map vy a), nmean (map vz a)).

(** [(np.isclose(a, b, rtol=rtol)).all()] on two 3-vectors. *)
Definition allclose (rtol : Q) (a b : vec) : bool :=
  isclose rtol default_atol (vx a) (vx b)
  && isclose rtol default_atol (vy a) (vy b)
  && isclose rtol default_atol (vz a) (vz b).

(** [np.isclose(np.array(r), 0).all()] *)
Definition allclose_zero (r : list num) : bool :=
  forallb (fun x => isclose default_rtol default_atol x nzero) r.

(** [a - v] broadcast over the rows: what [a -= v] stores into [a]. *)
Definition translate (a : ndarray) (v : vec) : ndarray :=
  map (fun p => vsub p v) a.

(** A numpy index into an axis of length [n]: negative indices count from
    the end, anything outside [-n, n) is an IndexError. *)
Definition norm_index (n : nat) (i : Z) : option nat :=
  if (0 <=? i) && (i <? Z.of_nat n) then Some (Z.to_nat i)
  else if (- Z.of_nat n <=? i) && (i <? 0) then Some (Z.to_nat (i + Z.of_nat n))
  else None.

(** [a[idx, :]] for a flat integer index array [idx]. *)
Fixpoint take_rows (a : ndarray) (idx : list Z) : option ndarray :=
  match idx with
  | [] => Some []
  | i :: rest =>
      match norm_index (length a) i with
      | None => None
      | Some k =>
          match nth_error a k, take_rows a rest with
          | Some v, Some vs => Some (v :: vs)
          | _, _ => None
          end
      end
  end.

(** [idx.flatten()] *)
Definition flatten (idx : list (list Z)) : list Z := concat idx.

(** [a[::12, :]] *)
Fixpoint stride_from (skip : nat) (a : ndarray) : ndarray :=
  match a with
  | [] => []
  | p :: rest =>
      match skip with
      | O => p :: stride_from 11 rest
      | S k => stride_from k rest
      end
  end.

Definition every_12th (a : ndarray) : ndarray := stride_from 0 a.

(** ** [os.path.splitext] *)

(** The path conventions of the platform: [posixpath] has the separator
    [/], [ntpath] has [\] and the alternative separator [/]. *)
Inductive flavour : Type := Posix | Nt.

(** [p.rfind(c)] for a one-character [c]: the highest index, or -1. *)
Fixpoint rfind_from (c : ascii) (p : list ascii) (i found : Z) : Z :=
  match p with
  | [] => found
  | a :: rest => rfind_from c rest (i + 1) (if Ascii.eqb a c then i else found)
  end.

Definition rfind (c : ascii) (p : list ascii) : Z := rfind_from c p 0 (-1).

(** The [while] loop of [genericpath._splitext] over [p[filenameIndex:dotIndex]]:
    it returns the split as soon as it meets a character other than the dot. *)
Fixpoint only_leading_dots (slice : list ascii) : bool :=
  match slice with
  | [] => true
  | a :: rest => if Ascii.eqb a "."%char then only_leading_dots rest else false
  end.

Definition splitext (fl : flavour) (p : string) : string * string :=
  let cs := list_ascii_of_string p in
  let sepIndex :=
    match fl with
    | Posix => rfind "/"%char cs
    | Nt => Z.max (rfind "\"%char cs) (rfind "/"%char cs)
    end in
  let dotIndex := rfind "."%char cs in
  if sepIndex <? dotIndex then
    let filenameIndex := sepIndex + 1 in
    let slice := firstn (Z.to_nat (dotIndex - filenameIndex))
                        (skipn (Z.to_nat filenameIndex) cs) in
    if only_leading_dots slice then (p, EmptyString)
    else (string_of_list_ascii (firstn (Z.to_nat dotIndex) cs),
          string_of_list_ascii (skipn (Z.to_nat dotIndex) cs))
  else (p, EmptyString).

(** [s1 in s2] *)
Definition contains (s1 s2 : string) : bool :=
  match String.index 0 s1 s2 with
  | Some _ => true
  | None => false
  end.

(** ** Exceptions *)

Inductive assertion : Type :=
| NotWavefront          (* "Output arena filename must be a Wavefront (.obj) file" *)
| BodyNotFound          (* "RigidBody {} not found in project file. ..." *)
| OrientationNotReset   (* "Orientation didn't reset." *)
| PivotNotReset         (* "Pivot didn't reset." *)
| TooFewPoints (n : nat) (* "Only {} points detected. ..." *)
| NotTwoDimensional.    (* assert points.ndim == 2 *)

(** The failures that the specification asks of the point-cloud functions. *)
Inductive pc_error : Type :=
| InsufficientData
| UnsatisfiableConfiguration (requested achievable : nat)
| GeometryDegenerate
| ContractViolation.

Inductive exn : Type :=
| AssertionError (a : assertion)
| ValueError     (* 'Motive failed to properly shift pivot to center of mesh' *)
| IndexError
| TypeError      (* bytes + str *)
| OSError        (* open(output_filename, 'w') *)
| PointcloudError (e : pc_error).

Inductive result (A : Type) : Type :=
| Ok (a : A)
| Raise (e : exn).

Arguments Ok {A} a.
Arguments Raise {A} e.

(** ** Text

    A [str], or the [bytes] that [str.encode()] gives.  The functions of
    [os.path] return the type they are given; [+] joins two values of the
    same type and raises TypeError on a [bytes] and a [str]. *)

Inductive text : Type :=
| Str (s : string)
| Bytes (s : string).

Definition encode (s : string) : text := Bytes s.

Definition chars (t : text) : string :=
  match t with
  | Str s => s
  | Bytes s => s
  end.

Definition splitext_text (fl : flavour) (t : text) : text * text :=
  match t with
  | Str s => (Str (fst (splitext fl s)), Str (snd (splitext fl s)))
  | Bytes s => (Bytes (fst (splitext fl s)), Bytes (snd (splitext fl s)))
  end.

Definition text_add (a b : text) : result text :=
  match a, b with
  | Str x, Str y => Ok (Str (x ++ y))
  | Bytes x, Bytes y => Ok (Bytes (x ++ y))
  | _, _ => Raise TypeError
  end.

(** ** The outside world *)

Record Camera : Type := mkCamera {
  cam_name : string;
  cam_settings : list Z;
  cam_frame_rate : Z
}.

(** Everything [scan_arena] does to the outside world, in program order. *)
Inductive Event : Type :=
| MotiveInitialize
| MotiveLoadProject (filename : string)
| MotiveGetCams
| VislightConfigure
| MotiveUpdate
| MotiveGetRigidBodies
| ResetOrientation (body : string)
| ResetPivotOffset (body : string)
| GetRotation (body : string)
| GetLocation (body : string)
| GetPointCloudMarkers (body : string)
| SetLocation (body : string) (v : vec)
| GetScreens
| RunGridScan (screen : nat)
| ShowScatter (series : list ndarray)
| SetCamSettings (cam : nat) (settings : list Z)
| SetCamImageGain (cam : nat) (gain : Z)
| SetCamFrameRate (cam : nat) (rate : Z)
| SetFilterSwitch (cam : nat) (on : bool)
| OpenForWriting (filename : string)
| DumpWavefront (filename name : string) (vertices normals : ndarray)
                (faces : list (list Z))
| MotiveSaveProject (filename : string).

(** The collaborators as a state machine.  Every event moves the state (a
    driver is only eventually consistent: a location that was set may be
    reported some updates later, or never); the reads are functions of it. *)
Record Environment : Type := mkEnvironment {
  env_state : Type;
  env_step : Event -> env_state -> env_state;
  env_cams : env_state -> list Camera;
  env_bodies : env_state -> list string;
  env_rotation : string -> env_state -> list num;
  env_location : string -> env_state -> vec;
  env_markers : string -> env_state -> ndarray;
  env_screens : env_state -> nat;
  env_marker_pos : env_state -> ndarray;
  env_writable : string -> env_state -> bool
}.

(** The functions of [ratcave_utils.utils.pointcloud] used by [scan_arena].
    They are taken to return new arrays and to leave their arguments alone. *)
Record PointcloudLib : Type := mkPointcloudLib {
  meshify_arena : ndarray -> Z -> result (list ndarray * ndarray);
  face_index : list ndarray -> result (ndarray * list (list Z));
  fan_triangulate : list (list Z) -> result (list (list Z))
}.

(** ** The heap of arrays *)

Definition heap_get (h : list ndarray) (a : nat) : ndarray := nth a h [].

Fixpoint heap_set (h : list ndarray) (a : nat) (v : ndarray) : list ndarray :=
  match h, a with
  | [], _ => []
  | _ :: t, O => v :: t
  | x :: t, S k => x :: heap_set t k v
  end.

(** [points.ndim] of [np.array(marker_pos)] for a list of 3-tuples. *)
Definition ndim (a : ndarray) : Z :=
  match a with
  | [] => 1
  | _ :: _ => 2
  end.

(** The camera commands of the loop over [zip(cam_settings, motive.get_cams())]. *)
Fixpoint restore_events (i : nat) (settings : list (list Z)) (cams : list Camera)
         (frame_rate_old : Z) : list Event :=
  match settings, cams with
  | s :: settings', c :: cams' =>
      [SetCamSettings i s; SetCamImageGain i 1; SetCamFrameRate i frame_rate_old]
      ++ (if contains "Prime 13" (cam_name c) then [SetFilterSwitch i true] else [])
      ++ restore_events (S i) settings' cams' frame_rate_old
  | _, _ => []
  end.

(** ** The program *)

Section ScanArena.

Variable E : Environment.
Variable L : PointcloudLib.
Variable os : flavour.

Record World : Type := mkWorld {
  st : env_state E;
  log : list Event;
  heap : list ndarray
}.

(** State and exceptions; the world survives an exception. *)
Definition M (A : Type) : Type := World -> result A * World.

Definition ret {A} (a : A) : M A := fun w => (Ok a, w).

Definition bind {A B} (m : M A) (k : A -> M B) : M B :=
  fun w =>
    match m w with
    | (Ok a, w') => k a w'
    | (Raise e, w') => (Raise e, w')
    end.

Definition raise {A} (e : exn) : M A := fun w => (Raise e, w).

Notation "x <- m ;; k" := (bind m (fun x => k))
  (at level 61, m at next level, right associativity).
Notation "m ;;; k" := (bind m (fun _ => k))
  (at level 61, right associativity).

Definition emit (e : Event) : M unit :=
  fun w => (Ok tt, mkWorld (env_step E e (st w)) (log w ++ [e]) (heap w)).

Definition observe {A} (f : env_state E -> A) : M A :=
  fun w => (Ok (f (st w)), w).

(** A call that returns a value read from a collaborator. *)
Definition query {A} (e : Event) (f : env_state E -> A) : M A :=
  emit e ;;; observe f.

Fixpoint emit_all (es : list Event) : M unit :=
  match es with
  | [] => ret tt
  | e :: rest => emit e ;;; emit_all rest
  end.

Definition assert (b : bool) (a : assertion) : M unit :=
  if b then ret tt else raise (AssertionError a).

Definition lift {A} (r : result A) : M A :=
  match r with
  | Ok a => ret a
  | Raise e => raise e
  end.

Definition alloc (a : ndarray) : M nat :=
  fun w => (Ok (length (heap w)), mkWorld (st w) (log w) (heap w ++ [a])).

Definition load (p : nat) : M ndarray :=
  fun w => (Ok (heap_get (heap w) p), w).

(** [a -= v]: the array at address [p] is overwritten in place. *)
Definition isub (p : nat) (v : vec) : M unit :=
  fun w => (Ok tt, mkWorld (st w) (log w)
                           (heap_set (heap w) p (translate (heap_get (heap w) p) v))).

(** Line 90. *)
Definition output_path (output_filename : string) : string :=
  if String.eqb (snd (splitext os output_filename)) EmptyString
  then (output_filename ++ ".obj")%string
  else output_filename.

(** Lines 90-91. *)
Definition check_output (output_filename : string) : M string :=
  let output_filename := output_path output_filename in
  assert (String.eqb (snd (splitext os output_filename)) ".obj") NotWavefront ;;;
  ret output_filename.

(** One round of lines 109-112. *)
Definition reset_round (body : string) : M unit :=
  emit (ResetOrientation body) ;;;
  emit (ResetPivotOffset body) ;;;
  emit MotiveUpdate.

(** Lines 94-115: load the project, remember the camera settings, reset the
    rigid body. *)
Definition prepare (motive_filename body : string) : M (list (list Z) * Z) :=
  emit MotiveInitialize ;;;
  emit (MotiveLoadProject motive_filename) ;;;
  cams <- query MotiveGetCams (env_cams E) ;;
  let settings := map cam_settings cams in
  cams0 <- query MotiveGetCams (env_cams E) ;;
  frame_rate_old <- match cams0 with
                    | [] => raise IndexError
                    | c :: _ => ret (cam_frame_rate c)
                    end ;;
  emit VislightConfigure ;;;
  emit MotiveUpdate ;;;
  bodies <- query MotiveGetRigidBodies (env_bodies E) ;;
  assert (existsb (String.eqb body) bodies) BodyNotFound ;;;
  reset_round body ;;;
  reset_round body ;;;
  reset_round body ;;;
  rot <- query (GetRotation body) (env_rotation E body) ;;
  assert (allclose_zero rot) OrientationNotReset ;;;
  loc <- query (GetLocation body) (env_location E body) ;;
  markers <- query (GetPointCloudMarkers body) (env_markers E body) ;;
  assert (allclose default_rtol loc (mean_axis0 markers)) PivotNotReset ;;;
  ret (settings, frame_rate_old).

(** Line 123. *)
Definition check_points (pts : ndarray) : M unit :=
  assert (100 <? Z.of_nat (length pts)) (TooFewPoints (length pts)).

(** Lines 118-130: run the scan window, collect the points, preview them.
    Returns the address of the [points] array. *)
Definition acquire (screen : Z) : M nat :=
  n <- query GetScreens (env_screens E) ;;
  k <- match norm_index n screen with
       | None => raise IndexError
       | Some k => ret k
       end ;;
  emit (RunGridScan k) ;;;
  marker_pos <- observe (env_marker_pos E) ;;
  points <- alloc marker_pos ;;
  pts <- load points ;;
  check_points pts ;;;
  assert (ndim pts =? 2) NotTwoDimensional ;;;
  emit (ShowScatter [pts]) ;;;
  ret points.

(** Lines 133-135.  Returns the address of [vertices], the normals and the
    triangulated [face_indices]. *)
Definition reconstruct (points : nat) (nsides : Z)
  : M (nat * ndarray * list (list Z)) :=
  pts <- load points ;;
  sn <- lift (meshify_arena L pts nsides) ;;
  vf <- lift (face_index L (fst sn)) ;;
  vertices <- alloc (fst vf) ;;
  face_indices <- lift (fan_triangulate L (snd vf)) ;;
  ret (vertices, snd sn, face_indices).

(** Lines 140-146. *)
Definition restore_cameras (settings : list (list Z)) (frame_rate_old : Z) : M unit :=
  cams <- query MotiveGetCams (env_cams E) ;;
  emit_all (restore_events 0 settings cams frame_rate_old) ;;;
  emit MotiveUpdate.

(** Lines 161-168: [for attempt in range(attempts): ... else: raise]. *)
Fixpoint align_pivot (body : string) (vertmean : vec) (attempts : nat) : M unit :=
  match attempts with
  | O => raise ValueError
  | S rest =>
      emit (ResetPivotOffset body) ;;;
      emit (SetLocation body vertmean) ;;;
      loc <- query (GetLocation body) (env_location E body) ;;
      if allclose pivot_rtol loc vertmean then ret tt
      else align_pivot body vertmean rest
  end.

(** The centroid of line 154, [None] for an IndexError. *)
Definition centroid (vertices : ndarray) (face_indices : list (list Z)) : option vec :=
  match take_rows vertices (flatten face_indices) with
  | None => None
  | Some rows => Some (mean_axis0 rows)
  end.

(** Lines 150-170. *)
Definition mean_center (body : string) (nomeancenter : bool)
           (points vertices : nat) (face_indices : list (list Z)) : M unit :=
  if nomeancenter then ret tt
  else
    verts <- load vertices ;;
    vertmean <- match centroid verts face_indices with
                | None => raise IndexError
                | Some m => ret m
                end ;;
    isub vertices vertmean ;;;
    isub points vertmean ;;;
    _ <- query (GetLocation body) (env_location E body) ;;
    align_pivot body vertmean 300 ;;;
    _ <- query (GetLocation body) (env_location E body) ;;
    ret tt.

(** Lines 175-190.  [motive_filename] is the value bound at line 94. *)
Definition export (motive_filename : text) (output_filename body : string)
           (points vertices : nat) (normals : ndarray)
           (face_indices : list (list Z)) : M unit :=
  verts <- load vertices ;;
  writable <- observe (env_writable E output_filename) ;;
  (if writable then emit (OpenForWriting output_filename) else raise OSError) ;;;
  emit (DumpWavefront output_filename body verts normals face_indices) ;;;
  pts <- load points ;;
  verts' <- load vertices ;;
  emit (ShowScatter [every_12th pts; verts']) ;;;
  project <- lift (text_add (fst (splitext_text os motive_filename))
                            (Str "_scanned.ttp")) ;;
  emit (MotiveSaveProject (chars project)).

Definition scan_arena (motive_filename output_filename body : string)
           (nomeancenter : bool) (nsides screen : Z) : M unit :=
  output_filename <- check_output output_filename ;;
  let motive_filename := encode motive_filename in
  saved <- prepare (chars motive_filename) body ;;
  points <- acquire screen ;;
  mesh <- reconstruct points nsides ;;
  let vertices := fst (fst mesh) in
  let normals := snd (fst mesh) in
  let face_indices := snd mesh in
  restore_cameras (fst saved) (snd saved) ;;;
  mean_center body nomeancenter points vertices face_indices ;;;
  export motive_filename output_filename body points vertices normals face_indices.

End ScanArena.

Arguments st {E} w.
Arguments log {E} w.
Arguments heap {E} w.
Arguments mkWorld {E} st log heap.

(** ** The point-cloud functions

    [ratcave_utils/utils/pointcloud.py] is not among the sources; the three
    functions that [scan_arena] calls are modelled from sections 4.1 to 4.3
    of the specification. *)

Module Pointcloud.

Definition triangle : Type := (Z * Z * Z)%type.

(** Modelled from the spec: the fan of [fan_triangulate] (section 4.3), the
    triangles [(v0, vi, vi+1)] over the consecutive pairs of the vertices
    that follow [v0]. *)
Fixpoint fan (v0 : Z) (rest : list Z) : list triangle :=
  match rest with
  | [] => []
  | a :: tl =>
      match tl with
      | [] => []
      | b :: _ => (v0, a, b) :: fan v0 tl
      end
  end.

(** Modelled from the spec: [fan_triangulate] on one face (section 4.3); a
    face with fewer than 3 vertices is a contract violation. *)
Definition triangulate_face (face : list Z) : result (list triangle) :=
  match face with
  | v0 :: (_ :: _ :: _) as rest => Ok (fan v0 rest)
  | _ => Raise (PointcloudError ContractViolation)
  end.

(** Modelled from the spec: [fan_triangulate] (section 4.3, the contract
    [triangulate]); it fails at the first face that violates the contract. *)
Fixpoint triangulate (faces : list (list Z)) : result (list triangle) :=
  match faces with
  | [] => Ok []
  | f :: rest =>
      match triangulate_face f with
      | Raise e => Raise e
      | Ok ts =>
          match triangulate rest with
          | Raise e => Raise e
          | Ok ts' => Ok (ts ++ ts')
          end
      end
  end.

Definition triangle_row (t : triangle) : list Z :=
  [fst (fst t); snd (fst t); snd t].

(** *** Indexing *)

Definition nmul (a b : num) : num :=
  match a, b with
  | Fin x, Fin y => Fin (x * y)
  | _, _ => NaN
  end.

Definition nsq (a : num) : num := nmul a a.

(** Squared Euclidean distance. *)
Definition dist2 (u v : vec) : num :=
  nadd (nadd (nsq (nsub (vx u) (vx v))) (nsq (nsub (vy u) (vy v))))
       (nsq (nsub (vz u) (vz v))).

(** Modelled from the spec: "within a small epsilon distance" (section 4.2). *)
Definition within (eps : Q) (u v : vec) : bool :=
  match dist2 u v with
  | Fin d => Qle_bool d (eps * eps)
  | NaN => false
  end.

(** The index of the first vertex of [vs] within epsilon of [v], counting
    from [i]. *)
Fixpoint find_within (eps : Q) (vs : ndarray) (v : vec) (i : nat) : option nat :=
  match vs with
  | [] => None
  | u :: rest => if within eps u v then Some i else find_within eps rest v (S i)
  end.

(** Modelled from the spec: the deduplication of [face_index] (section 4.2),
    a vertex within epsilon of one already in the global array takes its
    index, any other vertex is appended. *)
Definition intern (eps : Q) (vs : ndarray) (v : vec) : ndarray * nat :=
  match find_within eps vs v 0 with
  | Some i => (vs, i)
  | None => (vs ++ [v], length vs)
  end.

Fixpoint intern_all (eps : Q) (vs : ndarray) (boundary : ndarray)
  : ndarray * list nat :=
  match boundary with
  | [] => (vs, [])
  | v :: rest =>
      let (vs1, i) := intern eps vs v in
      let (vs2, idx) := intern_all eps vs1 rest in
      (vs2, i :: idx)
  end.

Section Index.

Variable eps : Q.

(** The ordered boundary of a surface (projection on the fitted plane, 2D
    convex hull, back to 3D): an interchangeable part of section 4.2. *)
Variable hull : ndarray -> result ndarray.

(** Modelled from the spec: [face_index] (section 4.2, the contract [index]);
    a degenerate boundary, and a face left with fewer than 3 distinct
    vertices after deduplication, abort the run. *)
Fixpoint index_from (vs : ndarray) (surfaces : list ndarray)
  : result (ndarray * list (list Z)) :=
  match surfaces with
  | [] => Ok (vs, [])
  | s :: rest =>
      match hull s with
      | Raise e => Raise e
      | Ok boundary =>
          let (vs1, face) := intern_all eps vs boundary in
          if (length (nodup Nat.eq_dec face) <? 3)%nat
          then Raise (PointcloudError GeometryDegenerate)
          else
            match index_from vs1 rest with
            | Raise e => Raise e
            | Ok (vs2, faces) => Ok (vs2, map Z.of_nat face :: faces)
            end
      end
  end.

Definition index (surfaces : list ndarray) : result (ndarray * list (list Z)) :=
  index_from [] surfaces.

End Index.

(** *** Segmentation *)

Definition cross_is_zero (a b c : vec) : bool :=
  match a, b, c with
  | (Fin ax, Fin ay, Fin az), (Fin bx, Fin by_, Fin bz), (Fin cx, Fin cy, Fin cz) =>
      let ux := (bx - ax)%Q in let uy := (by_ - ay)%Q in let uz := (bz - az)%Q in
      let wx := (cx - ax)%Q in let wy := (cy - ay)%Q in let wz := (cz - az)%Q in
      Qeq_bool (uy * wz - uz * wy) 0
      && Qeq_bool (uz * wx - ux * wz) 0
      && Qeq_bool (ux * wy - uy * wx) 0
  | _, _, _ => true
  end.

(** Some element satisfies [f]; the search stops at the first one. *)
Fixpoint any {A : Type} (f : A -> bool) (l : list A) : bool :=
  match l with
  | [] => false
  | a :: rest => if f a then true else any f rest
  end.

(** Modelled from the spec: a cluster is valid when it holds 3 non-collinear
    points (section 4.1, Failure). *)
Definition valid_cluster (c : ndarray) : bool :=
  any (fun a => any (fun b => any (fun d =>
    negb (cross_is_zero a b d)) c) c) c.

Section Segment.

(** The clustering method and the estimate of the number of surfaces are
    interchangeable strategies behind the contract (section 4.1 and 9). *)
Variable cluster : ndarray -> nat -> list ndarray.
Variable estimate : ndarray -> nat.

(** The fitted outward unit normal of a cluster of the cloud. *)
Variable normal_of : ndarray -> ndarray -> vec.

(** Modelled from the spec: [meshify_arena] (section 4.1, the contract
    [segment]).  With [n_surfaces = 0] the count is estimated and invalid
    clusters are dropped; with an explicit count every cluster must be valid
    and there must be exactly that many. *)
Definition segment (points : ndarray) (n_surfaces : nat)
  : result (list ndarray * ndarray) :=
  match n_surfaces with
  | O =>
      let cs := filter valid_cluster (cluster points (estimate points)) in
      Ok (cs, map (normal_of points) cs)
  | S _ =>
      let cs := cluster points n_surfaces in
      let good := filter valid_cluster cs in
      if (length cs =? n_surfaces)%nat && (length good =? n_surfaces)%nat
      then Ok (cs, map (normal_of points) cs)
      else Raise (PointcloudError
                    (UnsatisfiableConfiguration n_surfaces (length good)))
  end.

End Segment.

End Pointcloud.

(** ** A test rig

    A small environment and an instance of the point-cloud functions, used
    to run [scan_arena] on concrete inputs. *)

Module Rig.

Definition pt (x y z : Z) : vec :=
  (Fin (inject_Z x), Fin (inject_Z y), Fin (inject_Z z)).

Definition corners : ndarray := [pt 1 1 0; pt 3 1 0; pt 3 3 0; pt 1 3 0].

(** [n] detections that go round the four corners of a wall. *)
Fixpoint cloud_from (k n : nat) : ndarray :=
  match n with
  | O => []
  | S n' => nth (k mod 4) corners (pt 0 0 0) :: cloud_from (S k) n'
  end.

Definition cloud (n : nat) : ndarray := cloud_from 0 n.

Record rig : Type := mkRig {
  rig_location : vec;
  rig_home : vec;
  rig_lag : nat;
  rig_cloud : ndarray
}.

(** The driver of the rig forgets the first [rig_lag] location commands and
    obeys the following ones at once. *)
Definition rig_step (e : Event) (s : rig) : rig :=
  match e with
  | ResetPivotOffset _ => mkRig (rig_home s) (rig_home s) (rig_lag s) (rig_cloud s)
  | SetLocation _ v =>
      match rig_lag s with
      | O => mkRig v (rig_home s) O (rig_cloud s)
      | S k => mkRig (rig_location s) (rig_home s) k (rig_cloud s)
      end
  | _ => s
  end.

Definition env : Environment :=
  mkEnvironment rig rig_step
    (fun _ => [mkCamera "Prime 13W" [1; 2; 3] 240; mkCamera "Flex 3" [4] 100])
    (fun _ => ["arena"%string])
    (fun _ _ => [nzero; nzero; nzero])
    (fun _ s => rig_location s)
    (fun _ s => [rig_home s])
    (fun _ => 2%nat)
    rig_cloud
    (fun filename _ => negb (String.prefix "/proc/" filename)).

(** Every point in one cluster, when one cluster is asked for. *)
Definition one_wall (points : ndarray) (n : nat) : list ndarray :=
  match n with
  | 1%nat => [points]
  | _ => []
  end.

Definition first_four (surface : ndarray) : result ndarray :=
  Ok (firstn 4 surface).

Definition lib : PointcloudLib :=
  mkPointcloudLib
    (fun points n =>
       Pointcloud.segment one_wall (fun _ => 1%nat) (fun _ _ => pt 0 0 1)
                          points (Z.to_nat n))
    (Pointcloud.index (1 # 1000) first_four)
    (fun faces =>
       match Pointcloud.triangulate faces with
       | Ok ts => Ok (map Pointcloud.triangle_row ts)
       | Raise e => Raise e
       end).

Definition start (lag : nat) (points : nat) : World env :=
  @mkWorld env (mkRig (pt 5 5 5) (pt 5 5 5) lag (cloud points)) [] [].

(** What the preparation saves on the rig, the mesh that [lib] makes of a
    cloud that goes round the four corners, and its face-referenced
    centroid. *)
Definition saved : list (list Z) * Z := ([[1; 2; 3]; [4]], 240).
Definition vertices : ndarray := corners.
Definition normals : ndarray := [pt 0 0 1].
Definition faces : list (list Z) := [[0; 1; 2]; [0; 2; 3]].
Definition centre : vec := (Fin (12 # 6), Fin (12 # 6), Fin (0 # 6)).

End Rig.

(** A run on the rig: the output name, the [nomeancenter] flag, the lag of
    the driver and the number of points that the scan collects. *)
Abbreviation rig_run output_filename nomeancenter lag points :=
  (scan_arena Rig.env Rig.lib Posix "project.ttp" output_filename "arena"
              nomeancenter 0 1 (Rig.start lag points)) (only parsing).

(** ** Vocabulary of the statements *)

Arguments ret {E A} a w.
Arguments bind {E A B} m k w.
Arguments raise {E A} e w.
Arguments emit {E} e w.
Arguments observe {E A} f w.
Arguments query {E A} e f w.
Arguments emit_all {E} es w.
Arguments assert {E} b a w.
Arguments lift {E A} r w.
Arguments alloc {E} a w.
Arguments load {E} p w.
Arguments isub {E} p v w.

(** The commands that move the rigid body's pivot or orientation. *)
Definition is_pivot_command (e : Event) : bool :=
  match e with
  | ResetOrientation _ | ResetPivotOffset _ | SetLocation _ _ => true
  | _ => false
  end.

Definition is_set_location (e : Event) : bool :=
  match e with
  | SetLocation _ _ => true
  | _ => false
  end.

(** The events that touch the mesh file. *)
Definition is_write (e : Event) : bool :=
  match e with
  | OpenForWriting _ | DumpWavefront _ _ _ _ _ => true
  | _ => false
  end.

(** One attempt of the alignment loop: the two commands, then the poll. *)
Definition attempt (body : string) (target : vec) : list Event :=
  [ResetPivotOffset body; SetLocation body target; GetLocation body].

Fixpoint attempts (body : string) (target : vec) (k : nat) : list Event :=
  match k with
  | O => []
  | S k' => attempt body target ++ attempts body target k'
  end.

(** The state of the collaborators after a sequence of events. *)
Definition run_events (E : Environment) (es : list Event) (s : env_state E)
  : env_state E :=
  fold_left (fun s e => env_step E e s) es s.

(** The location polled at the end of the [k]-th attempt. *)
Definition reported (E : Environment) (body : string) (target : vec) (k : nat)
           (s : env_state E) : vec :=
  env_location E body (run_events E (attempts body target k) s).

(** The world once the events [es] have been emitted. *)
Definition after {E : Environment} (es : list Event) (w : World E) : World E :=
  mkWorld (run_events E es (st w)) (log w ++ es) (heap w).

(** The world with another heap. *)
Definition with_heap {E : Environment} (h : list ndarray) (w : World E) : World E :=
  mkWorld (st w) (log w) h.

(** The events of every phase but the export: no pivot command, no write. *)
Definition quiet (e : Event) : Prop :=
  is_pivot_command e = false /\ is_write e = false.

(** The events of the phases before the mean-centering. *)
Definition harmless (e : Event) : Prop :=
  is_set_location e = false /\ is_write e = false.

(** Whatever a computation does, the events it adds to the log satisfy [P]. *)
Definition emits {E : Environment} {A : Type} (P : Event -> Prop) (m : M E A)
  : Prop :=
  forall w r w', m w = (r, w') ->
    exists l, log w' = log w ++ l /\ Forall P l.

(** A computation that leaves the arrays of the heap alone. *)
Definition keeps_heap {E : Environment} {A : Type} (m : M E A) : Prop :=
  forall w r w', m w = (r, w') -> heap w' = heap w.

Definition at_origin (v : vec) : Prop :=
  is_zero (vx v) /\ is_zero (vy v) /\ is_zero (vz v).

(** The rows of [a] that the index array refers to. *)
Definition referenced (a : ndarray) (idx : list Z) (k : nat) : Prop :=
  exists i, In i idx /\ norm_index (length a) i = Some k.

(** The events of lines 175-186. *)
Definition export_events (output_filename body : string)
           (points vertices normals : ndarray) (faces : list (list Z)) : list Event :=
  [OpenForWriting output_filename;
   DumpWavefront output_filename body vertices normals faces;
   ShowScatter [every_12th points; vertices]].

(** The run from the mean-centering on, entered with the [points] and
    [vertices] arrays on top of the heap [h]. *)
Definition tail_of_run (E : Environment) (os : flavour)
           (motive_filename out body : string) (h : list ndarray)
           (pts V N : ndarray) (F : list (list Z)) (w0 : World E)
           (nomeancenter : bool) : result unit * World E :=
  bind (mean_center E body nomeancenter (length h) (S (length h)) F)
       (fun _ => export E os (encode motive_filename) out body
                        (length h) (S (length h)) N F)
       (with_heap (h ++ [pts; V]) w0).

(** [V], [N] and [F] are the vertices, normals and triangles that lines
    133-135 compute from the cloud [pts]. *)
Definition reconstructs (L : PointcloudLib) (pts : ndarray) (nsides : Z)
           (V N : ndarray) (F : list (list Z)) : Prop :=
  exists surfaces polys,
    meshify_arena L pts nsides = Ok (surfaces, N)
    /\ face_index L surfaces = Ok (V, polys)
    /\ fan_triangulate L polys = Ok F.

(** No vertex of the array is within epsilon of a later one. *)
Definition separated (eps : Q) (vs : ndarray) : Prop :=
  forall i j u v,
    (i < j)%nat -> nth_error vs i = Some u -> nth_error vs j = Some v ->
    Pointcloud.within eps u v = false.

(** *** Further vocabulary *)

(** [sepIndex] of [genericpath._splitext]: the last separator, or -1. *)
Definition last_sep (fl : flavour) (cs : list ascii) : Z :=
  match fl with
  | Posix => rfind "/"%char cs
  | Nt => Z.max (rfind "\"%char cs) (rfind "/"%char cs)
  end.

(** The characters of a path after its last separator. *)
Definition basename_chars (fl : flavour) (p : string) : list ascii :=
  skipn (Z.to_nat (last_sep fl (list_ascii_of_string p) + 1))
        (list_ascii_of_string p).

(** The events that leave something behind: the mesh file, the project. *)
Definition is_output (e : Event) : bool :=
  match e with
  | OpenForWriting _ | DumpWavefront _ _ _ _ _ | MotiveSaveProject _ => true
  | _ => false
  end.

(** The commands of lines 140-145 that give a camera its settings back. *)
Definition is_camera_setter (e : Event) : bool :=
  match e with
  | SetCamSettings _ _ | SetCamImageGain _ _ | SetCamFrameRate _ _
  | SetFilterSwitch _ _ => true
  | _ => false
  end.

(** The events of the preparation and of the acquisition. *)
Definition is_early (e : Event) : bool :=
  match e with
  | MotiveInitialize | MotiveLoadProject _ | MotiveGetCams | VislightConfigure
  | MotiveUpdate | MotiveGetRigidBodies | ResetOrientation _ | ResetPivotOffset _
  | GetRotation _ | GetLocation _ | GetPointCloudMarkers _ | GetScreens
  | RunGridScan _ | ShowScatter _ => true
  | _ => false
  end.

(** Lines 95-100. *)
Definition prepare_head (motive_filename : string) : list Event :=
  [MotiveInitialize; MotiveLoadProject motive_filename; MotiveGetCams; MotiveGetCams].

(** Lines 101-105. *)
Definition prepare_mid : list Event :=
  [VislightConfigure; MotiveUpdate; MotiveGetRigidBodies].

(** Lines 109-112. *)
Definition reset_events (body : string) : list Event :=
  [ResetOrientation body; ResetPivotOffset body; MotiveUpdate;
   ResetOrientation body; ResetPivotOffset body; MotiveUpdate;
   ResetOrientation body; ResetPivotOffset body; MotiveUpdate].

(** Everything a preparation that goes through asks of the driver. *)
Definition prepare_events (motive_filename body : string) : list Event :=
  prepare_head motive_filename ++ prepare_mid ++ reset_events body
    ++ [GetRotation body; GetLocation body; GetPointCloudMarkers body].

(** The events of an acquisition that goes through, on screen [k]. *)
Definition acquire_events (k : nat) (pts : ndarray) : list Event :=
  [GetScreens; RunGridScan k; ShowScatter [pts]].

Definition finite (v : vec) : Prop := exists x y z, v = (Fin x, Fin y, Fin z).

(** The events of lines 159-170: reads of the location and attempts. *)
Definition is_alignment (e : Event) : bool :=
  match e with
  | GetLocation _ | ResetPivotOffset _ | SetLocation _ _ => true
  | _ => false
  end.

(** An index that numpy refuses on an axis of length [n]. *)
Definition out_of_range (n : nat) (i : Z) : Prop :=
  i < - Z.of_nat n \/ Z.of_nat n <= i.

(** The call of [motive.save_project]. *)
Definition is_save_project (e : Event) : bool :=
  match e with
  | MotiveSaveProject _ => true
  | _ => false
  end.

(** What a run leaves behind.  It never returns and never saves the project;
    either it has opened and dumped nothing, or the mesh file was opened,
    dumped and plotted as its last three events and it raised the TypeError
    of line 190. *)
Definition outputs_outcome {E : Environment} (os : flavour)
           (output_filename body : string)
           (w : World E) (r : result unit) (w' : World E) : Prop :=
  (exists e, r = Raise e)
  /\ exists l,
      log w' = log w ++ l
      /\ Forall (fun ev => is_save_project ev = false) l
      /\ ((exists pre pts V N F,
              r = Raise TypeError
              /\ l = pre ++ export_events (output_path os output_filename) body
                             pts V N F
              /\ Forall (fun ev => is_output ev = false) pre)
          \/ Forall (fun ev => is_output ev = false) l).

(** What the cameras are given back: the settings that the camera in the
    same position had at line 99, the frame rate that the first camera had
    at line 100, and an image gain of 1. *)
Definition cameras_outcome {E : Environment} (motive_filename : string)
           (w w' : World E) : Prop :=
  exists l,
    log w' = log w ++ l
    /\ (forall i rate,
           In (SetCamFrameRate i rate) l ->
           exists c cams,
             env_cams E (run_events E (prepare_head motive_filename) (st w))
             = c :: cams
             /\ rate = cam_frame_rate c)
    /\ (forall i gain, In (SetCamImageGain i gain) l -> gain = 1)
    /\ (forall i settings,
           In (SetCamSettings i settings) l ->
           nth_error
             (map cam_settings
                  (env_cams E
                     (run_events E [MotiveInitialize;
                                    MotiveLoadProject motive_filename;
                                    MotiveGetCams] (st w)))) i
           = Some settings).

(** The cameras were put into the visible-light configuration and were not
    given their settings back. *)
Definition vislight_left_on {E : Environment} (w w' : World E) : Prop :=
  exists l,
    log w' = log w ++ l
    /\ In VislightConfigure l
    /\ Forall (fun ev => is_camera_setter ev = false) l.

(** *** The end of a run *)

(** What line 175 and the following do in the world [wx], the arrays
    [points] and [vertices] holding [P] and [VV]: [open] fails, or the mesh is
    written and plotted and line 190 raises. *)
Definition export_end {E : Environment} (out body : string) (P VV N : ndarray)
           (F : list (list Z)) (wx : World E) : result unit * World E :=
  if env_writable E out (st wx)
  then (Raise TypeError, after (export_events out body P VV N F) wx)
  else (Raise OSError, wx).

(** *** The way to line 150 *)

(** The events of lines 94-146 when nothing fails: the preparation, the scan
    on screen [k] that collects [pts], and the cameras given back what
    [saved] holds. *)
Definition entry_events {E : Environment} (motive_filename body : string)
           (saved : list (list Z) * Z) (k : nat) (pts : ndarray) (w : World E)
  : list Event :=
  let early := prepare_events motive_filename body ++ acquire_events k pts in
  early
    ++ MotiveGetCams
    :: restore_events 0 (fst saved)
         (env_cams E (run_events E (early ++ [MotiveGetCams]) (st w))) (snd saved)
    ++ [MotiveUpdate].

(** The run gets to line 150: the output name is accepted, the preparation
    goes through and saves [saved], the scan on screen [k] collects the cloud
    [pts] of more than 100 points, and lines 133-135 make the mesh [V], [N],
    [F] of it. *)
Definition reaches_centering {E : Environment} (L : PointcloudLib) (os : flavour)
           (motive_filename output_filename body : string) (nsides screen : Z)
           (w : World E) (saved : list (list Z) * Z) (k : nat)
           (pts V N : ndarray) (F : list (list Z)) : Prop :=
  snd (splitext os (output_path os output_filename)) = ".obj"%string
  /\ prepare E motive_filename body w
     = (Ok saved, after (prepare_events motive_filename body) w)
  /\ norm_index
       (env_screens E (run_events E (prepare_events motive_filename body
                                       ++ [GetScreens]) (st w))) screen
     = Some k
  /\ pts = env_marker_pos E
             (run_events E (prepare_events motive_filename body
                              ++ [GetScreens; RunGridScan k]) (st w))
  /\ (100 < length pts)%nat
  /\ reconstructs L pts nsides V N F.

(** *** The mean-centering in the words of the specification

    These definitions do not use the functions of the program: they say in
    rational arithmetic what a difference, a mean and a centroid are. *)

(** [c] is [a - b]; with an operand that is not a number, neither is [c]. *)
Definition minus_is (a b c : num) : Prop :=
  match a, b with
  | Fin x, Fin y => exists z, c = Fin z /\ (z == x - y)%Q
  | _, _ => c = NaN
  end.

(** The row [v'] is the row [v] with [m] subtracted. *)
Definition moved_by (m v v' : vec) : Prop :=
  minus_is (fst (fst v)) (fst (fst m)) (fst (fst v'))
  /\ minus_is (snd (fst v)) (snd (fst m)) (snd (fst v'))
  /\ minus_is (snd v) (snd m) (snd v').

(** [a'] has the rows of [a], in the same order, each with [m] subtracted. *)
Definition translated_by (m : vec) (a a' : ndarray) : Prop :=
  Forall2 (moved_by m) a a'.

(** Row [i] of [a]: counted from the start when [i >= 0], from the end when
    [i < 0]. *)
Definition row_at (a : ndarray) (i : Z) (v : vec) : Prop :=
  exists k,
    nth_error a k = Some v
    /\ ((0 <= i /\ Z.of_nat k = i)
        \/ (i < 0 /\ Z.of_nat k = i + Z.of_nat (length a))).

(** [c] is the mean of [xs]: their sum divided by their number, and not a
    number when one of them is not, or when there is none. *)
Definition mean_is (xs : list num) (c : num) : Prop :=
  match c with
  | Fin q =>
      exists qs,
        xs = map Fin qs /\ qs <> []
        /\ (q == fold_right Qplus 0 qs / inject_Z (Z.of_nat (length qs)))%Q
  | NaN => xs = [] \/ In NaN xs
  end.

(** [m] is the centroid of the vertices of [V] that the triangles [F] refer
    to, a vertex counting once for each corner that refers to it. *)
Definition centroid_is (V : ndarray) (F : list (list Z)) (m : vec) : Prop :=
  exists rows,
    Forall2 (row_at V) (concat F) rows
    /\ mean_is (map (fun v => fst (fst v)) rows) (fst (fst m))
    /\ mean_is (map (fun v => snd (fst v)) rows) (snd (fst m))
    /\ mean_is (map (fun v => snd v) rows) (snd m).

(** The face-referenced centroid of [V] is the origin. *)
Definition centred_at_origin (V : ndarray) (F : list (list Z)) : Prop :=
  exists x y z,
    centroid_is V F (Fin x, Fin y, Fin z) /\ (x == 0)%Q /\ (y == 0)%Q /\ (z == 0)%Q.

(** [a] is within the tolerance of line 165 of [b]:
    [|a - b| <= 1e-8 + |b| / 1000], and never when one of the two is not a
    number. *)
Definition close_to (a b : num) : Prop :=
  match a, b with
  | Fin x, Fin y => (Qabs (x - y) <= (1 # 100000000) + (1 # 1000) * Qabs y)%Q
  | _, _ => False
  end.

(** The location [loc] matches the target, coordinate by coordinate. *)
Definition matches (loc target : vec) : Prop :=
  close_to (fst (fst loc)) (fst (fst target))
  /\ close_to (snd (fst loc)) (snd (fst target))
  /\ close_to (snd loc) (snd target).

(** Every entry of the index array is a row of an array of [n] rows. *)
Definition in_range (n : nat) (F : list (list Z)) : Prop :=
  forall i, In i (concat F) -> - Z.of_nat n <= i < Z.of_nat n.

(** *** What the statements say of a run

    In each of them [w] is the world when [scan_arena] is called and [w'] the
    world it leaves. *)

(** The name under which the mesh is written: a name without an extension
    gets [.obj] appended, and every file that the run opens or dumps has that
    name; a name with another extension stops the run before it has done
    anything, and a name that ends in [.obj] lets it initialise the driver. *)
Definition output_name_outcome {E : Environment} (os : flavour)
           (output_filename : string) (w : World E)
           (r : result unit) (w' : World E) : Prop :=
  let ext := snd (splitext os output_filename) in
  (ext = EmptyString ->
   output_path os output_filename = (output_filename ++ ".obj")%string)
  /\ (ext <> EmptyString -> ext <> ".obj"%string ->
      r = Raise (AssertionError NotWavefront) /\ w' = w)
  /\ (snd (splitext os (output_path os output_filename)) <> ".obj"%string ->
      r = Raise (AssertionError NotWavefront) /\ w' = w)
  /\ (log w' <> log w ->
      snd (splitext os (output_path os output_filename)) = ".obj"%string)
  /\ exists l,
      log w' = log w ++ l
      /\ (snd (splitext os (output_path os output_filename)) = ".obj"%string ->
          exists l', l = MotiveInitialize :: l')
      /\ forall fn,
          (In (OpenForWriting fn) l
           \/ exists name V N F, In (DumpWavefront fn name V N F) l) ->
          (ext = EmptyString -> fn = (output_filename ++ ".obj")%string)
          /\ (ext <> EmptyString -> fn = output_filename).

(** The mean-centering of a run that got to line 150 with the cloud [pts]
    and the mesh [V], [F]: the vector [m] that the driver is sent is the
    centroid of the face-referenced vertices, the rows that no face refers
    to have no influence on it, and the two arrays are left with [m]
    subtracted from each of their rows; a mesh that is written, and the plot
    after it, show these arrays. *)
Definition centred_by_centroid {E : Environment} (body : string)
           (w w' : World E) (pts V : ndarray) (F : list (list Z)) : Prop :=
  exists m pts' V' l,
    log w' = log w ++ l
    /\ In (SetLocation body m) l
    /\ (forall m', In (SetLocation body m') l -> m' = m)
    /\ centroid_is V F m
    /\ (forall V2, length V2 = length V ->
                   (forall k, referenced V (flatten F) k ->
                              nth_error V2 k = nth_error V k) ->
                   centroid V2 F = Some m)
    /\ translated_by m pts pts'
    /\ translated_by m V V'
    /\ heap w' = heap w ++ [pts'; V']
    /\ forall fn name V'' N' F',
        In (DumpWavefront fn name V'' N' F') l ->
        V'' = V' /\ In (ShowScatter [every_12th pts'; V']) l.

(** The alignment loop of a run that got to line 150 after the events [pre]
    and computed the centroid [m].  It starts in the world [w3] and makes
    [k] attempts, the location polled after each of the first [k - 1] not
    matching [m]; then either the [k]-th matches, the location is read once
    more and the run goes on to line 175, or [k] is 300, the run stops there
    with the error, and nothing was written. *)
Definition alignment_outcome {E : Environment} (out body : string) (w : World E)
           (pre : list Event) (pts V N : ndarray) (F : list (list Z)) (m : vec)
           (run : result unit * World E) : Prop :=
  let w3 := with_heap (heap w ++ [translate pts m; translate V m])
                      (after (pre ++ [GetLocation body]) w) in
  exists k,
    (1 <= k <= 300)%nat
    /\ (forall j, (1 <= j < k)%nat -> ~ matches (reported E body m j (st w3)) m)
    /\ ((matches (reported E body m k (st w3)) m
         /\ run = export_end out body (translate pts m) (translate V m) N F
                    (after (attempts body m k ++ [GetLocation body]) w3))
        \/ (k = 300%nat
            /\ ~ matches (reported E body m 300 (st w3)) m
            /\ run = (Raise ValueError, after (attempts body m 300) w3)
            /\ Forall (fun e => is_write e = false)
                      (pre ++ [GetLocation body] ++ attempts body m 300))).

(** Every mesh that a run writes is the contents of the [vertices] array and
    has its face-referenced centroid at the origin. *)
Definition written_mesh_centred {E : Environment} (w w' : World E) : Prop :=
  exists l,
    log w' = log w ++ l
    /\ forall fn name V N F,
        In (DumpWavefront fn name V N F) l ->
        heap_get (heap w') (S (length (heap w))) = V
        /\ centred_at_origin V F.

(** The heap after a run: the old arrays as they were, then at most two
    arrays of the run; in a run that got to line 150 these are the [points]
    and the [vertices] arrays, as produced when the mean-centering is off (or
    stops at an index that is no row), and overwritten with their translates
    by the centroid when it is on. *)
Definition heap_outcome {E : Environment} (L : PointcloudLib) (os : flavour)
           (motive_filename output_filename body : string) (nomeancenter : bool)
           (nsides screen : Z) (w w' : World E) : Prop :=
  (exists t, heap w' = heap w ++ t /\ (length t <= 2)%nat)
  /\ forall saved k pts V N F,
      reaches_centering L os motive_filename output_filename body nsides screen
                        w saved k pts V N F ->
      (nomeancenter = true -> heap w' = heap w ++ [pts; V])
      /\ (nomeancenter = false -> in_range (length V) F ->
          exists m pts' V',
            centroid_is V F m
            /\ translated_by m pts pts' /\ translated_by m V V'
            /\ heap w' = heap w ++ [pts'; V'])
      /\ (nomeancenter = false ->
          (exists i, In i (concat F) /\ out_of_range (length V) i) ->
          heap w' = heap w ++ [pts; V]).

(** A run with the mean-centering off is stopped by the check of the output
    name, or: after the preparation (which leaves the world [wp]) no pivot
    command is issued, and no location is ever set;
    a mesh that is written holds the vertices, normals and triangles of the
    reconstruction, and the arrays that are kept and plotted are untranslated;
    and a run that gets to line 150 goes straight to line 175 with them. *)
Definition uncentred_outcome {E : Environment} (L : PointcloudLib) (os : flavour)
           (motive_filename output_filename body : string) (nsides screen : Z)
           (w : World E) (r : result unit) (w' : World E) : Prop :=
  (snd (splitext os (output_path os output_filename)) <> ".obj"%string
   /\ r = Raise (AssertionError NotWavefront) /\ w' = w)
  \/ exists rp wp lp lrest,
      prepare E motive_filename body w = (rp, wp)
      /\ log wp = log w ++ lp
      /\ log w' = log wp ++ lrest
      /\ Forall (fun e => is_set_location e = false) (lp ++ lrest)
      /\ Forall (fun e => is_pivot_command e = false) lrest
      /\ (forall fn name V N F,
             In (DumpWavefront fn name V N F) lrest ->
             exists pts,
               In (ShowScatter [pts]) lrest
               /\ reconstructs L pts nsides V N F
               /\ heap w' = heap w ++ [pts; V]
               /\ fn = output_path os output_filename /\ name = body
               /\ In (ShowScatter [every_12th pts; V]) lrest)
      /\ (forall saved k pts V N F,
             reaches_centering L os motive_filename output_filename body nsides
                               screen w saved k pts V N F ->
             (r, w')
             = export_end (output_path os output_filename) body pts V N F
                 (with_heap (heap w ++ [pts; V])
                            (after (entry_events motive_filename body saved k pts w)
                                   w))).

(** A project without cameras. *)
Module Studio.

Definition env : Environment :=
  mkEnvironment unit (fun _ s => s)
    (fun _ => [])
    (fun _ => ["arena"%string])
    (fun _ _ => [nzero; nzero; nzero])
    (fun _ _ => Rig.pt 0 0 0)
    (fun _ _ => [Rig.pt 0 0 0])
    (fun _ => 1%nat)
    (fun _ => [])
    (fun _ _ => true).

Definition start : World env := @mkWorld env tt [] [].

End Studio.

(** ** The scan window

    [GridScanWindow] (lines 24-77).  The window is a piece of state that two
    callbacks, scheduled on the clock, work on; the tracker is a state
    machine that reacts to what the callbacks ask of it.  The rendering
    ([on_draw]) is not part of the model. *)

Module GridScan.

(** What the callbacks do to the tracker, the clock and the window. *)
Inductive Action : Type :=
| FlushCameraQueues
| Update
| GetUnidentMarkers
| SetCameraPosition (p : vec)
| UnscheduleDetection
| CloseWindow.

Record Tracker : Type := mkTracker {
  tr_state : Type;
  tr_step : Action -> tr_state -> tr_state;
  tr_markers : tr_state -> list vec
}.

Record Window : Type := mkWindow {
  cam_positions : list vec;   (* what the generator has yet to yield *)
  camera_position : vec;      (* [scene.camera.position.xyz] *)
  marker_pos : list vec;
  detecting : bool;           (* [detect_projection_point] is scheduled *)
  closed : bool
}.

Section Callbacks.

Variable T : Tracker.

(** The value of [(dist * np.sin(ang), dist * np.cos(ang), 0)] for the
    [i]-th angle of [np.linspace(0, 2*np.pi, 40)], a floating-point
    computation that the model leaves open. *)
Variable circle : nat -> vec.

(** The position of the camera of a new scene. *)
Variable home : vec.

Record State : Type := mkState {
  win : Window;
  tracker : tr_state T;
  trace : list Action
}.

(** Lines 45-50: the generator holds the first 39 of the 40 angles. *)
Definition init (t : tr_state T) : State :=
  mkState (mkWindow (map circle (seq 0 39)) home [] true false) t [].

Definition act (a : Action) (s : State) : State :=
  mkState (win s) (tr_step T a (tracker s)) (trace s ++ [a]).

(** Lines 52-59. *)
Definition move_camera (s : State) : State :=
  match cam_positions (win s) with
  | p :: rest =>
      let s1 := act (SetCameraPosition p) s in
      mkState (mkWindow rest p (marker_pos (win s)) (detecting (win s))
                        (closed (win s)))
              (tracker s1) (trace s1)
  | [] =>
      let s1 := act CloseWindow (act UnscheduleDetection s) in
      mkState (mkWindow [] (camera_position (win s)) (marker_pos (win s))
                        false true)
              (tracker s1) (trace s1)
  end.

(** Lines 67-77. *)
Definition detect_projection_point (s : State) : State :=
  let s1 := act FlushCameraQueues s in
  let s2 := act Update (act Update s1) in
  let s3 := act GetUnidentMarkers s2 in
  let markers := tr_markers T (tracker s3) in
  mkState (mkWindow (cam_positions (win s)) (camera_position (win s))
                    (marker_pos (win s) ++ markers) (detecting (win s))
                    (closed (win s)))
          (tracker s3) (trace s3).

(** The clock calls a callback only while it is scheduled. *)
Inductive Callback : Type := Detect | Move.

Definition call (s : State) (c : Callback) : State :=
  match c with
  | Detect => if detecting (win s) then detect_projection_point s else s
  | Move => move_camera s
  end.

Definition calls (cs : list Callback) (s : State) : State :=
  fold_left call cs s.

Definition is_move (c : Callback) : bool :=
  match c with
  | Move => true
  | Detect => false
  end.

Definition moves (cs : list Callback) : nat := length (filter is_move cs).

(** One frame: the callbacks in the order in which line 49 and line 50
    schedule them. *)
Fixpoint frames (n : nat) : list Callback :=
  match n with
  | O => []
  | S n' => Detect :: Move :: frames n'
  end.

Definition is_get_markers (a : Action) : bool :=
  match a with
  | GetUnidentMarkers => true
  | _ => false
  end.

Definition is_set_position (a : Action) : bool :=
  match a with
  | SetCameraPosition _ => true
  | _ => false
  end.

Definition is_tracker_call (a : Action) : bool :=
  match a with
  | FlushCameraQueues | Update | GetUnidentMarkers => true
  | _ => false
  end.

(** The window after [k] calls of [move_camera]. *)
Definition after_moves (k : nat) (w : Window) : Prop :=
  cam_positions w = map circle (seq k (39 - k))
  /\ camera_position w = match k with
                         | O => home
                         | S j => circle (Nat.min j 38)
                         end
  /\ closed w = (39 <? k)%nat
  /\ detecting w = negb (39 <? k)%nat.

End Callbacks.

End GridScan.

(** A tracker that sees one marker, further along after every update, and a
    stand-in for the circle of camera positions. *)
Module Bench.

Definition tracker : GridScan.Tracker :=
  GridScan.mkTracker nat
    (fun a n => match a with
                | GridScan.Update => S n
                | _ => n
                end)
    (fun n => [Rig.pt (Z.of_nat n) 0 0]).

Definition circle (i : nat) : vec := Rig.pt (Z.of_nat i) 1 0.

Definition home : vec := Rig.pt 0 0 1.

End Bench.

(** ** Laws of the monad *)

Section Laws.

Context {E : Environment}.

Lemma bind_cases {A B} (m : M E A) (k : A -> M E B) w r w' :
  bind m k w = (r, w') ->
  (exists a w1, m w = (Ok a, w1) /\ k a w1 = (r, w'))
  \/ (exists e, m w = (Raise e, w') /\ r = Raise e).
Proof.
  unfold bind. destruct (m w) as [[a | e] w1]; intro H.
  - left. now exists a, w1.
  - right. exists e. now inversion H.
Qed.

Lemma bind_ok {A B} (m : M E A) (k : A -> M E B) w b w' :
  bind m k w = (Ok b, w') ->
  exists a w1, m w = (Ok a, w1) /\ k a w1 = (Ok b, w').
Proof.
  intro H. destruct (bind_cases _ _ _ _ _ H) as [Hok | [e [_ Hr]]].
  - exact Hok.
  - discriminate Hr.
Qed.

Lemma bind_step {A B} (m : M E A) (k : A -> M E B) w a w1 :
  m w = (Ok a, w1) -> bind m k w = k a w1.
Proof. unfold bind. now intros ->. Qed.

Lemma bind_raise {A B} (m : M E A) (k : A -> M E B) w e w1 :
  m w = (Raise e, w1) -> bind m k w = (Raise e, w1).
Proof. unfold bind. now intros ->. Qed.

Lemma emit_eq (e : Event) (w : World E) : emit e w = (Ok tt, after [e] w).
Proof. reflexivity. Qed.

Lemma after_nil (w : World E) : after [] w = w.
Proof. destruct w. unfold after. simpl. now rewrite app_nil_r. Qed.

Lemma after_app (l1 l2 : list Event) (w : World E) :
  after l2 (after l1 w) = after (l1 ++ l2) w.
Proof.
  unfold after, run_events. simpl. now rewrite fold_left_app, app_assoc.
Qed.

Lemma emit_all_eq (es : list Event) (w : World E) :
  emit_all es w = (Ok tt, after es w).
Proof.
  revert w. induction es as [| e es IH]; intro w; simpl.
  - unfold ret. now rewrite after_nil.
  - rewrite (bind_step _ _ _ _ _ (emit_eq e w)), IH.
    now rewrite after_app.
Qed.

Lemma query_eq {A} (e : Event) (f : env_state E -> A) (w : World E) :
  query e f w = (Ok (f (st (after [e] w))), after [e] w).
Proof. reflexivity. Qed.

(** *** What a computation adds to the log *)

Lemma emits_ret {A} P (a : A) : emits P (@ret E A a).
Proof.
  intros w r w' H. inversion H; subst. exists []. now rewrite app_nil_r.
Qed.

Lemma emits_raise {A} P e : emits P (@raise E A e).
Proof.
  intros w r w' H. inversion H; subst. exists []. now rewrite app_nil_r.
Qed.

Lemma emits_emit (P : Event -> Prop) e : P e -> emits P (@emit E e).
Proof.
  intros HP w r w' H. inversion H; subst. exists [e]. simpl. auto.
Qed.

Lemma emits_observe {A} P (f : env_state E -> A) : emits P (observe f).
Proof.
  intros w r w' H. inversion H; subst. exists []. now rewrite app_nil_r.
Qed.

Lemma emits_bind {A B} P (m : M E A) (k : A -> M E B) :
  emits P m -> (forall a, emits P (k a)) -> emits P (bind m k).
Proof.
  intros Hm Hk w r w' H.
  destruct (bind_cases _ _ _ _ _ H) as [[a [w1 [H1 H2]]] | [e [H1 _]]].
  - destruct (Hm _ _ _ H1) as [l1 [E1 F1]].
    destruct (Hk a _ _ _ H2) as [l2 [E2 F2]].
    exists (l1 ++ l2). split.
    + now rewrite E2, E1, app_assoc.
    + now apply Forall_app.
  - exact (Hm _ _ _ H1).
Qed.

Lemma emits_query {A} (P : Event -> Prop) e (f : env_state E -> A) :
  P e -> emits P (query e f).
Proof.
  intro HP. apply emits_bind; [now apply emits_emit | intro; apply emits_observe].
Qed.

Lemma emits_emit_all (P : Event -> Prop) es : Forall P es -> emits P (@emit_all E es).
Proof.
  intros HP w r w' H. rewrite emit_all_eq in H. inversion H; subst.
  now exists es.
Qed.

Lemma emits_assert P b a : emits P (@assert E b a).
Proof. destruct b; [apply emits_ret | apply emits_raise]. Qed.

Lemma emits_lift {A} P (r : result A) : emits P (@lift E A r).
Proof. destruct r; [apply emits_ret | apply emits_raise]. Qed.

Lemma emits_alloc P a : emits P (@alloc E a).
Proof.
  intros w r w' H. inversion H; subst. exists []. simpl. now rewrite app_nil_r.
Qed.

Lemma emits_load P p : emits P (@load E p).
Proof.
  intros w r w' H. inversion H; subst. exists []. now rewrite app_nil_r.
Qed.

Lemma emits_isub P p v : emits P (@isub E p v).
Proof.
  intros w r w' H. inversion H; subst. exists []. simpl. now rewrite app_nil_r.
Qed.

Lemma emits_weaken {A} (P Q : Event -> Prop) (m : M E A) :
  (forall e, P e -> Q e) -> emits P m -> emits Q m.
Proof.
  intros HPQ Hm w r w' H. destruct (Hm _ _ _ H) as [l [El Fl]].
  exists l. split; [exact El |]. revert Fl. apply Forall_impl. exact HPQ.
Qed.

(** *** What a computation leaves in the heap *)

Lemma keeps_ret {A} (a : A) : keeps_heap (@ret E A a).
Proof. intros w r w' H. now inversion H. Qed.

Lemma keeps_raise {A} e : keeps_heap (@raise E A e).
Proof. intros w r w' H. now inversion H. Qed.

Lemma keeps_emit e : keeps_heap (@emit E e).
Proof. intros w r w' H. now inversion H. Qed.

Lemma keeps_observe {A} (f : env_state E -> A) : keeps_heap (observe f).
Proof. intros w r w' H. now inversion H. Qed.

Lemma keeps_bind {A B} (m : M E A) (k : A -> M E B) :
  keeps_heap m -> (forall a, keeps_heap (k a)) -> keeps_heap (bind m k).
Proof.
  intros Hm Hk w r w' H.
  destruct (bind_cases _ _ _ _ _ H) as [[a [w1 [H1 H2]]] | [e [H1 _]]].
  - rewrite (Hk a _ _ _ H2). exact (Hm _ _ _ H1).
  - exact (Hm _ _ _ H1).
Qed.

Lemma keeps_query {A} e (f : env_state E -> A) : keeps_heap (query e f).
Proof.
  apply keeps_bind; [apply keeps_emit | intro; apply keeps_observe].
Qed.

Lemma keeps_assert b a : keeps_heap (@assert E b a).
Proof. destruct b; [apply keeps_ret | apply keeps_raise]. Qed.

Lemma keeps_lift {A} (r : result A) : keeps_heap (@lift E A r).
Proof. destruct r; [apply keeps_ret | apply keeps_raise]. Qed.

Lemma keeps_load p : keeps_heap (@load E p).
Proof. intros w r w' H. now inversion H. Qed.

Lemma keeps_emit_all es : keeps_heap (@emit_all E es).
Proof. intros w r w' H. rewrite emit_all_eq in H. now inversion H. Qed.

End Laws.

Create HintDb scan.

#[local] Hint Resolve emits_ret emits_raise emits_observe emits_assert emits_lift
  emits_alloc emits_load emits_isub keeps_ret keeps_raise keeps_emit
  keeps_observe keeps_query keeps_assert keeps_lift keeps_load keeps_emit_all
  : scan.

(** Walks down a chain of binds, leaving the side conditions on the events. *)
Ltac emits_chain :=
  repeat first
    [ apply emits_bind; [| intro]
    | apply emits_query
    | apply emits_emit
    | apply emits_emit_all
    | solve [auto with scan]
    | match goal with
      | |- emits _ (match ?x with _ => _ end) => destruct x
      end ].

Ltac keeps_chain :=
  repeat first
    [ apply keeps_bind; [| intro]
    | solve [auto with scan]
    | match goal with
      | |- keeps_heap (match ?x with _ => _ end) => destruct x
      end ].

(** ** The phases of [scan_arena] *)

Section Phases.

Variable E : Environment.
Variable L : PointcloudLib.
Variable os : flavour.

Lemma bind_emit {B} e (k : unit -> M E B) w :
  bind (emit e) k w = k tt (after [e] w).
Proof. reflexivity. Qed.

Lemma bind_query {A B} e (f : env_state E -> A) (k : A -> M E B) w :
  bind (query e f) k w = k (f (st (after [e] w))) (after [e] w).
Proof. reflexivity. Qed.

Lemma bind_load {B} p (k : ndarray -> M E B) w :
  bind (load p) k w = k (heap_get (heap w) p) w.
Proof. reflexivity. Qed.

Lemma bind_alloc {B} a (k : nat -> M E B) w :
  bind (alloc a) k w = k (length (heap w)) (with_heap (heap w ++ [a]) w).
Proof. reflexivity. Qed.

Lemma bind_isub {B} p v (k : unit -> M E B) w :
  bind (isub p v) k w
  = k tt (with_heap (heap_set (heap w) p (translate (heap_get (heap w) p) v)) w).
Proof. reflexivity. Qed.

(** *** The heap *)

Lemma heap_get_last (h : list ndarray) (a : ndarray) :
  heap_get (h ++ [a]) (length h) = a.
Proof. unfold heap_get. now rewrite nth_middle. Qed.

Lemma heap_get_front (h t : list ndarray) (p : nat) :
  (p < length h)%nat -> heap_get (h ++ t) p = heap_get h p.
Proof. intro Hp. unfold heap_get. now apply app_nth1. Qed.

Lemma heap_set_app (h t : list ndarray) (k : nat) (v : ndarray) :
  heap_set (h ++ t) (length h + k) v = h ++ heap_set t k v.
Proof.
  induction h as [| x h IH]; simpl.
  - reflexivity.
  - now rewrite IH.
Qed.

Lemma heap_get_app (h t : list ndarray) (k : nat) :
  heap_get (h ++ t) (length h + k) = heap_get t k.
Proof. unfold heap_get. now rewrite app_nth2_plus. Qed.

(** *** The output name *)

Lemma check_output_cases (output_filename : string) (w : World E) :
  (snd (splitext os (output_path os output_filename)) = ".obj"%string
   /\ check_output E os output_filename w = (Ok (output_path os output_filename), w))
  \/ (snd (splitext os (output_path os output_filename)) <> ".obj"%string
      /\ check_output E os output_filename w = (Raise (AssertionError NotWavefront), w)).
Proof.
  unfold check_output.
  destruct (String.eqb_spec (snd (splitext os (output_path os output_filename))) ".obj")
    as [Heq | Hne].
  - left. split; [exact Heq | reflexivity].
  - right. split; [exact Hne | reflexivity].
Qed.

(** *** Preparation *)

Lemma reset_round_emits (P : Event -> Prop) body :
  P (ResetOrientation body) -> P (ResetPivotOffset body) -> P MotiveUpdate ->
  emits P (reset_round E body).
Proof. intros H1 H2 H3. unfold reset_round. emits_chain; assumption. Qed.

Lemma prepare_emits motive_filename body :
  emits harmless (prepare E motive_filename body).
Proof.
  unfold prepare.
  emits_chain; try (apply reset_round_emits); split; reflexivity.
Qed.

Lemma prepare_keeps motive_filename body :
  keeps_heap (prepare E motive_filename body).
Proof.
  unfold prepare, reset_round. keeps_chain.
Qed.

Lemma bind_ret {A B} (a : A) (k : A -> M E B) w : bind (ret a) k w = k a w.
Proof. reflexivity. Qed.

Lemma bind_observe {A B} (f : env_state E -> A) (k : A -> M E B) w :
  bind (observe f) k w = k (f (st w)) w.
Proof. reflexivity. Qed.

Lemma after_with_heap (es : list Event) (h : list ndarray) (w : World E) :
  after es (with_heap h w) = with_heap h (after es w).
Proof. reflexivity. Qed.

Lemma with_heap_twice (h1 h2 : list ndarray) (w : World E) :
  with_heap h2 (with_heap h1 w) = with_heap h2 w.
Proof. reflexivity. Qed.

Lemma heap_with_heap (h : list ndarray) (w : World E) : heap (with_heap h w) = h.
Proof. reflexivity. Qed.

Lemma heap_after (es : list Event) (w : World E) : heap (after es w) = heap w.
Proof. reflexivity. Qed.

Lemma log_after (es : list Event) (w : World E) : log (after es w) = log w ++ es.
Proof. reflexivity. Qed.

Lemma st_after (es : list Event) (w : World E) :
  st (after es w) = run_events E es (st w).
Proof. reflexivity. Qed.

(** *** Acquisition *)

(** The cloud that the scan window hands over on screen [k]. *)
Lemma acquire_run (screen : Z) (w : World E) (k : nat) :
  norm_index (env_screens E (st (after [GetScreens] w))) screen = Some k ->
  let pts := env_marker_pos E (run_events E [GetScreens; RunGridScan k] (st w)) in
  ((length pts <= 100)%nat ->
   acquire E screen w
   = (Raise (AssertionError (TooFewPoints (length pts))),
      with_heap (heap w ++ [pts]) (after [GetScreens; RunGridScan k] w)))
  /\ ((100 < length pts)%nat ->
      acquire E screen w
      = (Ok (length (heap w)),
         with_heap (heap w ++ [pts])
                   (after [GetScreens; RunGridScan k; ShowScatter [pts]] w))).
Proof.
  intros Hk pts. unfold acquire.
  rewrite bind_query, Hk, bind_ret, bind_emit, bind_observe, bind_alloc, bind_load.
  rewrite after_app.
  change ([GetScreens] ++ [RunGridScan k]) with [GetScreens; RunGridScan k].
  change (env_marker_pos E (st (after [GetScreens; RunGridScan k] w))) with pts.
  rewrite heap_with_heap, heap_after, heap_get_last.
  clearbody pts.
  unfold check_points, assert. split; intro Hlen.
  - destruct (Z.ltb_spec 100 (Z.of_nat (length pts))) as [Hlt | Hge]; [lia |].
    reflexivity.
  - destruct (Z.ltb_spec 100 (Z.of_nat (length pts))) as [Hlt | Hge]; [| lia].
    rewrite bind_ret.
    destruct pts as [| p0 rest]; [simpl in Hlen; lia |].
    change (ndim (p0 :: rest) =? 2) with true. cbv iota.
    rewrite bind_ret, bind_emit. unfold ret.
    now rewrite after_with_heap, after_app.
Qed.

Lemma acquire_ok (screen : Z) (w : World E) (p : nat) (w1 : World E) :
  acquire E screen w = (Ok p, w1) ->
  exists k pts,
    pts = env_marker_pos E (run_events E [GetScreens; RunGridScan k] (st w))
    /\ (100 < length pts)%nat
    /\ p = length (heap w)
    /\ w1 = with_heap (heap w ++ [pts])
                      (after [GetScreens; RunGridScan k; ShowScatter [pts]] w).
Proof.
  intro H.
  destruct (norm_index (env_screens E (st (after [GetScreens] w))) screen)
    as [k |] eqn:Hk.
  - destruct (acquire_run screen w k Hk) as [Hfew Hmany].
    set (pts := env_marker_pos E (run_events E [GetScreens; RunGridScan k] (st w))) in *.
    destruct (Nat.le_gt_cases (length pts) 100) as [Hle | Hgt].
    + rewrite (Hfew Hle) in H. discriminate H.
    + rewrite (Hmany Hgt) in H. inversion H; subst.
      exists k, pts. repeat split; auto.
  - unfold acquire in H. rewrite bind_query, Hk in H. discriminate H.
Qed.

Lemma acquire_emits (screen : Z) : emits quiet (acquire E screen).
Proof.
  unfold acquire, check_points. emits_chain; split; reflexivity.
Qed.

(** *** Reconstruction *)

Lemma reconstruct_ok (points : nat) (nsides : Z) (w : World E)
      (vertices : nat) (normals : ndarray) (faces : list (list Z)) (w1 : World E) :
  reconstruct E L points nsides w = (Ok (vertices, normals, faces), w1) ->
  exists surfaces V polys,
    meshify_arena L (heap_get (heap w) points) nsides = Ok (surfaces, normals)
    /\ face_index L surfaces = Ok (V, polys)
    /\ fan_triangulate L polys = Ok faces
    /\ vertices = length (heap w)
    /\ w1 = with_heap (heap w ++ [V]) w.
Proof.
  unfold reconstruct. rewrite bind_load.
  destruct (meshify_arena L (heap_get (heap w) points) nsides)
    as [[surfaces N] |] eqn:Hm; [| discriminate].
  simpl lift. rewrite bind_ret. simpl fst.
  destruct (face_index L surfaces) as [[V polys] |] eqn:Hf; [| discriminate].
  simpl lift. rewrite bind_ret, bind_alloc. simpl fst; simpl snd.
  destruct (fan_triangulate L polys) as [F |] eqn:Ht; [| discriminate].
  simpl lift. rewrite bind_ret. unfold ret. intro H. inversion H; subst.
  exists surfaces, V, polys. repeat split; auto.
Qed.

Lemma reconstruct_emits (points : nat) (nsides : Z) :
  emits quiet (reconstruct E L points nsides).
Proof. unfold reconstruct. emits_chain. Qed.

(** *** The cameras *)

Lemma restore_events_quiet (i : nat) settings cams rate :
  Forall quiet (restore_events i settings cams rate).
Proof.
  revert i cams. induction settings as [| s settings IH]; intros i cams; simpl.
  - constructor.
  - destruct cams as [| c cams]; [constructor |].
    repeat (constructor; [split; reflexivity |]).
    apply Forall_app. split; [| apply IH].
    destruct (contains "Prime 13" (cam_name c)); repeat constructor.
Qed.

Lemma restore_cameras_eq settings rate (w : World E) :
  restore_cameras E settings rate w
  = (Ok tt,
     after (MotiveGetCams
              :: restore_events 0 settings (env_cams E (st (after [MotiveGetCams] w))) rate
              ++ [MotiveUpdate]) w).
Proof.
  unfold restore_cameras. rewrite bind_query.
  rewrite (bind_step _ _ _ _ _ (emit_all_eq _ _)), emit_eq.
  now rewrite !after_app.
Qed.

Lemma restore_cameras_quiet settings rate (w : World E) :
  Forall quiet
    (MotiveGetCams
       :: restore_events 0 settings (env_cams E (st (after [MotiveGetCams] w))) rate
       ++ [MotiveUpdate]).
Proof.
  constructor; [split; reflexivity |].
  apply Forall_app. split; [apply restore_events_quiet |].
  repeat constructor.
Qed.

(** *** The export *)

(** Line 190 adds a [str] to the [bytes] of line 94. *)
Lemma scanned_name_type_error motive_filename :
  text_add (fst (splitext_text os (encode motive_filename))) (Str "_scanned.ttp")
  = Raise TypeError.
Proof. reflexivity. Qed.

Lemma export_eq motive_filename output_filename body points vertices normals faces
      (w : World E) :
  export E os (encode motive_filename) output_filename body points vertices
         normals faces w
  = export_end output_filename body
               (heap_get (heap w) points) (heap_get (heap w) vertices)
               normals faces w.
Proof.
  unfold export, export_end, export_events.
  rewrite bind_load, bind_observe.
  destruct (env_writable E output_filename (st w)); [| reflexivity].
  rewrite bind_emit, bind_emit, bind_load, bind_load, bind_emit.
  rewrite scanned_name_type_error.
  cbn [lift bind raise]. now rewrite !after_app.
Qed.

(** *** The alignment loop *)

Lemma run_events_app (l1 l2 : list Event) (s : env_state E) :
  run_events E (l1 ++ l2) s = run_events E l2 (run_events E l1 s).
Proof. unfold run_events. apply fold_left_app. Qed.

Lemma reported_S body target (j : nat) (s : env_state E) :
  reported E body target (S j) s
  = reported E body target j (run_events E (attempt body target) s).
Proof. unfold reported. cbn [attempts]. now rewrite run_events_app. Qed.

Lemma reported_0 body target (s : env_state E) :
  reported E body target 0 s = env_location E body s.
Proof. reflexivity. Qed.

(** The loop either stops at the first attempt whose poll matches, or it
    makes every attempt and raises. *)
Lemma align_pivot_run body target (n : nat) (w : World E) :
  (exists k,
      (1 <= k <= n)%nat
      /\ (forall j, (1 <= j < k)%nat ->
                    allclose pivot_rtol (reported E body target j (st w)) target = false)
      /\ allclose pivot_rtol (reported E body target k (st w)) target = true
      /\ align_pivot E body target n w = (Ok tt, after (attempts body target k) w))
  \/ ((forall j, (1 <= j <= n)%nat ->
                 allclose pivot_rtol (reported E body target j (st w)) target = false)
      /\ align_pivot E body target n w
         = (Raise ValueError, after (attempts body target n) w)).
Proof.
  revert w. induction n as [| n IH]; intro w.
  - right. split; [intros j Hj; lia |].
    simpl. unfold raise. now rewrite after_nil.
  - cbn [align_pivot]. rewrite !bind_emit, bind_query, !after_app.
    change ([ResetPivotOffset body] ++ [SetLocation body target]
              ++ [GetLocation body]) with (attempt body target).
    assert (H1 : env_location E body (st (after (attempt body target) w))
                 = reported E body target 1 (st w)).
    { now rewrite reported_S, reported_0. }
    rewrite H1.
    destruct (allclose pivot_rtol (reported E body target 1 (st w)) target) eqn:Hc.
    + left. exists 1%nat.
      split; [lia |]. split; [intros j Hj; lia |]. split; [exact Hc |].
      unfold ret. cbn [attempts]. now rewrite app_nil_r.
    + destruct (IH (after (attempt body target) w))
        as [[k [Hk [Hbefore [Hat Hrun]]]] | [Hall Hrun]].
      * left. exists (S k). split; [lia |]. split; [| split].
        -- intros j Hj. destruct j as [| [| j]]; [lia | exact Hc |].
           rewrite reported_S. apply Hbefore. lia.
        -- rewrite reported_S. exact Hat.
        -- rewrite Hrun, after_app. reflexivity.
      * right. split.
        -- intros j Hj. destruct j as [| [| j]]; [lia | exact Hc |].
           rewrite reported_S. apply Hall. lia.
        -- rewrite Hrun, after_app. reflexivity.
Qed.

Lemma attempts_set_locations body target (k : nat) :
  length (filter is_set_location (attempts body target k)) = k.
Proof. induction k as [| k IH]; simpl; [reflexivity | now rewrite IH]. Qed.

Lemma attempts_no_write body target (k : nat) :
  Forall (fun e => is_write e = false) (attempts body target k).
Proof.
  induction k as [| k IH]; simpl; [constructor |].
  repeat (constructor; [reflexivity |]). exact IH.
Qed.

(** *** Mean-centering *)

Lemma mean_center_off body points vertices faces (w : World E) :
  mean_center E body true points vertices faces w = (Ok tt, w).
Proof. reflexivity. Qed.

Lemma mean_center_index_error body points vertices faces (w : World E) :
  centroid (heap_get (heap w) vertices) faces = None ->
  mean_center E body false points vertices faces w = (Raise IndexError, w).
Proof.
  intro Hc. unfold mean_center. rewrite bind_load, Hc. reflexivity.
Qed.

(** With a centroid, the two arrays are overwritten, the old location is
    read, and the loop starts. *)
Lemma mean_center_eq body points vertices faces (w : World E) (m : vec) :
  centroid (heap_get (heap w) vertices) faces = Some m ->
  let h1 := heap_set (heap w) vertices (translate (heap_get (heap w) vertices) m) in
  let h2 := heap_set h1 points (translate (heap_get h1 points) m) in
  mean_center E body false points vertices faces w
  = bind (align_pivot E body m 300)
         (fun _ => bind (query (GetLocation body) (env_location E body))
                        (fun _ => ret tt))
         (after [GetLocation body] (with_heap h2 w)).
Proof.
  intros Hc h1 h2. unfold mean_center.
  rewrite bind_load, Hc, bind_ret, bind_isub, bind_isub, bind_query.
  reflexivity.
Qed.

(** *** The whole run, up to the mean-centering *)

Lemma quiet_harmless (e : Event) : quiet e -> harmless e.
Proof.
  intros [Hp Hw]. split; [| exact Hw].
  destruct e; try reflexivity; discriminate Hp.
Qed.

(** Every run of [scan_arena] fails on the output name without touching the
    world, or fails before the mean-centering, or reaches the mean-centering
    with the [points] and [vertices] arrays on top of the heap. *)
Lemma scan_arena_cases motive_filename output_filename body nomeancenter
      nsides screen (w : World E) r w' :
  scan_arena E L os motive_filename output_filename body nomeancenter nsides screen w
  = (r, w') ->
  let out := output_path os output_filename in
  (snd (splitext os out) <> ".obj"%string
   /\ r = Raise (AssertionError NotWavefront) /\ w' = w)
  \/ (snd (splitext os out) = ".obj"%string
      /\ exists rp wp lp,
        prepare E motive_filename body w = (rp, wp)
        /\ log wp = log w ++ lp /\ Forall harmless lp /\ heap wp = heap w
        /\ ((exists e lq, r = Raise e /\ log w' = log wp ++ lq /\ Forall quiet lq)
            \/ (exists pts surfaces N V polys F lq,
                   (100 < length pts)%nat
                   /\ meshify_arena L pts nsides = Ok (surfaces, N)
                   /\ face_index L surfaces = Ok (V, polys)
                   /\ fan_triangulate L polys = Ok F
                   /\ Forall quiet lq
                   /\ In (ShowScatter [pts]) lq
                   /\ tail_of_run E os motive_filename out body (heap w)
                                   pts V N F (after lq wp) nomeancenter
                      = (r, w')))).
Proof.
  intros H out. unfold tail_of_run. unfold scan_arena in H.
  destruct (check_output_cases output_filename w) as [[Hext Hc] | [Hext Hc]].
  2: { left. rewrite (bind_raise _ _ _ _ _ Hc) in H. inversion H; subst. auto. }
  right. split; [exact Hext |].
  rewrite (bind_step _ _ _ _ _ Hc) in H. fold out in H.
  cbv zeta in H. change (chars (encode motive_filename)) with motive_filename in H.
  destruct (prepare E motive_filename body w) as [rp wp] eqn:Hp.
  destruct (prepare_emits motive_filename body _ _ _ Hp) as [lp [Elp Flp]].
  pose proof (prepare_keeps motive_filename body _ _ _ Hp) as Hheap.
  exists rp, wp, lp. split; [reflexivity |]. repeat (split; [assumption |]).
  destruct rp as [saved | e].
  2: { left. rewrite (bind_raise _ _ _ _ _ Hp) in H. inversion H; subst.
       exists e, []. rewrite app_nil_r. auto. }
  rewrite (bind_step _ _ _ _ _ Hp) in H.
  destruct (acquire E screen wp) as [[p | e] wa] eqn:Ha.
  2: { left. rewrite (bind_raise _ _ _ _ _ Ha) in H. inversion H; subst.
       destruct (acquire_emits screen _ _ _ Ha) as [lq [Elq Flq]].
       exists e, lq. auto. }
  rewrite (bind_step _ _ _ _ _ Ha) in H.
  destruct (acquire_ok _ _ _ _ Ha) as [k [pts [Hpts [Hlen [Hp0 Hwa]]]]].
  destruct (reconstruct E L p nsides wa) as [[[[v N] F] | e] wr] eqn:Hr.
  2: { left. rewrite (bind_raise _ _ _ _ _ Hr) in H. inversion H; subst r w'.
       destruct (reconstruct_emits p nsides _ _ _ Hr) as [lq [Elq Flq]].
       exists e, ([GetScreens; RunGridScan k; ShowScatter [pts]] ++ lq).
       split; [reflexivity |]. split.
       - rewrite Elq, Hwa. cbn [log with_heap]. rewrite log_after.
         now rewrite app_assoc.
       - apply Forall_app. split; [| exact Flq].
         repeat (constructor; [split; reflexivity |]). constructor. }
  rewrite (bind_step _ _ _ _ _ Hr) in H. cbn [fst snd] in H.
  destruct (reconstruct_ok _ _ _ _ _ _ _ Hr)
    as [surfaces [V [polys [Hm [Hf [Ht [Hv Hwr]]]]]]].
  rewrite (bind_step _ _ _ _ _ (restore_cameras_eq _ _ _)) in H.
  right.
  set (cams := MotiveGetCams
                 :: restore_events 0 (fst saved)
                      (env_cams E (st (after [MotiveGetCams] wr))) (snd saved)
                 ++ [MotiveUpdate]) in *.
  assert (Hcams : Forall quiet cams) by apply restore_cameras_quiet.
  clearbody cams.
  exists pts, surfaces, N, V, polys, F,
    ([GetScreens; RunGridScan k; ShowScatter [pts]] ++ cams).
  assert (Hget : heap_get (heap wa) p = pts).
  { rewrite Hwa, Hp0, heap_with_heap. apply heap_get_last. }
  rewrite Hget in Hm.
  repeat (split; [assumption |]).
  split.
  { apply Forall_app. split; [| exact Hcams].
    repeat (constructor; [split; reflexivity |]). constructor. }
  split.
  { apply in_or_app. left. simpl. auto. }
  rewrite <- H. subst v p. rewrite Hwr, Hwa.
  rewrite !heap_with_heap, Hheap, length_app. cbn [length].
  rewrite Nat.add_1_r, !after_with_heap, with_heap_twice, after_app.
  rewrite <- (app_assoc (heap w)). reflexivity.
Qed.

Lemma mean_center_run body points vertices faces (w : World E) (m : vec) :
  centroid (heap_get (heap w) vertices) faces = Some m ->
  let h1 := heap_set (heap w) vertices (translate (heap_get (heap w) vertices) m) in
  let h2 := heap_set h1 points (translate (heap_get h1 points) m) in
  let w3 := after [GetLocation body] (with_heap h2 w) in
  (exists k,
      (1 <= k <= 300)%nat
      /\ (forall j, (1 <= j < k)%nat ->
                    allclose pivot_rtol (reported E body m j (st w3)) m = false)
      /\ allclose pivot_rtol (reported E body m k (st w3)) m = true
      /\ mean_center E body false points vertices faces w
         = (Ok tt, after (attempts body m k ++ [GetLocation body]) w3))
  \/ ((forall j, (1 <= j <= 300)%nat ->
                 allclose pivot_rtol (reported E body m j (st w3)) m = false)
      /\ mean_center E body false points vertices faces w
         = (Raise ValueError, after (attempts body m 300) w3)).
Proof.
  intros Hc h1 h2 w3.
  pose proof (mean_center_eq body points vertices faces w m Hc) as Heq.
  cbv zeta in Heq. fold h1 in Heq. fold h2 in Heq. fold w3 in Heq.
  destruct (align_pivot_run body m 300 w3)
    as [[k [Hk [Hbefore [Hat Hrun]]]] | [Hall Hrun]].
  - left. exists k. repeat (split; [assumption |]).
    rewrite Heq, (bind_step _ _ _ _ _ Hrun), bind_query. unfold ret.
    now rewrite after_app.
  - right. split; [assumption |].
    now rewrite Heq, (bind_raise _ _ _ _ _ Hrun).
Qed.

Lemma heap_get_top0 (h : list ndarray) a t : heap_get (h ++ a :: t) (length h) = a.
Proof. unfold heap_get. apply nth_middle. Qed.

Lemma heap_get_top1 (h : list ndarray) a b t :
  heap_get (h ++ a :: b :: t) (S (length h)) = b.
Proof.
  replace (h ++ a :: b :: t) with ((h ++ [a]) ++ b :: t)
    by now rewrite <- app_assoc.
  replace (S (length h)) with (length (h ++ [a]))
    by (rewrite length_app; simpl; lia).
  apply heap_get_top0.
Qed.

Lemma heap_set_top0 (h : list ndarray) a t x :
  heap_set (h ++ a :: t) (length h) x = h ++ x :: t.
Proof.
  replace (length h) with (length h + 0)%nat by lia. now rewrite heap_set_app.
Qed.

Lemma heap_set_top1 (h : list ndarray) a b t x :
  heap_set (h ++ a :: b :: t) (S (length h)) x = h ++ a :: x :: t.
Proof.
  replace (S (length h)) with (length h + 1)%nat by lia. now rewrite heap_set_app.
Qed.

(** *** From the mean-centering to the end *)

Section Tail.

Variables (motive_filename out body : string).
Variables (h : list ndarray) (pts V N : ndarray) (F : list (list Z)).
Variable w0 : World E.

Lemma tail_without_centering :
  tail_of_run E os motive_filename out body h pts V N F w0 true
  = export_end out body pts V N F (with_heap (h ++ [pts; V]) w0).
Proof.
  unfold tail_of_run.
  rewrite (bind_step _ _ _ _ _ (mean_center_off _ _ _ _ _)), export_eq.
  now rewrite heap_with_heap, heap_get_top0, heap_get_top1.
Qed.

Lemma tail_index_error :
  centroid V F = None ->
  tail_of_run E os motive_filename out body h pts V N F w0 false = (Raise IndexError, with_heap (h ++ [pts; V]) w0).
Proof.
  intro Hc. unfold tail_of_run.
  rewrite (bind_raise _ _ _ IndexError (with_heap (h ++ [pts; V]) w0));
    [reflexivity |].
  apply mean_center_index_error.
  now rewrite heap_with_heap, heap_get_top1.
Qed.

Lemma tail_with_centering (m : vec) :
  centroid V F = Some m ->
  let w3 := with_heap (h ++ [translate pts m; translate V m])
                      (after [GetLocation body] w0) in
  (exists k,
      (1 <= k <= 300)%nat
      /\ (forall j, (1 <= j < k)%nat ->
                    allclose pivot_rtol (reported E body m j (st w3)) m = false)
      /\ allclose pivot_rtol (reported E body m k (st w3)) m = true
      /\ tail_of_run E os motive_filename out body h pts V N F w0 false
         = export_end out body (translate pts m) (translate V m) N F
             (after (attempts body m k ++ [GetLocation body]) w3))
  \/ ((forall j, (1 <= j <= 300)%nat ->
                 allclose pivot_rtol (reported E body m j (st w3)) m = false)
      /\ tail_of_run E os motive_filename out body h pts V N F w0 false = (Raise ValueError, after (attempts body m 300) w3)).
Proof.
  intros Hc w3. unfold tail_of_run.
  assert (Hc' : centroid (heap_get (heap (with_heap (h ++ [pts; V]) w0))
                                   (S (length h))) F = Some m).
  { now rewrite heap_with_heap, heap_get_top1. }
  pose proof (mean_center_run body (length h) (S (length h)) F _ m Hc') as Hrun.
  cbv zeta in Hrun.
  rewrite heap_with_heap, heap_get_top1, heap_set_top1, heap_get_top0,
    heap_set_top0 in Hrun.
  change (after [GetLocation body]
            (with_heap (h ++ [translate pts m; translate V m])
                       (with_heap (h ++ [pts; V]) w0))) with w3 in Hrun.
  destruct Hrun as [[k [Hk [Hbefore [Hat Hrun]]]] | [Hall Hrun]].
  - left. exists k. repeat (split; [assumption |]).
    rewrite (bind_step _ _ _ _ _ Hrun), export_eq.
    rewrite heap_after. unfold w3 at 1 2. rewrite heap_with_heap.
    now rewrite heap_get_top0, heap_get_top1.
  - right. split; [assumption |].
    now rewrite (bind_raise _ _ _ _ _ Hrun).
Qed.

End Tail.

End Phases.

(** ** Arithmetic of the centroid *)

Section Centroid.

Lemma norm_index_none (n : nat) (i : Z) :
  norm_index n i = None <-> out_of_range n i.
Proof.
  unfold norm_index, out_of_range.
  destruct (Z.leb_spec 0 i), (Z.ltb_spec i (Z.of_nat n)),
    (Z.leb_spec (- Z.of_nat n) i), (Z.ltb_spec i 0); cbn [andb];
    split; intro Hx; try discriminate Hx; try lia; reflexivity.
Qed.

Lemma norm_index_bound (n : nat) (i : Z) (k : nat) :
  norm_index n i = Some k -> (k < n)%nat.
Proof.
  unfold norm_index.
  destruct (Z.leb_spec 0 i), (Z.ltb_spec i (Z.of_nat n)),
    (Z.leb_spec (- Z.of_nat n) i), (Z.ltb_spec i 0); cbn [andb];
    intro Hx; inversion Hx; lia.
Qed.

Lemma take_rows_none (a : ndarray) (idx : list Z) :
  take_rows a idx = None <-> exists i, In i idx /\ out_of_range (length a) i.
Proof.
  induction idx as [| i idx IH]; simpl.
  - split; [discriminate | intros [i [[] _]]].
  - destruct (norm_index (length a) i) as [k |] eqn:Hk.
    + destruct (nth_error a k) as [v |] eqn:Hv.
      * destruct (take_rows a idx) as [vs |].
        -- split; [discriminate |]. intros [j [[Hj | Hj] Hout]].
           ++ subst j. apply norm_index_none in Hout. congruence.
           ++ destruct IH as [_ IH'].
              specialize (IH' (ex_intro _ j (conj Hj Hout))). discriminate IH'.
        -- split; [| reflexivity]. intros _.
           destruct IH as [IH' _]. destruct (IH' eq_refl) as [j [Hj Hout]].
           exists j. split; [now right | exact Hout].
      * apply norm_index_bound in Hk. apply nth_error_None in Hv. lia.
    + split; [| reflexivity]. intros _. exists i. split; [now left |].
      now apply norm_index_none.
Qed.

Lemma length_translate (a : ndarray) (m : vec) : length (translate a m) = length a.
Proof. unfold translate. apply length_map. Qed.

Lemma take_rows_translate (a : ndarray) (m : vec) (idx : list Z) :
  take_rows (translate a m) idx
  = option_map (fun rows => translate rows m) (take_rows a idx).
Proof.
  induction idx as [| i idx IH]; simpl.
  - reflexivity.
  - rewrite length_translate.
    destruct (norm_index (length a) i) as [k |]; [| reflexivity].
    unfold translate at 1. rewrite nth_error_map.
    destruct (nth_error a k) as [v |]; simpl; [| reflexivity].
    rewrite IH. destruct (take_rows a idx); reflexivity.
Qed.

(** Only the rows that the index array refers to are read. *)
Lemma take_rows_agree (a b : ndarray) (idx : list Z) :
  length a = length b ->
  (forall k, referenced a idx k -> nth_error a k = nth_error b k) ->
  take_rows a idx = take_rows b idx.
Proof.
  intros Hlen Hsame. induction idx as [| i idx IH]; simpl.
  - reflexivity.
  - rewrite <- Hlen.
    destruct (norm_index (length a) i) as [k |] eqn:Hk; [| reflexivity].
    rewrite <- (Hsame k).
    + rewrite IH; [reflexivity |].
      intros k' [i' [Hin Hi']]. apply Hsame. exists i'. split; [now right | exact Hi'].
    + exists i. split; [now left | exact Hk].
Qed.

Lemma nsum_fin (xs : list num) (s : Q) :
  nsum xs = Fin s ->
  exists qs, xs = map Fin qs /\ s = fold_right Qplus 0%Q qs.
Proof.
  revert s. induction xs as [| x xs IH]; intros s H.
  - exists []. simpl in H. inversion H. auto.
  - simpl in H. destruct x as [q |]; [| discriminate H].
    change (fold_right nadd nzero xs) with (nsum xs) in H.
    destruct (nsum xs) as [t |] eqn:Ht; [| discriminate H].
    destruct (IH t eq_refl) as [qs [Hxs Hs]].
    exists (q :: qs). simpl. inversion H. subst. auto.
Qed.

Lemma nsum_shift (qs : list Q) (c : Q) :
  nsum (map (fun x => nsub x (Fin c)) (map Fin qs))
  = Fin (fold_right Qplus 0%Q (map (fun q => (q - c)%Q) qs)).
Proof.
  induction qs as [| q qs IH]; simpl.
  - reflexivity.
  - change (fold_right nadd nzero
              (map (fun x => nsub x (Fin c)) (map Fin qs)))
      with (nsum (map (fun x => nsub x (Fin c)) (map Fin qs))).
    now rewrite IH.
Qed.

Lemma qsum_shift (qs : list Q) (c : Q) :
  (fold_right Qplus 0 (map (fun q => q - c) qs)
   == fold_right Qplus 0 qs - inject_Z (Z.of_nat (length qs)) * c)%Q.
Proof.
  induction qs as [| q qs IH].
  - simpl. ring.
  - cbn [map fold_right length]. rewrite IH.
    rewrite Nat2Z.inj_succ. unfold Z.succ. rewrite inject_Z_plus. ring.
Qed.

(** Removing the mean from every term leaves a mean of zero. *)
Lemma nmean_centred (xs : list num) (c : Q) :
  nmean xs = Fin c ->
  is_zero (nmean (map (fun x => nsub x (Fin c)) xs)).
Proof.
  unfold nmean, ndiv_count. intro H.
  destruct (length xs) as [| n] eqn:Hn; [discriminate H |].
  destruct (nsum xs) as [s |] eqn:Hs; [| discriminate H].
  destruct (nsum_fin xs s Hs) as [qs [Hxs Hsum]].
  rewrite length_map, Hn. subst xs. rewrite nsum_shift. simpl.
  rewrite length_map in Hn. rewrite qsum_shift, Hn, <- Hsum.
  inversion H as [Hc]. 
  assert (Hnz : ~ (inject_Z (Z.of_nat (S n)) == 0)%Q).
  { intro Hz. unfold Qeq in Hz. simpl in Hz. lia. }
  change (Z.pos (Pos.of_succ_nat n)) with (Z.of_nat (S n)).
  field. exact Hnz.
Qed.

Lemma isclose_finite (rtol atol : Q) (a b : num) :
  isclose rtol atol a b = true -> exists q, b = Fin q.
Proof.
  destruct a, b; simpl; try discriminate. intros _. now eexists.
Qed.

Lemma allclose_finite (rtol : Q) (a m : vec) :
  allclose rtol a m = true ->
  exists x y z, m = (Fin x, Fin y, Fin z).
Proof.
  unfold allclose. intro H.
  apply andb_prop in H. destruct H as [H Hz].
  apply andb_prop in H. destruct H as [Hx Hy].
  destruct m as [[mx my] mz]. unfold vx, vy, vz in *. simpl in *.
  destruct (isclose_finite _ _ _ _ Hx) as [x ->].
  destruct (isclose_finite _ _ _ _ Hy) as [y ->].
  destruct (isclose_finite _ _ _ _ Hz) as [z ->].
  now exists x, y, z.
Qed.

Lemma map_vx_translate (a : ndarray) (m : vec) :
  map vx (translate a m) = map (fun x => nsub x (vx m)) (map vx a).
Proof. unfold translate. rewrite !map_map. reflexivity. Qed.

Lemma map_vy_translate (a : ndarray) (m : vec) :
  map vy (translate a m) = map (fun x => nsub x (vy m)) (map vy a).
Proof. unfold translate. rewrite !map_map. reflexivity. Qed.

Lemma map_vz_translate (a : ndarray) (m : vec) :
  map vz (translate a m) = map (fun x => nsub x (vz m)) (map vz a).
Proof. unfold translate. rewrite !map_map. reflexivity. Qed.

(** Translating the vertices by their finite face-referenced centroid moves
    that centroid to the origin. *)
Lemma centroid_translate (V : ndarray) (F : list (list Z)) (m : vec) (x y z : Q) :
  centroid V F = Some m ->
  m = (Fin x, Fin y, Fin z) ->
  exists c, centroid (translate V m) F = Some c /\ at_origin c.
Proof.
  unfold centroid. intros Hc Hm. rewrite take_rows_translate.
  destruct (take_rows V (flatten F)) as [rows |]; [| discriminate Hc].
  inversion Hc as [Hmean]. simpl option_map.
  eexists. split; [reflexivity |].
  rewrite Hmean. unfold mean_axis0 in Hmean. rewrite Hm in Hmean.
  inversion Hmean as [[Hx Hy Hz]].
  unfold at_origin, mean_axis0, vx at 1, vy at 1, vz at 1. cbn [fst snd].
  rewrite map_vx_translate, map_vy_translate, map_vz_translate.
  rewrite Hm. unfold vx at 2, vy at 2, vz at 2. cbn [fst snd].
  repeat split; apply nmean_centred; assumption.
Qed.

(** *** The arithmetic of the program and that of the specification *)

Lemma nsub_minus_is (a b : num) : minus_is a b (nsub a b).
Proof.
  destruct a as [x |], b as [y |]; simpl; try reflexivity.
  exists (x - y)%Q. split; reflexivity.
Qed.

Lemma vsub_moved_by (m v : vec) : moved_by m v (vsub v m).
Proof. repeat split; apply nsub_minus_is. Qed.

Lemma translate_translated_by (m : vec) (a : ndarray) :
  translated_by m a (translate a m).
Proof.
  induction a as [| v a IH]; constructor; [apply vsub_moved_by | exact IH].
Qed.

Lemma norm_index_row_at (a : ndarray) (i : Z) (k : nat) (v : vec) :
  norm_index (length a) i = Some k -> nth_error a k = Some v -> row_at a i v.
Proof.
  unfold norm_index. intros Hk Hv. exists k. split; [exact Hv |].
  destruct (Z.leb_spec 0 i), (Z.ltb_spec i (Z.of_nat (length a))),
    (Z.leb_spec (- Z.of_nat (length a)) i), (Z.ltb_spec i 0); cbn [andb] in Hk;
    inversion Hk; lia.
Qed.

Lemma take_rows_row_at (a : ndarray) (idx : list Z) (rows : ndarray) :
  take_rows a idx = Some rows -> Forall2 (row_at a) idx rows.
Proof.
  revert rows. induction idx as [| i idx IH]; simpl; intros rows H.
  - inversion H. constructor.
  - destruct (norm_index (length a) i) as [k |] eqn:Hk; [| discriminate H].
    destruct (nth_error a k) as [v |] eqn:Hv; [| discriminate H].
    destruct (take_rows a idx) as [vs |]; [| discriminate H].
    inversion H. constructor; [| now apply IH].
    exact (norm_index_row_at _ _ _ _ Hk Hv).
Qed.

Lemma nsum_nan (xs : list num) : nsum xs = NaN -> In NaN xs.
Proof.
  induction xs as [| x xs IH]; simpl; intro H; [discriminate H |].
  destruct x as [q |]; [| now left]. right. apply IH.
  change (fold_right nadd nzero xs) with (nsum xs) in H.
  destruct (nsum xs); [discriminate H | reflexivity].
Qed.

Lemma nmean_mean_is (xs : list num) : mean_is xs (nmean xs).
Proof.
  unfold nmean, ndiv_count.
  destruct (length xs) as [| n] eqn:Hn.
  - left. now apply length_zero_iff_nil.
  - destruct (nsum xs) as [s |] eqn:Hs.
    + destruct (nsum_fin xs s Hs) as [qs [Hxs Hsum]].
      exists qs. split; [exact Hxs |]. split.
      * intro Hq. subst qs xs. discriminate Hn.
      * subst xs. rewrite length_map in Hn. rewrite Hn, Hsum. reflexivity.
    + right. now apply nsum_nan.
Qed.

Lemma centroid_centroid_is (V : ndarray) (F : list (list Z)) (m : vec) :
  centroid V F = Some m -> centroid_is V F m.
Proof.
  unfold centroid. intro H.
  destruct (take_rows V (flatten F)) as [rows |] eqn:Ht; [| discriminate H].
  inversion H. exists rows. split; [exact (take_rows_row_at _ _ _ Ht) |].
  unfold mean_axis0. cbn [fst snd]. repeat split; apply nmean_mean_is.
Qed.

Lemma in_range_centroid (V : ndarray) (F : list (list Z)) :
  in_range (length V) F -> exists m, centroid V F = Some m.
Proof.
  intro Hin. unfold centroid.
  destruct (take_rows V (flatten F)) as [rows |] eqn:Ht; [now eexists |].
  apply take_rows_none in Ht. destruct Ht as [i [Hi Hout]].
  specialize (Hin i Hi). unfold out_of_range in Hout. lia.
Qed.

Lemma row_at_norm_index (a : ndarray) (i : Z) (v : vec) :
  row_at a i v ->
  exists k, norm_index (length a) i = Some k /\ nth_error a k = Some v.
Proof.
  intros [k [Hv Hk]]. exists k. split; [| exact Hv].
  assert (Hlt : (k < length a)%nat) by (apply nth_error_Some; congruence).
  unfold norm_index.
  destruct (Z.leb_spec 0 i), (Z.ltb_spec i (Z.of_nat (length a))),
    (Z.leb_spec (- Z.of_nat (length a)) i), (Z.ltb_spec i 0); cbn [andb];
    try (f_equal; lia); exfalso; lia.
Qed.

Lemma row_at_take_rows (a : ndarray) (idx : list Z) (rows : ndarray) :
  Forall2 (row_at a) idx rows -> take_rows a idx = Some rows.
Proof.
  induction 1 as [| i v idx rows Hrow _ IH]; simpl; [reflexivity |].
  destruct (row_at_norm_index _ _ _ Hrow) as [k [Hk Hv]].
  now rewrite Hk, Hv, IH.
Qed.

Lemma nsum_map_fin (qs : list Q) :
  nsum (map Fin qs) = Fin (fold_right Qplus 0%Q qs).
Proof.
  induction qs as [| q qs IH]; simpl; [reflexivity |].
  change (fold_right nadd nzero (map Fin qs)) with (nsum (map Fin qs)).
  now rewrite IH.
Qed.

Lemma mean_is_finite (xs : list num) (q : Q) :
  mean_is xs (Fin q) -> exists q', nmean xs = Fin q'.
Proof.
  intros [qs [Hxs [Hne _]]]. subst xs. unfold nmean, ndiv_count.
  rewrite length_map, nsum_map_fin.
  destruct qs as [| q0 qs]; [contradiction |]. simpl length. now eexists.
Qed.

(** A centroid that the specification calls finite is one that the program
    computes, and finds finite. *)
Lemma centroid_is_finite (V : ndarray) (F : list (list Z)) (m : vec) :
  centroid_is V F m -> finite m ->
  exists m', centroid V F = Some m' /\ finite m'.
Proof.
  intros [rows [Hrows [Hx [Hy Hz]]]] [x [y [z Hm]]]. subst m. cbn [fst snd] in *.
  unfold centroid, flatten. rewrite (row_at_take_rows _ _ _ Hrows).
  destruct (mean_is_finite _ _ Hx) as [x' Hx'].
  destruct (mean_is_finite _ _ Hy) as [y' Hy'].
  destruct (mean_is_finite _ _ Hz) as [z' Hz'].
  eexists. split; [reflexivity |]. exists x', y', z'.
  unfold mean_axis0. f_equal; [f_equal |]; assumption.
Qed.

Lemma isclose_close_to (a b : num) :
  isclose pivot_rtol default_atol a b = true <-> close_to a b.
Proof.
  destruct a as [x |], b as [y |]; simpl; try (split; [discriminate | tauto]).
  apply Qle_bool_iff.
Qed.

Lemma allclose_matches (a b : vec) :
  allclose pivot_rtol a b = true <-> matches a b.
Proof.
  unfold allclose, matches, vx, vy, vz.
  rewrite !andb_true_iff, !isclose_close_to. tauto.
Qed.

Lemma allclose_no_match (a b : vec) :
  allclose pivot_rtol a b = false <-> ~ matches a b.
Proof.
  rewrite <- allclose_matches. destruct (allclose pivot_rtol a b); split;
    congruence.
Qed.

(** Translating the vertices by their finite face-referenced centroid leaves
    them centred at the origin, in the words of the specification. *)
Lemma translate_centred_at_origin (V : ndarray) (F : list (list Z)) (m : vec) :
  centroid V F = Some m -> finite m -> centred_at_origin (translate V m) F.
Proof.
  intros Hc [x [y [z Hm]]].
  destruct (centroid_translate V F m x y z Hc Hm) as [c [Hc' [Hx [Hy Hz]]]].
  apply centroid_centroid_is in Hc'.
  destruct c as [[[cx |] [cy |]] [cz |]]; simpl in Hx, Hy, Hz; try contradiction.
  exists cx, cy, cz. repeat split; assumption.
Qed.

End Centroid.

(** ** The run, phase by phase *)

(** Writes the list of events of a world [after _ w] of the goal as [l']. *)
Ltac rename_events w l' :=
  match goal with
  | |- context [after ?l w] => progress change l with l'
  end.

Section Trace.

Variable E : Environment.
Variable L : PointcloudLib.
Variable os : flavour.

Lemma emits_nothing {A} (m : M E A) (w : World E) r w' :
  emits (fun _ => False) m -> m w = (r, w') -> log w' = log w.
Proof.
  intros Hm H. destruct (Hm _ _ _ H) as [l [El Fl]].
  destruct l as [| e l]; [now rewrite app_nil_r in El |].
  inversion Fl; contradiction.
Qed.

Lemma reconstruct_silent (points : nat) (nsides : Z) :
  emits (fun _ => False) (reconstruct E L points nsides).
Proof. unfold reconstruct. emits_chain. Qed.

Lemma prepare_early motive_filename body :
  emits (fun e => is_early e = true) (prepare E motive_filename body).
Proof.
  unfold prepare. emits_chain; try (apply reset_round_emits); reflexivity.
Qed.

Lemma acquire_early (screen : Z) :
  emits (fun e => is_early e = true) (acquire E screen).
Proof. unfold acquire, check_points. emits_chain; reflexivity. Qed.

(** The preparation, as far as the look-up of the rigid body. *)
Lemma prepare_to_bodies motive_filename body (w : World E) :
  prepare E motive_filename body w
  = match env_cams E (st (after (prepare_head motive_filename) w)) with
    | [] => (Raise IndexError, after (prepare_head motive_filename) w)
    | c :: _ =>
        let w7 := after (prepare_head motive_filename ++ prepare_mid) w in
        if existsb (String.eqb body) (env_bodies E (st w7))
        then
          bind (reset_round E body)
               (fun _ => bind (reset_round E body)
               (fun _ => bind (reset_round E body)
               (fun _ => bind (query (GetRotation body) (env_rotation E body))
               (fun rot => bind (assert (allclose_zero rot) OrientationNotReset)
               (fun _ => bind (query (GetLocation body) (env_location E body))
               (fun loc => bind (query (GetPointCloudMarkers body) (env_markers E body))
               (fun markers =>
                  bind (assert (allclose default_rtol loc (mean_axis0 markers))
                               PivotNotReset)
               (fun _ =>
                  ret (map cam_settings
                           (env_cams E
                              (st (after [MotiveInitialize;
                                          MotiveLoadProject motive_filename;
                                          MotiveGetCams] w))),
                       cam_frame_rate c)))))))))
               w7
        else (Raise (AssertionError BodyNotFound), w7)
    end.
Proof.
  unfold prepare.
  rewrite !bind_emit, !bind_query, !after_app.
  rename_events w (prepare_head motive_filename).
  destruct (env_cams E (st (after (prepare_head motive_filename) w))) as [| c cams];
    [reflexivity |].
  rewrite bind_ret, !bind_emit, bind_query, !after_app.
  rename_events w (prepare_head motive_filename ++ prepare_mid).
  cbv zeta.
  destruct (existsb (String.eqb body)
              (env_bodies E (st (after (prepare_head motive_filename ++ prepare_mid) w))));
    reflexivity.
Qed.

Lemma bind_assoc {A B C} (m : M E A) (f : A -> M E B) (k : B -> M E C) w :
  bind (bind m f) k w = bind m (fun a => bind (f a) k) w.
Proof. unfold bind. destruct (m w) as [[a | e] w1]; reflexivity. Qed.

Lemma bind_reset_round {B} body (k : unit -> M E B) w :
  bind (reset_round E body) k w
  = k tt (after [ResetOrientation body; ResetPivotOffset body; MotiveUpdate] w).
Proof.
  unfold reset_round.
  rewrite bind_assoc, bind_emit, bind_assoc, bind_emit, bind_emit, !after_app.
  reflexivity.
Qed.

(** The preparation after the look-up of the rigid body. *)
Lemma prepare_resets motive_filename body (w : World E) (c : Camera) cams :
  env_cams E (st (after (prepare_head motive_filename) w)) = c :: cams ->
  existsb (String.eqb body)
          (env_bodies E (st (after (prepare_head motive_filename ++ prepare_mid) w)))
  = true ->
  let l17 := prepare_head motive_filename ++ prepare_mid ++ reset_events body
               ++ [GetRotation body] in
  let l18 := l17 ++ [GetLocation body] in
  let w19 := after (prepare_events motive_filename body) w in
  prepare E motive_filename body w
  = if allclose_zero (env_rotation E body (st (after l17 w)))
    then
      if allclose default_rtol (env_location E body (st (after l18 w)))
                  (mean_axis0 (env_markers E body (st w19)))
      then (Ok (map cam_settings
                    (env_cams E
                       (st (after [MotiveInitialize;
                                   MotiveLoadProject motive_filename;
                                   MotiveGetCams] w))),
                cam_frame_rate c), w19)
      else (Raise (AssertionError PivotNotReset), w19)
    else (Raise (AssertionError OrientationNotReset), after l17 w).
Proof.
  intros Hcams Hbody l17 l18 w19.
  rewrite prepare_to_bodies, Hcams. cbv zeta. rewrite Hbody.
  rewrite !bind_reset_round, bind_query, !after_app.
  rename_events w l17.
  destruct (allclose_zero (env_rotation E body (st (after l17 w))));
    [| reflexivity].
  cbn [assert]. rewrite bind_ret, !bind_query, !after_app.
  rename_events w (prepare_events motive_filename body).
  fold w19.
  change (st (after (l17 ++ [GetLocation body]) w)) with (st (after l18 w)).
  destruct (allclose default_rtol (env_location E body (st (after l18 w)))
                     (mean_axis0 (env_markers E body (st w19))));
    reflexivity.
Qed.

Lemma prepare_ok_exact motive_filename body (w : World E) saved wp :
  prepare E motive_filename body w = (Ok saved, wp) ->
  wp = after (prepare_events motive_filename body) w
  /\ exists c cams,
      env_cams E (st (after (prepare_head motive_filename) w)) = c :: cams
      /\ saved = (map cam_settings
                      (env_cams E
                         (st (after [MotiveInitialize;
                                     MotiveLoadProject motive_filename;
                                     MotiveGetCams] w))),
                  cam_frame_rate c).
Proof.
  intro H.
  destruct (env_cams E (st (after (prepare_head motive_filename) w)))
    as [| c cams] eqn:Hcams.
  { rewrite prepare_to_bodies, Hcams in H. discriminate H. }
  destruct (existsb (String.eqb body)
              (env_bodies E (st (after (prepare_head motive_filename ++ prepare_mid) w))))
    eqn:Hbody.
  2: { rewrite prepare_to_bodies, Hcams in H. cbv zeta in H. rewrite Hbody in H.
       discriminate H. }
  rewrite (prepare_resets motive_filename body w c cams Hcams Hbody) in H.
  cbv zeta in H.
  destruct (allclose_zero _); [| discriminate H].
  destruct (allclose default_rtol _ _); [| discriminate H].
  inversion H. split; [reflexivity |]. now exists c, cams.
Qed.

(** The errors of the preparation. *)
Lemma prepare_raises motive_filename body (w : World E) e wp :
  prepare E motive_filename body w = (Raise e, wp) ->
  e = IndexError
  \/ e = AssertionError BodyNotFound
  \/ e = AssertionError OrientationNotReset
  \/ e = AssertionError PivotNotReset.
Proof.
  intro H.
  destruct (env_cams E (st (after (prepare_head motive_filename) w)))
    as [| c cams] eqn:Hcams.
  { rewrite prepare_to_bodies, Hcams in H. inversion H. auto. }
  destruct (existsb (String.eqb body)
              (env_bodies E (st (after (prepare_head motive_filename ++ prepare_mid) w))))
    eqn:Hbody.
  2: { rewrite prepare_to_bodies, Hcams in H. cbv zeta in H. rewrite Hbody in H.
       inversion H. auto. }
  rewrite (prepare_resets motive_filename body w c cams Hcams Hbody) in H.
  cbv zeta in H.
  destruct (allclose_zero _); [| inversion H; auto].
  destruct (allclose default_rtol _ _); [discriminate H | inversion H; auto].
Qed.

(** The errors of the acquisition. *)
Lemma acquire_raises (screen : Z) (w : World E) e w' :
  acquire E screen w = (Raise e, w') ->
  e = IndexError \/ exists n, (n <= 100)%nat /\ e = AssertionError (TooFewPoints n).
Proof.
  intro H.
  destruct (norm_index (env_screens E (st (after [GetScreens] w))) screen)
    as [k |] eqn:Hk.
  - destruct (acquire_run E screen w k Hk) as [Hfew Hmany].
    set (pts := env_marker_pos E (run_events E [GetScreens; RunGridScan k] (st w))) in *.
    destruct (Nat.le_gt_cases (length pts) 100) as [Hle | Hgt].
    + rewrite (Hfew Hle) in H. inversion H. right. now exists (length pts).
    + rewrite (Hmany Hgt) in H. discriminate H.
  - unfold acquire in H. rewrite bind_query, Hk in H. inversion H. now left.
Qed.

(** Where a run of [scan_arena] can stop. *)
Lemma scan_arena_trace motive_filename output_filename body nomeancenter
      nsides screen (w : World E) r w' :
  scan_arena E L os motive_filename output_filename body nomeancenter nsides screen w
  = (r, w') ->
  let out := output_path os output_filename in
  (snd (splitext os out) <> ".obj"%string
   /\ r = Raise (AssertionError NotWavefront) /\ w' = w)
  \/ (exists e, prepare E motive_filename body w = (Raise e, w') /\ r = Raise e)
  \/ (exists saved wp,
         prepare E motive_filename body w = (Ok saved, wp)
         /\ ((exists e, acquire E screen wp = (Raise e, w') /\ r = Raise e)
             \/ exists k pts,
                 (100 < length pts)%nat
                 /\ pts = env_marker_pos E
                            (run_events E [GetScreens; RunGridScan k] (st wp))
                 /\ ((exists e, r = Raise e
                                /\ log w' = log wp ++ acquire_events k pts)
                     \/ exists V N F,
                         reconstructs L pts nsides V N F
                         /\ tail_of_run E os motive_filename out body (heap w)
                              pts V N F
                              (after (acquire_events k pts
                                        ++ MotiveGetCams
                                        :: restore_events 0 (fst saved)
                                             (env_cams E
                                                (run_events E
                                                   (acquire_events k pts
                                                      ++ [MotiveGetCams]) (st wp)))
                                             (snd saved)
                                        ++ [MotiveUpdate]) wp)
                              nomeancenter
                            = (r, w')))).
Proof.
  intros H out. unfold tail_of_run. unfold scan_arena in H.
  destruct (check_output_cases E os output_filename w) as [[Hext Hc] | [Hext Hc]].
  2: { left. rewrite (bind_raise _ _ _ _ _ Hc) in H. inversion H; subst. auto. }
  right. rewrite (bind_step _ _ _ _ _ Hc) in H. fold out in H.
  cbv zeta in H. change (chars (encode motive_filename)) with motive_filename in H.
  destruct (prepare E motive_filename body w) as [[saved | e] wp] eqn:Hp.
  2: { left. rewrite (bind_raise _ _ _ _ _ Hp) in H. inversion H; subst.
       now exists e. }
  right. exists saved, wp. split; [reflexivity |].
  pose proof (prepare_keeps E motive_filename body _ _ _ Hp) as Hheap.
  rewrite (bind_step _ _ _ _ _ Hp) in H.
  destruct (acquire E screen wp) as [[p | e] wa] eqn:Ha.
  2: { left. rewrite (bind_raise _ _ _ _ _ Ha) in H. inversion H; subst.
       now exists e. }
  right. rewrite (bind_step _ _ _ _ _ Ha) in H.
  destruct (acquire_ok E _ _ _ _ Ha) as [k [pts [Hpts [Hlen [Hp0 Hwa]]]]].
  exists k, pts. split; [exact Hlen |]. split; [exact Hpts |].
  destruct (reconstruct E L p nsides wa) as [[[[v N] F] | e] wr] eqn:Hr.
  2: { left. rewrite (bind_raise _ _ _ _ _ Hr) in H. inversion H; subst r w'.
       exists e. split; [reflexivity |].
       rewrite (emits_nothing _ _ _ _ (reconstruct_silent p nsides) Hr), Hwa.
       reflexivity. }
  right. rewrite (bind_step _ _ _ _ _ Hr) in H. cbn [fst snd] in H.
  destruct (reconstruct_ok E L _ _ _ _ _ _ _ Hr)
    as [surfaces [V [polys [Hm [Hf [Ht [Hv Hwr]]]]]]].
  rewrite (bind_step _ _ _ _ _ (restore_cameras_eq E _ _ _)) in H.
  assert (Hget : heap_get (heap wa) p = pts).
  { rewrite Hwa, Hp0, heap_with_heap. apply heap_get_last. }
  rewrite Hget in Hm.
  exists V, N, F. split; [now exists surfaces, polys |].
  rewrite <- H. subst v p. rewrite Hwr, Hwa.
  rewrite !heap_with_heap, Hheap, length_app. cbn [length].
  rewrite Nat.add_1_r, !after_with_heap, with_heap_twice, !after_app.
  rewrite <- (app_assoc (heap w)). reflexivity.
Qed.

Lemma attempts_alignment body target k :
  Forall (fun e => is_alignment e = true) (attempts body target k).
Proof.
  induction k as [| k IH]; simpl; [constructor |].
  repeat (constructor; [reflexivity |]). exact IH.
Qed.

(** The two ends of line 175 and the following. *)
Lemma export_end_cases out body (P VV N : ndarray) (F : list (list Z))
      (wx : World E) r w' :
  export_end out body P VV N F wx = (r, w') ->
  (env_writable E out (st wx) = true
   /\ r = Raise TypeError /\ w' = after (export_events out body P VV N F) wx)
  \/ (env_writable E out (st wx) = false /\ r = Raise OSError /\ w' = wx).
Proof.
  unfold export_end.
  destruct (env_writable E out (st wx)); intro H; inversion H; auto.
Qed.

(** What the run does from the mean-centering on. *)
Lemma tail_log motive_filename out body (h : list ndarray) pts V N F
      (w0 : World E) nomeancenter r w' :
  tail_of_run E os motive_filename out body h pts V N F w0 nomeancenter = (r, w') ->
  exists mid,
    Forall (fun e => is_alignment e = true) mid
    /\ ((exists pts' V',
            r = Raise TypeError
            /\ log w' = log w0 ++ mid ++ export_events out body pts' V' N F)
        \/ (log w' = log w0 ++ mid
            /\ (r = Raise IndexError \/ r = Raise ValueError
                \/ r = Raise OSError))).
Proof.
  intro H. destruct nomeancenter.
  - rewrite tail_without_centering in H.
    exists []. split; [constructor |].
    destruct (export_end_cases _ _ _ _ _ _ _ _ _ H) as [[_ [Hr Hw]] | [_ [Hr Hw]]];
      subst r w'.
    + left. exists pts, V. auto.
    + right. cbn [log with_heap]. rewrite app_nil_r. auto.
  - destruct (centroid V F) as [m |] eqn:Hc.
    2: { rewrite tail_index_error in H by exact Hc. inversion H; subst.
         exists []. split; [constructor |]. right.
         cbn [log with_heap]. rewrite app_nil_r. auto. }
    destruct (tail_with_centering E os motive_filename out body h pts V N F w0 m Hc)
      as [[k [_ [_ [_ Hrun]]]] | [_ Hrun]];
      rewrite Hrun in H.
    + exists ([GetLocation body] ++ attempts body m k ++ [GetLocation body]).
      split.
      { constructor; [reflexivity |]. apply Forall_app.
        split; [apply attempts_alignment | repeat constructor]. }
      destruct (export_end_cases _ _ _ _ _ _ _ _ _ H) as [[_ [Hr Hw]] | [_ [Hr Hw]]];
        subst r w'.
      * left. exists (translate pts m), (translate V m). split; [reflexivity |].
        cbn [log after with_heap]. now rewrite <- !app_assoc.
      * right. split; [| auto].
        cbn [log after with_heap]. now rewrite <- !app_assoc.
    + inversion H; subst.
      exists ([GetLocation body] ++ attempts body m 300). split.
      { constructor; [reflexivity |]. apply attempts_alignment. }
      right. split; [| auto].
      cbn [log after with_heap]. now rewrite <- !app_assoc.
Qed.

Lemma early_all (P : Event -> Prop) (l : list Event) :
  (forall e, is_early e = true -> P e) ->
  Forall (fun e => is_early e = true) l -> Forall P l.
Proof. intro H. apply Forall_impl. exact H. Qed.

Lemma prepare_events_early motive_filename body :
  Forall (fun e => is_early e = true) (prepare_events motive_filename body).
Proof. repeat constructor. Qed.

Lemma acquire_events_early k pts :
  Forall (fun e => is_early e = true) (acquire_events k pts).
Proof. repeat constructor. Qed.

Lemma restore_events_setters (i : nat) settings cams rate :
  Forall (fun e => is_camera_setter e = true) (restore_events i settings cams rate).
Proof.
  revert i cams. induction settings as [| s settings IH]; intros i cams; simpl.
  - constructor.
  - destruct cams as [| c cams]; [constructor |].
    repeat (constructor; [reflexivity |]).
    apply Forall_app. split; [| apply IH].
    destruct (contains "Prime 13" (cam_name c)); repeat constructor.
Qed.

(** The log of a run, whatever its end. *)
Lemma scan_arena_log motive_filename output_filename body nomeancenter
      nsides screen (w : World E) r w' :
  scan_arena E L os motive_filename output_filename body nomeancenter nsides screen w
  = (r, w') ->
  exists l,
    log w' = log w ++ l
    /\ ((r = Raise (AssertionError NotWavefront) /\ l = [])
        \/ (exists e, r = Raise e
                      /\ (e = IndexError \/ e = AssertionError BodyNotFound
                          \/ e = AssertionError OrientationNotReset
                          \/ e = AssertionError PivotNotReset)
                      /\ Forall (fun ev => is_early ev = true) l)
        \/ (exists e l2, r = Raise e
                         /\ l = prepare_events motive_filename body ++ l2
                         /\ Forall (fun ev => is_early ev = true) l2)
        \/ (exists c cams0 k pts V N F mid,
               env_cams E (run_events E (prepare_head motive_filename) (st w))
               = c :: cams0
               /\ reconstructs L pts nsides V N F
               /\ Forall (fun ev => is_alignment ev = true) mid
               /\ let settings :=
                    map cam_settings
                        (env_cams E
                           (run_events E [MotiveInitialize;
                                          MotiveLoadProject motive_filename;
                                          MotiveGetCams] (st w))) in
                  let cams_now :=
                    env_cams E
                      (run_events E
                         (prepare_events motive_filename body
                            ++ acquire_events k pts ++ [MotiveGetCams]) (st w)) in
                  let pre :=
                    prepare_events motive_filename body ++ acquire_events k pts
                      ++ MotiveGetCams
                      :: restore_events 0 settings cams_now (cam_frame_rate c)
                      ++ [MotiveUpdate] in
                  (exists pts' V',
                      r = Raise TypeError
                      /\ l = pre ++ mid
                               ++ export_events (output_path os output_filename)
                                    body pts' V' N F)
                  \/ ((r = Raise IndexError \/ r = Raise ValueError
                       \/ r = Raise OSError)
                      /\ l = pre ++ mid))).
Proof.
  intro H. apply scan_arena_trace in H. cbv zeta in H.
  destruct H as [[_ [Hr Hw]] | [[e [Hp Hr]] | [saved [wp [Hp Hrest]]]]].
  { exists []. subst. rewrite app_nil_r. auto. }
  { destruct (prepare_early motive_filename body _ _ _ Hp) as [l [El Fl]].
    exists l. split; [exact El |]. right. left. exists e.
    split; [exact Hr |]. split; [exact (prepare_raises _ _ _ _ _ Hp) | exact Fl]. }
  destruct (prepare_ok_exact _ _ _ _ _ Hp) as [Hwp [c [cams0 [Hcams Hsaved]]]].
  destruct Hrest as [[e [Ha Hr]] | [k [pts [Hlen [Hpts Hrest]]]]].
  { destruct (acquire_early screen _ _ _ Ha) as [l2 [El2 Fl2]].
    exists (prepare_events motive_filename body ++ l2). split.
    - rewrite El2, Hwp, log_after. now rewrite app_assoc.
    - right. right. left. now exists e, l2. }
  destruct Hrest as [[e [Hr Hlog]] | [V [N [F [Hrec Htail]]]]].
  { exists (prepare_events motive_filename body ++ acquire_events k pts). split.
    - rewrite Hlog, Hwp, log_after. now rewrite app_assoc.
    - right. right. left. exists e, (acquire_events k pts).
      split; [exact Hr |]. split; [reflexivity | apply acquire_events_early]. }
  apply tail_log in Htail. destruct Htail as [mid [Fmid Hend]].
  set (pre2 := acquire_events k pts
                 ++ MotiveGetCams
                 :: restore_events 0 (fst saved)
                      (env_cams E
                         (run_events E (acquire_events k pts ++ [MotiveGetCams])
                                     (st wp)))
                      (snd saved)
                 ++ [MotiveUpdate]) in *.
  assert (Hpre : prepare_events motive_filename body ++ pre2
                 = prepare_events motive_filename body ++ acquire_events k pts
                     ++ MotiveGetCams
                     :: restore_events 0
                          (map cam_settings
                               (env_cams E
                                  (run_events E [MotiveInitialize;
                                                 MotiveLoadProject motive_filename;
                                                 MotiveGetCams] (st w))))
                          (env_cams E
                             (run_events E
                                (prepare_events motive_filename body
                                   ++ acquire_events k pts ++ [MotiveGetCams])
                                (st w)))
                          (cam_frame_rate c)
                     ++ [MotiveUpdate]).
  { unfold pre2. rewrite Hsaved, Hwp. cbn [fst snd].
    rewrite !st_after, <- run_events_app. reflexivity. }
  match type of Hpre with _ = ?R => set (PRE := R) in * end.
  destruct Hend as [[pts' [V' [Hr Hlog]]] | [Hlog Hr]].
  - exists (PRE ++ mid
              ++ export_events (output_path os output_filename) body pts' V' N F).
    split.
    + rewrite Hlog, log_after, Hwp, log_after.
      rewrite <- (app_assoc (log w)), Hpre, <- app_assoc. reflexivity.
    + right. right. right. exists c, cams0, k, pts, V, N, F, mid.
      split; [exact Hcams |]. split; [exact Hrec |]. split; [exact Fmid |].
      cbv zeta. left. exists pts', V'. split; [exact Hr | reflexivity].
  - exists (PRE ++ mid). split.
    + rewrite Hlog, log_after, Hwp, log_after.
      rewrite <- (app_assoc (log w)), Hpre, <- app_assoc. reflexivity.
    + right. right. right. exists c, cams0, k, pts, V, N, F, mid.
      split; [exact Hcams |]. split; [exact Hrec |]. split; [exact Fmid |].
      cbv zeta. right. split; [exact Hr | reflexivity].
Qed.

End Trace.

(** *** Kinds of events *)

Lemma early_not_output (e : Event) : is_early e = true -> is_output e = false.
Proof. destruct e; simpl; congruence. Qed.

Lemma early_not_setter (e : Event) : is_early e = true -> is_camera_setter e = false.
Proof. destruct e; simpl; congruence. Qed.

Lemma alignment_not_output (e : Event) : is_alignment e = true -> is_output e = false.
Proof. destruct e; simpl; congruence. Qed.

Lemma alignment_not_setter (e : Event) :
  is_alignment e = true -> is_camera_setter e = false.
Proof. destruct e; simpl; congruence. Qed.

Lemma setter_not_output (e : Event) : is_camera_setter e = true -> is_output e = false.
Proof. destruct e; simpl; congruence. Qed.

Lemma Forall_In_absurd (P : Event -> Prop) (l : list Event) (e : Event) :
  Forall P l -> In e l -> ~ P e -> False.
Proof. intros Hall Hin Hn. rewrite Forall_forall in Hall. exact (Hn (Hall e Hin)). Qed.

Lemma restore_events_frame_rate (j : nat) settings cams rate i r :
  In (SetCamFrameRate i r) (restore_events j settings cams rate) -> r = rate.
Proof.
  revert j cams. induction settings as [| s settings IH]; intros j cams H;
    [destruct H |].
  destruct cams as [| c cams]; [destruct H |]. cbn [restore_events] in H.
  apply in_app_or in H. destruct H as [H | H].
  { simpl in H. destruct H as [H | [H | [H | []]]]; try discriminate H.
    now inversion H. }
  apply in_app_or in H. destruct H as [H | H]; [| exact (IH _ _ H)].
  destruct (contains "Prime 13" (cam_name c)); simpl in H;
    [destruct H as [H | []]; discriminate H | destruct H].
Qed.

Lemma restore_events_gain (j : nat) settings cams rate i g :
  In (SetCamImageGain i g) (restore_events j settings cams rate) -> g = 1.
Proof.
  revert j cams. induction settings as [| s settings IH]; intros j cams H;
    [destruct H |].
  destruct cams as [| c cams]; [destruct H |]. cbn [restore_events] in H.
  apply in_app_or in H. destruct H as [H | H].
  { simpl in H. destruct H as [H | [H | [H | []]]]; try discriminate H.
    now inversion H. }
  apply in_app_or in H. destruct H as [H | H]; [| exact (IH _ _ H)].
  destruct (contains "Prime 13" (cam_name c)); simpl in H;
    [destruct H as [H | []]; discriminate H | destruct H].
Qed.

Lemma restore_events_settings (j : nat) settings cams rate i s :
  In (SetCamSettings i s) (restore_events j settings cams rate) ->
  (j <= i)%nat /\ nth_error settings (i - j) = Some s.
Proof.
  revert j cams. induction settings as [| s0 settings IH]; intros j cams H;
    [destruct H |].
  destruct cams as [| c cams]; [destruct H |]. cbn [restore_events] in H.
  apply in_app_or in H. destruct H as [H | H].
  { simpl in H. destruct H as [H | [H | [H | []]]]; try discriminate H.
    inversion H; subst. rewrite Nat.sub_diag. split; [lia | reflexivity]. }
  apply in_app_or in H. destruct H as [H | H].
  { destruct (contains "Prime 13" (cam_name c)); simpl in H;
      [destruct H as [H | []]; discriminate H | destruct H]. }
  destruct (IH _ _ H) as [Hle Hnth]. split; [lia |].
  replace (i - j)%nat with (S (i - S j)) by lia. exact Hnth.
Qed.

(** ** Runs of [scan_arena] *)

Section Runs.

Variable E : Environment.
Variable L : PointcloudLib.
Variable os : flavour.

Lemma pivot_false_set_false (e : Event) :
  is_pivot_command e = false -> is_set_location e = false.
Proof. destruct e; simpl; congruence. Qed.

Lemma export_events_no_pivot out body pts V N F :
  Forall (fun e => is_pivot_command e = false) (export_events out body pts V N F).
Proof. unfold export_events. repeat constructor. Qed.

Lemma harmless_no_write (l : list Event) :
  Forall harmless l -> Forall (fun e => is_write e = false) l.
Proof. apply Forall_impl. now intros e [_ H]. Qed.

Lemma harmless_no_set (l : list Event) :
  Forall harmless l -> Forall (fun e => is_set_location e = false) l.
Proof. apply Forall_impl. now intros e [H _]. Qed.

Lemma quiet_all_harmless (l : list Event) : Forall quiet l -> Forall harmless l.
Proof. apply Forall_impl. apply quiet_harmless. Qed.

Lemma quiet_no_pivot (l : list Event) :
  Forall quiet l -> Forall (fun e => is_pivot_command e = false) l.
Proof. apply Forall_impl. now intros e [H _]. Qed.

Lemma early_no_write (l : list Event) :
  Forall (fun e => is_early e = true) l -> Forall (fun e => is_write e = false) l.
Proof. apply Forall_impl. intros e H. destruct e; simpl in *; congruence. Qed.

Lemma no_write_not_opened (l : list Event) fn :
  Forall (fun e => is_write e = false) l -> ~ In (OpenForWriting fn) l.
Proof.
  intros Hall Hin. rewrite Forall_forall in Hall.
  specialize (Hall _ Hin). discriminate Hall.
Qed.

Lemma no_write_not_dumped (l : list Event) fn name V N F :
  Forall (fun e => is_write e = false) l -> ~ In (DumpWavefront fn name V N F) l.
Proof.
  intros Hall Hin. rewrite Forall_forall in Hall.
  specialize (Hall _ Hin). discriminate Hall.
Qed.

Lemma no_set_not_set (l : list Event) body m :
  Forall (fun e => is_set_location e = false) l -> ~ In (SetLocation body m) l.
Proof.
  intros Hall Hin. rewrite Forall_forall in Hall.
  specialize (Hall _ Hin). discriminate Hall.
Qed.

Lemma attempts_set_location body target (k : nat) b m :
  In (SetLocation b m) (attempts body target k) -> m = target.
Proof.
  induction k as [| k IH]; simpl; [intros [] |].
  intros [H | [H | [H | H]]]; try discriminate H; [now inversion H | exact (IH H)].
Qed.

Lemma attempts_commanded body target (k : nat) :
  (1 <= k)%nat -> In (SetLocation body target) (attempts body target k).
Proof. destruct k as [| k]; [lia |]. intros _. simpl. auto. Qed.

(** *** The heap *)

Lemma length_heap_set (h : list ndarray) (a : nat) (x : ndarray) :
  length (heap_set h a x) = length h.
Proof.
  revert a. induction h as [| y h IH]; intros [| a]; simpl; auto.
Qed.

Lemma heap_get_set_other (h : list ndarray) (a b : nat) (x : ndarray) :
  a <> b -> heap_get (heap_set h a x) b = heap_get h b.
Proof.
  unfold heap_get. revert a b.
  induction h as [| y h IH]; intros [| a] [| b] Hab; simpl; auto; try lia.
Qed.

(** An in-place subtraction at an address that holds nothing changes
    nothing, and what is read there is the empty array, before and after. *)
Lemma heap_get_set_translate (h : list ndarray) (a : nat) (m : vec) :
  heap_get (heap_set h a (translate (heap_get h a) m)) a
  = translate (heap_get h a) m.
Proof.
  unfold heap_get. revert a.
  induction h as [| y h IH]; intros [| a]; simpl; auto.
Qed.

(** *** The acquisition and the reconstruction *)

Lemma acquire_ok_screen (screen : Z) (w : World E) (p : nat) (w1 : World E) :
  acquire E screen w = (Ok p, w1) ->
  exists k pts,
    norm_index (env_screens E (st (after [GetScreens] w))) screen = Some k
    /\ pts = env_marker_pos E (run_events E [GetScreens; RunGridScan k] (st w))
    /\ (100 < length pts)%nat
    /\ p = length (heap w)
    /\ w1 = with_heap (heap w ++ [pts]) (after (acquire_events k pts) w).
Proof.
  intro H.
  destruct (norm_index (env_screens E (st (after [GetScreens] w))) screen)
    as [k |] eqn:Hk.
  - destruct (acquire_run E screen w k Hk) as [Hfew Hmany].
    set (pts := env_marker_pos E (run_events E [GetScreens; RunGridScan k] (st w))) in *.
    destruct (Nat.le_gt_cases (length pts) 100) as [Hle | Hgt].
    + rewrite (Hfew Hle) in H. discriminate H.
    + rewrite (Hmany Hgt) in H. inversion H; subst.
      exists k, pts. repeat split; auto.
  - unfold acquire in H. rewrite bind_query, Hk in H. discriminate H.
Qed.

Lemma acquire_grows (screen : Z) (w : World E) r w' :
  acquire E screen w = (r, w') ->
  exists t, heap w' = heap w ++ t /\ (length t <= 1)%nat.
Proof.
  intro H.
  destruct (norm_index (env_screens E (st (after [GetScreens] w))) screen)
    as [k |] eqn:Hk.
  - destruct (acquire_run E screen w k Hk) as [Hfew Hmany].
    set (pts := env_marker_pos E (run_events E [GetScreens; RunGridScan k] (st w))) in *.
    exists [pts]. split; [| simpl; lia].
    destruct (Nat.le_gt_cases (length pts) 100) as [Hle | Hgt].
    + rewrite (Hfew Hle) in H. now inversion H.
    + rewrite (Hmany Hgt) in H. now inversion H.
  - unfold acquire in H. rewrite bind_query, Hk in H. inversion H.
    exists []. rewrite app_nil_r. split; [reflexivity | simpl; lia].
Qed.

Lemma reconstruct_grows (p : nat) (nsides : Z) (w : World E) r w' :
  reconstruct E L p nsides w = (r, w') ->
  exists t, heap w' = heap w ++ t /\ (length t <= 1)%nat.
Proof.
  unfold reconstruct. rewrite bind_load.
  destruct (meshify_arena L (heap_get (heap w) p) nsides) as [[surfaces N] | e].
  2: { intro H. inversion H. exists []. rewrite app_nil_r.
       split; [reflexivity | simpl; lia]. }
  simpl lift. rewrite bind_ret. simpl fst.
  destruct (face_index L surfaces) as [[V polys] | e].
  2: { intro H. inversion H. exists []. rewrite app_nil_r.
       split; [reflexivity | simpl; lia]. }
  simpl lift. rewrite bind_ret, bind_alloc. simpl fst; simpl snd.
  destruct (fan_triangulate L polys) as [F | e]; simpl lift; intro H;
    inversion H; exists [V]; (split; [reflexivity | simpl; lia]).
Qed.

Lemma reconstruct_run (p : nat) (nsides : Z) (w : World E) V N F :
  reconstructs L (heap_get (heap w) p) nsides V N F ->
  reconstruct E L p nsides w
  = (Ok (length (heap w), N, F), with_heap (heap w ++ [V]) w).
Proof.
  intros [surfaces [polys [Hm [Hf Ht]]]]. unfold reconstruct.
  rewrite bind_load, Hm. simpl lift. rewrite bind_ret. simpl fst.
  rewrite Hf. simpl lift. rewrite bind_ret, bind_alloc. simpl fst; simpl snd.
  rewrite Ht. reflexivity.
Qed.

(** *** The way to line 150 *)

Lemma prepare_events_harmless motive_filename body :
  Forall harmless (prepare_events motive_filename body).
Proof. repeat (constructor; [split; reflexivity |]). constructor. Qed.

Lemma entry_events_harmless motive_filename body saved k pts (w : World E) :
  Forall harmless (entry_events motive_filename body saved k pts w).
Proof.
  unfold entry_events. cbv zeta.
  apply Forall_app. split.
  - apply Forall_app. split; [apply prepare_events_harmless |].
    repeat (constructor; [split; reflexivity |]). constructor.
  - apply quiet_all_harmless.
    constructor; [split; reflexivity |].
    apply Forall_app. split; [apply restore_events_quiet |].
    repeat constructor.
Qed.

(** A run that gets to line 150 is, from there on, what [tail_of_run] says. *)
Lemma scan_arena_reaches motive_filename output_filename body nomeancenter
      nsides screen (w : World E) saved k pts V N F :
  reaches_centering L os motive_filename output_filename body nsides screen
                    w saved k pts V N F ->
  scan_arena E L os motive_filename output_filename body nomeancenter nsides screen w
  = tail_of_run E os motive_filename (output_path os output_filename) body
                (heap w) pts V N F
                (after (entry_events motive_filename body saved k pts w) w)
                nomeancenter.
Proof.
  intros [Hext [Hp [Hk [Hpts [Hlen Hrec]]]]].
  unfold scan_arena.
  destruct (check_output_cases E os output_filename w) as [[_ Hc] | [Hne _]];
    [| contradiction].
  rewrite (bind_step _ _ _ _ _ Hc). cbv zeta.
  change (chars (encode motive_filename)) with motive_filename.
  rewrite (bind_step _ _ _ _ _ Hp).
  set (pe := prepare_events motive_filename body) in *.
  assert (Hk' : norm_index (env_screens E (st (after [GetScreens] (after pe w))))
                           screen = Some k).
  { rewrite after_app, st_after. exact Hk. }
  destruct (acquire_run E screen (after pe w) k Hk') as [_ Hmany].
  assert (Hpts' : env_marker_pos E (run_events E [GetScreens; RunGridScan k]
                                               (st (after pe w))) = pts).
  { rewrite st_after, <- run_events_app. now rewrite Hpts. }
  rewrite Hpts' in Hmany. specialize (Hmany Hlen).
  rewrite (bind_step _ _ _ _ _ Hmany).
  match type of Hmany with _ = (_, ?W) => set (wa := W) in * end.
  assert (Hr : reconstruct E L (length (heap (after pe w))) nsides wa
               = (Ok (length (heap wa), N, F), with_heap (heap wa ++ [V]) wa)).
  { apply reconstruct_run. unfold wa. rewrite heap_with_heap, heap_get_last.
    exact Hrec. }
  rewrite (bind_step _ _ _ _ _ Hr). cbn [fst snd].
  rewrite (bind_step _ _ _ _ _ (restore_cameras_eq E _ _ _)).
  unfold tail_of_run, entry_events. cbv zeta. fold pe.
  unfold wa. rewrite !heap_with_heap, !heap_after, length_app. cbn [length].
  rewrite Nat.add_1_r, !after_with_heap, with_heap_twice.
  rewrite <- (app_assoc (heap w)). cbn [app].
  change (st (with_heap (heap w ++ [pts; V])
                (with_heap (heap w ++ [pts])
                   (after [MotiveGetCams]
                      (after [GetScreens; RunGridScan k; ShowScatter [pts]]
                             (after pe w))))))
    with (st (after [MotiveGetCams] (after (acquire_events k pts) (after pe w)))).
  change [GetScreens; RunGridScan k; ShowScatter [pts]] with (acquire_events k pts).
  rewrite !after_app. reflexivity.
Qed.

(** A run stops before line 150, having asked the collaborators for nothing
    but the preparation and the scan, or it gets there. *)
Lemma scan_arena_course motive_filename output_filename body nomeancenter
      nsides screen (w : World E) r w' :
  scan_arena E L os motive_filename output_filename body nomeancenter nsides screen w
  = (r, w') ->
  (exists e l t,
      r = Raise e /\ log w' = log w ++ l
      /\ Forall (fun ev => is_early ev = true) l
      /\ heap w' = heap w ++ t /\ (length t <= 2)%nat)
  \/ exists saved k pts V N F,
      reaches_centering L os motive_filename output_filename body nsides screen
                        w saved k pts V N F.
Proof.
  intro H. unfold scan_arena in H.
  destruct (check_output_cases E os output_filename w) as [[Hext Hc] | [Hext Hc]].
  2: { left. rewrite (bind_raise _ _ _ _ _ Hc) in H. inversion H; subst.
       exists (AssertionError NotWavefront), [], []. rewrite !app_nil_r.
       repeat split; auto; simpl; lia. }
  rewrite (bind_step _ _ _ _ _ Hc) in H. cbv zeta in H.
  change (chars (encode motive_filename)) with motive_filename in H.
  destruct (prepare E motive_filename body w) as [[saved | e] wp] eqn:Hp.
  2: { left. rewrite (bind_raise _ _ _ _ _ Hp) in H. inversion H; subst.
       destruct (prepare_early E motive_filename body _ _ _ Hp) as [l [El Fl]].
       exists e, l, []. rewrite app_nil_r.
       split; [reflexivity |]. split; [exact El |]. split; [exact Fl |].
       split; [exact (prepare_keeps E motive_filename body _ _ _ Hp) | simpl; lia]. }
  rewrite (bind_step _ _ _ _ _ Hp) in H.
  destruct (prepare_ok_exact E _ _ _ _ _ Hp) as [Hwp _].
  pose proof (prepare_keeps E motive_filename body _ _ _ Hp) as Hheap.
  destruct (acquire E screen wp) as [[p | e] wa] eqn:Ha.
  2: { left. rewrite (bind_raise _ _ _ _ _ Ha) in H. inversion H; subst r w'.
       destruct (acquire_early E screen _ _ _ Ha) as [l2 [El2 Fl2]].
       destruct (acquire_grows _ _ _ _ Ha) as [t [Ht Hlen]].
       exists e, (prepare_events motive_filename body ++ l2), t.
       split; [reflexivity |]. split.
       { rewrite El2, Hwp, log_after. now rewrite app_assoc. }
       split.
       { apply Forall_app. split; [apply prepare_events_early | exact Fl2]. }
       split; [now rewrite Ht, Hheap | lia]. }
  rewrite (bind_step _ _ _ _ _ Ha) in H.
  destruct (acquire_ok_screen _ _ _ _ Ha) as [k [pts [Hk [Hpts [Hlen [Hp0 Hwa]]]]]].
  destruct (reconstruct E L p nsides wa) as [[[[v N] F] | e] wr] eqn:Hr.
  2: { left. rewrite (bind_raise _ _ _ _ _ Hr) in H. inversion H; subst r w'.
       destruct (reconstruct_grows _ _ _ _ _ Hr) as [t [Ht Hlent]].
       exists e, (prepare_events motive_filename body ++ acquire_events k pts),
         ([pts] ++ t).
       split; [reflexivity |]. split.
       { rewrite (emits_nothing E _ _ _ _ (reconstruct_silent E L p nsides) Hr).
         rewrite Hwa, Hwp. cbn [log with_heap]. rewrite !log_after.
         now rewrite app_assoc. }
       split.
       { apply Forall_app. split;
           [apply prepare_events_early | apply acquire_events_early]. }
       split.
       { rewrite Ht, Hwa, heap_with_heap, Hheap. now rewrite <- app_assoc. }
       rewrite length_app. simpl. lia. }
  right.
  destruct (reconstruct_ok E L _ _ _ _ _ _ _ Hr)
    as [surfaces [V [polys [Hm [Hf [Ht _]]]]]].
  assert (Hget : heap_get (heap wa) p = pts).
  { rewrite Hwa, Hp0, heap_with_heap. apply heap_get_last. }
  rewrite Hget in Hm.
  exists saved, k, pts, V, N, F.
  split; [exact Hext |]. split; [now rewrite <- Hwp |].
  split; [rewrite run_events_app, <- st_after, <- Hwp; exact Hk |].
  split; [rewrite run_events_app, <- st_after, <- Hwp; exact Hpts |].
  split; [exact Hlen |]. now exists surfaces, polys.
Qed.

(** Whatever its end, the preparation begins with the initialisation of
    the driver. *)
Lemma prepare_starts motive_filename body (w : World E) rp wp :
  prepare E motive_filename body w = (rp, wp) ->
  exists l', log wp = log w ++ MotiveInitialize :: l'.
Proof.
  unfold prepare. rewrite bind_emit. intro H.
  match type of H with
  | ?m ?w0 = _ => assert (Hem : emits (fun _ => True) m)
  end.
  { emits_chain; try (apply reset_round_emits); exact I. }
  destruct (Hem _ _ _ H) as [l [El _]]. exists l.
  rewrite El, log_after. now rewrite <- app_assoc.
Qed.

(** A run whose output name is accepted initialises the driver. *)
Lemma scan_arena_starts motive_filename output_filename body nomeancenter
      nsides screen (w : World E) r w' l :
  scan_arena E L os motive_filename output_filename body nomeancenter nsides screen w
  = (r, w') ->
  snd (splitext os (output_path os output_filename)) = ".obj"%string ->
  log w' = log w ++ l ->
  exists l', l = MotiveInitialize :: l'.
Proof.
  intros H Hext Hlog. apply scan_arena_cases in H. cbv zeta in H.
  destruct H as [[Hne _] | [_ [rp [wp [lp [Hp [Elp [_ [_ Hrest]]]]]]]]];
    [contradiction |].
  destruct (prepare_starts _ _ _ _ _ Hp) as [l0 El0].
  assert (Hgrow : exists l1, log w' = log wp ++ l1).
  { destruct Hrest as [[e [lq [_ [Elq _]]]] | Hreach]; [now exists lq |].
    destruct Hreach
      as [pts [surfaces [N [V [polys [F [lq [_ [_ [_ [_ [_ [_ Htail]]]]]]]]]]]]].
    destruct (tail_log E os _ _ _ _ _ _ _ _ _ _ _ _ Htail) as [mid [_ Hend]].
    destruct Hend as [[pts' [V' [_ El]]] | [El _]]; rewrite El, log_after;
      rewrite <- app_assoc; eexists; reflexivity. }
  destruct Hgrow as [l1 El1].
  rewrite El1, El0, <- app_assoc in Hlog. apply app_inv_head in Hlog.
  exists (l0 ++ l1). now rewrite <- Hlog.
Qed.

(** *** From line 150 on *)

(** With the mean-centering on and a centroid, the run goes through the two
    subtractions, the read of the old location and [k] attempts; then it
    stops, or it reads the location again, and then it may write. *)
Lemma tail_centred motive_filename out body (h : list ndarray) pts V N F
      (w0 : World E) (m : vec) r w' :
  centroid V F = Some m ->
  tail_of_run E os motive_filename out body h pts V N F w0 false = (r, w') ->
  exists k suffix,
    (1 <= k <= 300)%nat
    /\ log w' = log w0 ++ [GetLocation body] ++ attempts body m k ++ suffix
    /\ heap w' = h ++ [translate pts m; translate V m]
    /\ (suffix = []
        \/ (finite m
            /\ (suffix = [GetLocation body]
                \/ suffix = [GetLocation body]
                              ++ export_events out body (translate pts m)
                                   (translate V m) N F))).
Proof.
  intros Hc H.
  destruct (tail_with_centering E os motive_filename out body h pts V N F w0 m Hc)
    as [[k [Hk [_ [Hat Hrun]]]] | [_ Hrun]]; rewrite Hrun in H.
  - pose proof (allclose_finite _ _ _ Hat) as Hfin.
    destruct (export_end_cases E _ _ _ _ _ _ _ _ _ H) as [[_ [_ Hw]] | [_ [_ Hw]]];
      subst w'.
    + exists k. eexists. split; [exact Hk |]. split.
      { cbn [log after with_heap]. rewrite <- !app_assoc. reflexivity. }
      split; [reflexivity |]. right. split; [exact Hfin | now right].
    + exists k, [GetLocation body]. split; [exact Hk |]. split.
      { cbn [log after with_heap]. rewrite <- !app_assoc. reflexivity. }
      split; [reflexivity |]. right. split; [exact Hfin | now left].
  - inversion H; subst. exists 300%nat, []. split; [lia |]. split.
    { cbn [log after with_heap]. rewrite app_nil_r, <- !app_assoc. reflexivity. }
    split; [reflexivity | now left].
Qed.

(** The two arrays at the end of a run that got to line 150. *)
Lemma tail_heap motive_filename out body (h : list ndarray) pts V N F
      (w0 : World E) nomeancenter r w' :
  tail_of_run E os motive_filename out body h pts V N F w0 nomeancenter = (r, w') ->
  (nomeancenter = true -> heap w' = h ++ [pts; V])
  /\ (nomeancenter = false ->
      match centroid V F with
      | Some m => heap w' = h ++ [translate pts m; translate V m]
      | None => heap w' = h ++ [pts; V]
      end).
Proof.
  intro H. destruct nomeancenter; (split; [| intro; try discriminate]);
    try (intro; discriminate).
  - intros _. rewrite tail_without_centering in H.
    destruct (export_end_cases E _ _ _ _ _ _ _ _ _ H) as [[_ [_ Hw]] | [_ [_ Hw]]];
      now subst w'.
  - destruct (centroid V F) as [m |] eqn:Hc.
    + destruct (tail_centred _ _ _ _ _ _ _ _ _ _ _ _ Hc H)
        as [k [suffix [_ [_ [Hh _]]]]].
      exact Hh.
    + rewrite tail_index_error in H by exact Hc. now inversion H.
Qed.

(** *** What a run writes *)

Lemma export_events_no_save out body pts V N F :
  Forall (fun ev => is_save_project ev = false) (export_events out body pts V N F).
Proof. unfold export_events. repeat constructor. Qed.

Lemma no_output_no_save (l : list Event) :
  Forall (fun ev => is_output ev = false) l ->
  Forall (fun ev => is_save_project ev = false) l.
Proof. apply Forall_impl. intros e H. destruct e; simpl in *; congruence. Qed.

Lemma no_output_no_write (l : list Event) :
  Forall (fun ev => is_output ev = false) l ->
  Forall (fun ev => is_write ev = false) l.
Proof. apply Forall_impl. intros e H. destruct e; simpl in *; congruence. Qed.

(** Every run raises; it has written nothing, or its last three events are
    those of lines 175-186 and the exception is the one of line 190. *)
Lemma scan_arena_outputs motive_filename output_filename body nomeancenter
      nsides screen (w : World E) r w' :
  scan_arena E L os motive_filename output_filename body nomeancenter nsides screen w
  = (r, w') ->
  (exists e, r = Raise e)
  /\ exists l,
      log w' = log w ++ l
      /\ ((exists pre pts V N F,
              r = Raise TypeError
              /\ l = pre ++ export_events (output_path os output_filename) body
                             pts V N F
              /\ Forall (fun ev => is_output ev = false) pre)
          \/ Forall (fun ev => is_output ev = false) l).
Proof.
  intro H. apply scan_arena_log in H. destruct H as [l [Hlog Hcases]].
  destruct Hcases as [[Hr Hl] | [[e [Hr [_ Fl]]] | [[e [l2 [Hr [Hl Fl2]]]] | Hreach]]].
  - split; [eexists; exact Hr |]. exists l. split; [exact Hlog |]. right.
    subst l. constructor.
  - split; [eexists; exact Hr |]. exists l. split; [exact Hlog |]. right.
    exact (early_all _ _ early_not_output Fl).
  - split; [eexists; exact Hr |]. exists l. split; [exact Hlog |]. right.
    subst l. apply Forall_app. split.
    + exact (early_all _ _ early_not_output (prepare_events_early _ _)).
    + exact (early_all _ _ early_not_output Fl2).
  - destruct Hreach as [c [cams0 [k [pts [V [N [F [mid [Hc [Hrec [Fmid Hend]]]]]]]]]]].
    cbv zeta in Hend.
    match type of Hend with
    | (exists _ _, _ /\ _ = ?P ++ _ ++ _) \/ _ =>
        assert (HP : Forall (fun ev => is_output ev = false) P)
    end.
    { apply Forall_app. split;
        [exact (early_all _ _ early_not_output (prepare_events_early _ _)) |].
      apply Forall_app. split;
        [exact (early_all _ _ early_not_output (acquire_events_early _ _)) |].
      constructor; [reflexivity |].
      apply Forall_app. split; [| repeat constructor].
      eapply Forall_impl; [| apply restore_events_setters].
      apply setter_not_output. }
    assert (Hmid : Forall (fun ev => is_output ev = false) mid).
    { revert Fmid. apply Forall_impl. apply alignment_not_output. }
    destruct Hend as [[pts' [V' [Hr Hl]]] | [Hr Hl]].
    + split; [eexists; exact Hr |]. exists l. split; [exact Hlog |]. left.
      eexists. exists pts', V', N, F. split; [exact Hr |]. split.
      * rewrite Hl, app_assoc. reflexivity.
      * apply Forall_app. split; assumption.
    + split; [destruct Hr as [Hr | [Hr | Hr]]; eexists; exact Hr |].
      exists l. split; [exact Hlog |]. right.
      rewrite Hl. apply Forall_app. split; assumption.
Qed.

End Runs.

(** ** The properties of [scan_arena] *)

(** C4.  The output name is settled first: a name without an extension gets
    [.obj] appended, and whatever file a run opens or dumps has that name (or
    the name as given, when it had an extension); a name with another
    extension makes the run fail with the assertion error, and so does any
    name whose final extension is not [.obj]; in these cases the world is as
    it was, so that a run which has done anything at all (hardware, scan,
    plots, files) has passed the check. *)
Theorem output_name_checked_first
        (E : Environment) (L : PointcloudLib) (os : flavour)
        (motive_filename output_filename body : string) (nomeancenter : bool)
        (nsides screen : Z) (w : World E) (r : result unit) (w' : World E) :
  scan_arena E L os motive_filename output_filename body nomeancenter nsides screen w
  = (r, w') ->
  output_name_outcome os output_filename w r w'.
Proof.
  intro H. pose proof (scan_arena_outputs _ _ _ _ _ _ _ _ _ _ _ _ H) as Hout.
  pose proof (fun l => scan_arena_starts _ _ _ _ _ _ _ _ _ _ _ _ l H) as Hstart.
  apply scan_arena_cases in H. cbv zeta in H.
  assert (Hbad : snd (splitext os (output_path os output_filename)) <> ".obj"%string ->
                 r = Raise (AssertionError NotWavefront) /\ w' = w).
  { intro Hne. destruct H as [[_ Hfail] | [Hext _]]; [exact Hfail | contradiction]. }
  unfold output_name_outcome. cbv zeta.
  split; [intro Hext; unfold output_path; now rewrite Hext |].
  split.
  { intros Hne Hobj. apply Hbad. unfold output_path.
    destruct (String.eqb_spec (snd (splitext os output_filename)) EmptyString);
      [contradiction | assumption]. }
  split; [exact Hbad |].
  split.
  { intro Hlog. destruct H as [[_ [_ Hw]] | [Hext _]]; [| exact Hext].
    subst w'. contradiction. }
  destruct Hout as [_ [l [Hlog Hl]]]. exists l. split; [exact Hlog |].
  split; [intro Hext; exact (Hstart l Hext Hlog) |].
  intros fn Hin.
  assert (Hfn : fn = output_path os output_filename).
  { destruct Hl as [[pre [pts [V [N [F [_ [Hl Fpre]]]]]]] | Fl].
    - apply no_output_no_write in Fpre. subst l.
      destruct Hin as [Hin | [name [V' [N' [F' Hin]]]]];
        apply in_app_or in Hin; destruct Hin as [Hin | Hin].
      + exfalso. exact (no_write_not_opened _ _ Fpre Hin).
      + unfold export_events in Hin. simpl in Hin.
        destruct Hin as [Hin | [Hin | [Hin | []]]]; try discriminate Hin.
        now inversion Hin.
      + exfalso. exact (no_write_not_dumped _ _ _ _ _ _ Fpre Hin).
      + unfold export_events in Hin. simpl in Hin.
        destruct Hin as [Hin | [Hin | [Hin | []]]]; try discriminate Hin.
        now inversion Hin.
    - apply no_output_no_write in Fl. exfalso.
      destruct Hin as [Hin | [name [V' [N' [F' Hin]]]]].
      + exact (no_write_not_opened _ _ Fl Hin).
      + exact (no_write_not_dumped _ _ _ _ _ _ Fl Hin). }
  subst fn. unfold output_path.
  destruct (String.eqb_spec (snd (splitext os output_filename)) EmptyString)
    as [Heq | Hne]; split; intro Hext; try reflexivity; contradiction.
Qed.

(** C3, as amended.  The check of line 123 is [len(points) > 100]: the
    acquisition goes on exactly when the scan window collected more than 100
    points, and with 100 points or fewer it raises the assertion error that
    reports the count. *)
Theorem minimum_point_count
        (E : Environment) (screen : Z) (w : World E) (k : nat) :
  norm_index (env_screens E (st (after [GetScreens] w))) screen = Some k ->
  let pts := env_marker_pos E (run_events E [GetScreens; RunGridScan k] (st w)) in
  ((100 < length pts)%nat <-> fst (acquire E screen w) = Ok (length (heap w)))
  /\ ((length pts <= 100)%nat ->
      fst (acquire E screen w)
      = Raise (AssertionError (TooFewPoints (length pts)))).
Proof.
  intros Hk pts. destruct (acquire_run E screen w k Hk) as [Hfew Hmany].
  fold pts in Hfew, Hmany. split; [split |].
  - intro Hlen. now rewrite (Hmany Hlen).
  - intro Hok. destruct (Nat.le_gt_cases (length pts) 100) as [Hle | Hgt];
      [| exact Hgt].
    rewrite (Hfew Hle) in Hok. discriminate Hok.
  - intro Hle. now rewrite (Hfew Hle).
Qed.

(** C2.  A run with the mean-centering on that gets to line 150 with face
    indices that are rows of the vertex array enters the alignment loop with
    their centroid [m] as the target, and makes [k <= 300] attempts, each one
    a pivot reset, a location command and a poll of the location; the first
    [k - 1] polls do not match the target (relative tolerance 1/1000), and
    either the [k]-th does and the run goes on to line 175 without another
    pivot command, or [k = 300], the run stops with [ValueError] and nothing
    was written. *)
Theorem pivot_alignment_bounded
        (E : Environment) (L : PointcloudLib) (os : flavour)
        (motive_filename output_filename body : string)
        (nsides screen : Z) (w : World E)
        (saved : list (list Z) * Z) (k0 : nat) (pts V N : ndarray)
        (F : list (list Z)) :
  reaches_centering L os motive_filename output_filename body nsides screen
                    w saved k0 pts V N F ->
  in_range (length V) F ->
  exists m,
    centroid_is V F m
    /\ alignment_outcome (output_path os output_filename) body w
         (entry_events motive_filename body saved k0 pts w) pts V N F m
         (scan_arena E L os motive_filename output_filename body false nsides
                     screen w).
Proof.
  intros Hreach Hin.
  destruct (in_range_centroid V F Hin) as [m Hc].
  exists m. split; [exact (centroid_centroid_is _ _ _ Hc) |].
  rewrite (scan_arena_reaches E L os _ _ _ false _ _ _ _ _ _ _ _ _ Hreach).
  unfold alignment_outcome. cbv zeta. rewrite <- after_app.
  destruct (tail_with_centering E os motive_filename
              (output_path os output_filename) body (heap w) pts V N F
              (after (entry_events motive_filename body saved k0 pts w) w) m Hc)
    as [[k [Hk [Hbefore [Hat Hrun]]]] | [Hall Hrun]].
  - exists k. split; [exact Hk |].
    split; [intros j Hj; apply allclose_no_match, Hbefore; exact Hj |].
    left. split; [apply allclose_matches; exact Hat | exact Hrun].
  - exists 300%nat. split; [lia |].
    split; [intros j Hj; apply allclose_no_match, Hall; lia |].
    right. split; [reflexivity |].
    split; [apply allclose_no_match, Hall; lia |].
    split; [exact Hrun |].
    apply Forall_app. split.
    + apply harmless_no_write, entry_events_harmless.
    + constructor; [reflexivity | apply attempts_no_write].
Qed.

(** C1.  In a run with the mean-centering on that gets to line 150 with face
    indices that are rows of the vertex array, the vector that the rigid
    body is sent to is the centroid of the rows that the triangles refer to
    (a row as often as it is referred to): the sum of their coordinates
    divided by their number; the rows that no triangle refers to have no
    influence on it; and the two arrays are left with that one vector
    subtracted from each row, coordinate by coordinate.  This holds however
    the run ends; a mesh that is written is the translated one. *)
Theorem mean_centering_translates
        (E : Environment) (L : PointcloudLib) (os : flavour)
        (motive_filename output_filename body : string)
        (nsides screen : Z) (w : World E)
        (saved : list (list Z) * Z) (k0 : nat) (pts V N : ndarray)
        (F : list (list Z)) (r : result unit) (w' : World E) :
  reaches_centering L os motive_filename output_filename body nsides screen
                    w saved k0 pts V N F ->
  in_range (length V) F ->
  scan_arena E L os motive_filename output_filename body false nsides screen w
  = (r, w') ->
  centred_by_centroid body w w' pts V F.
Proof.
  intros Hreach Hin H.
  rewrite (scan_arena_reaches E L os _ _ _ false _ _ _ _ _ _ _ _ _ Hreach) in H.
  destruct (in_range_centroid V F Hin) as [m Hc].
  destruct (tail_centred E os _ _ _ _ _ _ _ _ _ _ _ _ Hc H)
    as [k [suffix [Hk [Hlog [Hheap Hsuf]]]]].
  pose proof (entry_events_harmless E motive_filename body saved k0 pts w) as Hentry.
  set (entry := entry_events motive_filename body saved k0 pts w) in *.
  assert (Hsuffix : Forall (fun e => is_set_location e = false) suffix).
  { destruct Hsuf as [Hs | [_ [Hs | Hs]]]; subst suffix; repeat constructor. }
  exists m, (translate pts m), (translate V m),
    (entry ++ [GetLocation body] ++ attempts body m k ++ suffix).
  split.
  { rewrite Hlog, log_after. now rewrite <- app_assoc. }
  split.
  { apply in_or_app. right. apply in_or_app. right. apply in_or_app. left.
    apply attempts_commanded. lia. }
  split.
  { intros m' Hm'.
    apply in_app_or in Hm'. destruct Hm' as [Hm' | Hm'].
    { exfalso. exact (no_set_not_set _ _ _ (harmless_no_set _ Hentry) Hm'). }
    apply in_app_or in Hm'. destruct Hm' as [[Hm' | []] | Hm']; [discriminate Hm' |].
    apply in_app_or in Hm'. destruct Hm' as [Hm' | Hm'].
    - exact (attempts_set_location _ _ _ _ _ Hm').
    - exfalso. exact (no_set_not_set _ _ _ Hsuffix Hm'). }
  split; [exact (centroid_centroid_is _ _ _ Hc) |].
  split.
  { intros V2 Hlen Hsame. unfold centroid.
    rewrite (take_rows_agree V2 V (flatten F) Hlen).
    - exact Hc.
    - intros i [j [Hj Hi]]. apply Hsame. exists j. split; [exact Hj |].
      now rewrite <- Hlen. }
  split; [apply translate_translated_by |].
  split; [apply translate_translated_by |].
  split; [exact Hheap |].
  intros fn name V'' N' F' Hd.
  apply in_app_or in Hd. destruct Hd as [Hd | Hd].
  { exfalso. exact (no_write_not_dumped _ _ _ _ _ _ (harmless_no_write _ Hentry) Hd). }
  apply in_app_or in Hd. destruct Hd as [[Hd | []] | Hd]; [discriminate Hd |].
  apply in_app_or in Hd. destruct Hd as [Hd | Hd].
  { exfalso. exact (no_write_not_dumped _ _ _ _ _ _ (attempts_no_write _ _ _) Hd). }
  destruct Hsuf as [Hs | [_ [Hs | Hs]]]; subst suffix.
  - destruct Hd.
  - destruct Hd as [Hd | []]; discriminate Hd.
  - unfold export_events in Hd. simpl in Hd.
    destruct Hd as [Hd | [Hd | [Hd | [Hd | []]]]]; try discriminate Hd.
    inversion Hd; subst. split; [reflexivity |].
    repeat (apply in_or_app; right). unfold export_events. simpl. auto.
Qed.

(** C5.  When the vertices that the faces refer to have a finite centroid,
    the mean-centering step leaves an array of vertices whose face-referenced
    centroid is the origin, exactly: the coordinates of the referenced rows,
    a row as often as it is referred to, have the mean zero.  A step that
    ends well leaves such an array.  And every mesh that a run with the
    mean-centering on writes is that array. *)
Theorem centred_mesh_centroid_at_origin
        (E : Environment) (L : PointcloudLib) (os : flavour) :
  (forall (body : string) (points vertices : nat) (F : list (list Z))
          (w : World E) (m : vec),
      points <> vertices ->
      centroid_is (heap_get (heap w) vertices) F m ->
      finite m ->
      centred_at_origin
        (heap_get (heap (snd (mean_center E body false points vertices F w)))
                  vertices) F)
  /\ (forall (body : string) (points vertices : nat) (F : list (list Z))
             (w w' : World E),
         points <> vertices ->
         mean_center E body false points vertices F w = (Ok tt, w') ->
         centred_at_origin (heap_get (heap w') vertices) F)
  /\ (forall (motive_filename output_filename body : string) (nsides screen : Z)
             (w : World E) (r : result unit) (w' : World E),
         scan_arena E L os motive_filename output_filename body false nsides
                    screen w = (r, w') ->
         written_mesh_centred w w').
Proof.
  assert (Hstep : forall (body : string) (points vertices : nat)
                         (F : list (list Z)) (w : World E) (m : vec),
             points <> vertices ->
             centroid (heap_get (heap w) vertices) F = Some m ->
             finite m ->
             centred_at_origin
               (heap_get (heap (snd (mean_center E body false points vertices
                                                 F w))) vertices) F).
  { intros body points vertices F w m Hne Hc Hfin.
    assert (Hheap : heap_get (heap (snd (mean_center E body false points
                                                     vertices F w))) vertices
                    = translate (heap_get (heap w) vertices) m).
    { destruct (mean_center_run E body points vertices F w m Hc)
        as [[k [_ [_ [_ Hrun]]]] | [_ Hrun]]; rewrite Hrun;
        cbn [snd heap after with_heap];
        rewrite heap_get_set_other by exact Hne;
        apply heap_get_set_translate. }
    rewrite Hheap. exact (translate_centred_at_origin _ _ _ Hc Hfin). }
  split.
  { intros body points vertices F w m Hne Hc Hfin.
    destruct (centroid_is_finite _ _ _ Hc Hfin) as [m' [Hc' Hfin']].
    exact (Hstep body points vertices F w m' Hne Hc' Hfin'). }
  split.
  - intros body points vertices F w w' Hne H.
    destruct (centroid (heap_get (heap w) vertices) F) as [m |] eqn:Hc.
    2: { rewrite mean_center_index_error in H by exact Hc. discriminate H. }
    assert (Hfin : finite m).
    { destruct (mean_center_run E body points vertices F w m Hc)
        as [[k [_ [_ [Hat Hrun]]]] | [_ Hrun]]; rewrite Hrun in H;
        [exact (allclose_finite _ _ _ Hat) | discriminate H]. }
    pose proof (Hstep body points vertices F w m Hne Hc Hfin) as Hcentred.
    now rewrite H in Hcentred.
  - intros motive_filename output_filename body nsides screen w r w' H.
    destruct (scan_arena_course E L os _ _ _ _ _ _ _ _ _ H)
      as [[e [l [t [_ [Hlog [Fl _]]]]]] | [saved [k0 [pts [V [N [F Hreach]]]]]]].
    { exists l. split; [exact Hlog |]. intros fn name V' N' F' Hd. exfalso.
      exact (no_write_not_dumped _ _ _ _ _ _ (early_no_write _ Fl) Hd). }
    rewrite (scan_arena_reaches E L os _ _ _ false _ _ _ _ _ _ _ _ _ Hreach) in H.
    pose proof (entry_events_harmless E motive_filename body saved k0 pts w)
      as Hentry.
    set (entry := entry_events motive_filename body saved k0 pts w) in *.
    destruct (centroid V F) as [m |] eqn:Hc.
    2: { rewrite tail_index_error in H by exact Hc. inversion H; subst.
         exists entry. split; [reflexivity |]. intros fn name V' N' F' Hd. exfalso.
         exact (no_write_not_dumped _ _ _ _ _ _ (harmless_no_write _ Hentry) Hd). }
    destruct (tail_centred E os _ _ _ _ _ _ _ _ _ _ _ _ Hc H)
      as [k [suffix [Hk [Hlog [Hheap Hsuf]]]]].
    exists (entry ++ [GetLocation body] ++ attempts body m k ++ suffix).
    split.
    { rewrite Hlog, log_after. now rewrite <- app_assoc. }
    intros fn name V' N' F' Hd.
    apply in_app_or in Hd. destruct Hd as [Hd | Hd].
    { exfalso.
      exact (no_write_not_dumped _ _ _ _ _ _ (harmless_no_write _ Hentry) Hd). }
    apply in_app_or in Hd. destruct Hd as [[Hd | []] | Hd]; [discriminate Hd |].
    apply in_app_or in Hd. destruct Hd as [Hd | Hd].
    { exfalso. exact (no_write_not_dumped _ _ _ _ _ _ (attempts_no_write _ _ _) Hd). }
    destruct Hsuf as [Hs | [Hfin [Hs | Hs]]]; subst suffix.
    + destruct Hd.
    + destruct Hd as [Hd | []]; discriminate Hd.
    + unfold export_events in Hd. simpl in Hd.
      destruct Hd as [Hd | [Hd | [Hd | [Hd | []]]]]; try discriminate Hd.
      inversion Hd; subst. split.
      * rewrite Hheap. apply heap_get_top1.
      * exact (translate_centred_at_origin _ _ _ Hc Hfin).
Qed.

(** C9, as amended.  Whatever its end, a run leaves the arrays that were in
    the heap as they were and at most two arrays of its own on top of them.
    In a run that gets to line 150 these are the points and the vertices:
    with the mean-centering off they hold what the scan and the indexing
    produced (and so they do when the centroid cannot be computed); with it
    on both have been overwritten in place with their translates by the
    centroid. *)
Theorem recentring_overwrites_in_place
        (E : Environment) (L : PointcloudLib) (os : flavour)
        (motive_filename output_filename body : string) (nomeancenter : bool)
        (nsides screen : Z) (w : World E) (r : result unit) (w' : World E) :
  scan_arena E L os motive_filename output_filename body nomeancenter nsides screen w
  = (r, w') ->
  heap_outcome L os motive_filename output_filename body nomeancenter nsides
               screen w w'.
Proof.
  intro H.
  assert (Hreached : forall saved k pts V N F,
             reaches_centering L os motive_filename output_filename body nsides
                               screen w saved k pts V N F ->
             (nomeancenter = true -> heap w' = heap w ++ [pts; V])
             /\ (nomeancenter = false ->
                 match centroid V F with
                 | Some m => heap w' = heap w ++ [translate pts m; translate V m]
                 | None => heap w' = heap w ++ [pts; V]
                 end)).
  { intros saved k pts V N F Hreach.
    rewrite (scan_arena_reaches E L os _ _ _ nomeancenter _ _ _ _ _ _ _ _ _ Hreach)
      in H.
    exact (tail_heap E os _ _ _ _ _ _ _ _ _ _ _ _ H). }
  split.
  { destruct (scan_arena_course E L os _ _ _ _ _ _ _ _ _ H)
      as [[e [l [t [_ [_ [_ [Hheap Hlen]]]]]]] | [saved [k [pts [V [N [F Hreach]]]]]]].
    { now exists t. }
    destruct (Hreached _ _ _ _ _ _ Hreach) as [Hoff Hon].
    destruct nomeancenter.
    - exists [pts; V]. split; [now apply Hoff | simpl; lia].
    - specialize (Hon eq_refl). destruct (centroid V F) as [m |].
      + exists [translate pts m; translate V m]. split; [exact Hon | simpl; lia].
      + exists [pts; V]. split; [exact Hon | simpl; lia]. }
  intros saved k pts V N F Hreach.
  destruct (Hreached _ _ _ _ _ _ Hreach) as [Hoff Hon].
  split; [exact Hoff |]. split.
  - intros Hnmc Hin. specialize (Hon Hnmc).
    destruct (in_range_centroid V F Hin) as [m Hc]. rewrite Hc in Hon.
    exists m, (translate pts m), (translate V m).
    split; [exact (centroid_centroid_is _ _ _ Hc) |].
    split; [apply translate_translated_by |].
    split; [apply translate_translated_by | exact Hon].
  - intros Hnmc Hout. specialize (Hon Hnmc).
    assert (Hc : centroid V F = None).
    { unfold centroid, flatten.
      destruct (take_rows V (concat F)) as [rows |] eqn:Ht; [| reflexivity].
      apply take_rows_none in Hout. congruence. }
    now rewrite Hc in Hon.
Qed.

(** C10.  With the mean-centering off, a run that gets past the check of the
    output name issues no location command at all and no pivot or
    orientation command after the preparation; whatever mesh it writes holds
    the vertices, normals and triangles of the reconstruction, and the
    arrays it keeps and plots are those of the scan and the reconstruction,
    untranslated; and a run that gets to line 150 goes from there straight
    to the writer with them. *)
Theorem uncentred_run_untouched
        (E : Environment) (L : PointcloudLib) (os : flavour)
        (motive_filename output_filename body : string)
        (nsides screen : Z) (w : World E) (r : result unit) (w' : World E) :
  scan_arena E L os motive_filename output_filename body true nsides screen w
  = (r, w') ->
  uncentred_outcome L os motive_filename output_filename body nsides screen w r w'.
Proof.
  intro H.
  assert (Hforward : forall saved k pts V N F,
             reaches_centering L os motive_filename output_filename body nsides
                               screen w saved k pts V N F ->
             (r, w')
             = export_end (output_path os output_filename) body pts V N F
                 (with_heap (heap w ++ [pts; V])
                            (after (entry_events motive_filename body saved k pts w)
                                   w))).
  { intros saved k pts V N F Hreach.
    rewrite (scan_arena_reaches E L os _ _ _ true _ _ _ _ _ _ _ _ _ Hreach) in H.
    rewrite tail_without_centering in H. now symmetry. }
  apply scan_arena_cases in H. cbv zeta in H.
  destruct H as [Hbad | [Hext [rp [wp [lp [Hp [Elp [Flp [Hheap Hrest]]]]]]]]];
    [left; exact Hbad |].
  right. destruct Hrest as [[e [lq [Hr [Elq Flq]]]] | Hreach].
  - exists rp, wp, lp, lq. repeat (split; [assumption |]).
    split; [| split; [| split]].
    + apply Forall_app. split; [now apply harmless_no_set |].
      revert Flq. apply Forall_impl. intros ev [Hpv _].
      now apply pivot_false_set_false.
    + now apply quiet_no_pivot.
    + intros fn name V N F Hd. exfalso.
      exact (no_write_not_dumped _ _ _ _ _ _
               (harmless_no_write _ (quiet_all_harmless _ Flq)) Hd).
    + exact Hforward.
  - destruct Hreach
      as [pts [surfaces [N [V [polys [F [lq [Hlen [Hm [Hf [Ht [Flq [Hin Htail]]]]]]]]]]]]].
    rewrite tail_without_centering in Htail.
    assert (Hrec : reconstructs L pts nsides V N F) by now exists surfaces, polys.
    destruct (export_end_cases E _ _ _ _ _ _ _ _ _ Htail)
      as [[_ [Hr Hw]] | [_ [Hr Hw]]]; subst r w'.
    + assert (Hnp : Forall (fun e => is_pivot_command e = false)
                           (lq ++ export_events (output_path os output_filename)
                                    body pts V N F)).
      { apply Forall_app. split;
          [now apply quiet_no_pivot | apply export_events_no_pivot]. }
      exists rp, wp, lp. eexists. split; [exact Hp |]. split; [exact Elp |].
      split; [cbn [log after with_heap]; rewrite <- app_assoc; reflexivity |].
      split; [| split; [exact Hnp | split; [| exact Hforward]]].
      * apply Forall_app. split; [now apply harmless_no_set |].
        revert Hnp. apply Forall_impl. apply pivot_false_set_false.
      * intros fn name V' N' F' Hd.
        apply in_app_or in Hd. destruct Hd as [Hd | Hd].
        { exfalso.
          exact (no_write_not_dumped _ _ _ _ _ _
                   (harmless_no_write _ (quiet_all_harmless _ Flq)) Hd). }
        unfold export_events in Hd. simpl in Hd.
        destruct Hd as [Hd | [Hd | [Hd | []]]]; try discriminate Hd.
        inversion Hd; subst. exists pts.
        split; [apply in_or_app; left; exact Hin |].
        split; [exact Hrec |]. split; [reflexivity |].
        split; [reflexivity |]. split; [reflexivity |].
        apply in_or_app. right. unfold export_events. simpl. auto.
    + exists rp, wp, lp, lq. split; [exact Hp |]. split; [exact Elp |].
      split; [reflexivity |].
      split; [| split; [now apply quiet_no_pivot | split; [| exact Hforward]]].
      * apply Forall_app. split; [now apply harmless_no_set |].
        revert Flq. apply Forall_impl. intros ev [Hpv _].
        now apply pivot_false_set_false.
      * intros fn name V' N' F' Hd. exfalso.
        exact (no_write_not_dumped _ _ _ _ _ _
                 (harmless_no_write _ (quiet_all_harmless _ Flq)) Hd).
Qed.

(** ** The properties of the point-cloud functions *)

Section FanTriangulation.

Import Pointcloud.

Lemma fan_length (v0 : Z) (rest : list Z) :
  length (fan v0 rest) = pred (length rest).
Proof.
  induction rest as [| a tl IH]; [reflexivity |].
  destruct tl as [| b tl']; [reflexivity |].
  change (fan v0 (a :: b :: tl')) with ((v0, a, b) :: fan v0 (b :: tl')).
  cbn [length]. rewrite IH. reflexivity.
Qed.

Lemma fan_nth (v0 : Z) (rest : list Z) (i : nat) :
  (S i < length rest)%nat ->
  nth_error (fan v0 rest) i = Some (v0, nth i rest 0, nth (S i) rest 0).
Proof.
  revert i. induction rest as [| a tl IH]; intros i Hi; [simpl in Hi; lia |].
  destruct tl as [| b tl']; [simpl in Hi; lia |].
  change (fan v0 (a :: b :: tl')) with ((v0, a, b) :: fan v0 (b :: tl')).
  destruct i as [| i]; [reflexivity |].
  cbn [nth_error]. rewrite IH by (simpl in *; lia). reflexivity.
Qed.

Lemma triangulate_face_error (face : list Z) (e : exn) :
  triangulate_face face = Raise e -> e = PointcloudError ContractViolation.
Proof.
  destruct face as [| a [| b [| c tl]]]; simpl; intro H; now inversion H.
Qed.

Lemma triangulate_fails_fast (before : list (list Z)) (face : list Z)
      (rest : list (list Z)) :
  triangulate_face face = Raise (PointcloudError ContractViolation) ->
  triangulate (before ++ face :: rest) = Raise (PointcloudError ContractViolation).
Proof.
  intro Hbad. induction before as [| f before IH]; simpl.
  - now rewrite Hbad.
  - destruct (triangulate_face f) as [ts | e] eqn:Hf.
    + now rewrite IH.
    + now rewrite (triangulate_face_error _ _ Hf).
Qed.

End FanTriangulation.

(** C6.  Fan triangulation of one face: with fewer than 3 vertices it is a
    contract violation, and a list of faces that holds such a face is
    refused as a whole; with [k >= 3] vertices it yields [k - 2] triangles,
    the [i]-th of them [(v0, vi, vi+1)] for [i] from 1 to [k - 2]. *)
Theorem fan_triangulation (face : list Z) :
  ((length face < 3)%nat ->
   Pointcloud.triangulate_face face = Raise (PointcloudError ContractViolation)
   /\ forall before rest,
       Pointcloud.triangulate (before ++ face :: rest)
       = Raise (PointcloudError ContractViolation))
  /\ ((3 <= length face)%nat ->
      exists ts,
        Pointcloud.triangulate_face face = Ok ts
        /\ length ts = (length face - 2)%nat
        /\ forall i, (1 <= i <= length face - 2)%nat ->
             nth_error ts (i - 1)
             = Some (nth 0 face 0, nth i face 0, nth (i + 1) face 0)).
Proof.
  split.
  - intro Hlen.
    assert (Hbad : Pointcloud.triangulate_face face
                   = Raise (PointcloudError ContractViolation)).
    { destruct face as [| a [| b [| c tl]]]; try reflexivity. simpl in Hlen. lia. }
    split; [exact Hbad |]. intros before rest.
    now apply triangulate_fails_fast.
  - intro Hlen.
    destruct face as [| v0 [| a [| b tl]]]; try (simpl in Hlen; lia).
    exists (Pointcloud.fan v0 (a :: b :: tl)). split; [reflexivity |]. split.
    + rewrite fan_length. simpl. lia.
    + intros i Hi. destruct i as [| i]; [lia |].
      replace (S i - 1)%nat with i by lia.
      rewrite fan_nth by (simpl in *; lia).
      replace (S i + 1)%nat with (S (S i)) by lia. reflexivity.
Qed.

Section Indexing.

Import Pointcloud.

Variable eps : Q.

Lemma Qle_bool_eq (a b c : Q) : (a == b)%Q -> Qle_bool a c = Qle_bool b c.
Proof.
  intro H. apply eq_true_iff_eq. rewrite !Qle_bool_iff. now rewrite H.
Qed.

Lemma within_sym (u v : vec) : within eps u v = within eps v u.
Proof.
  destruct u as [[[a |] [b |]] [c |]], v as [[[a' |] [b' |]] [c' |]];
    try reflexivity.
  unfold within, dist2, vx, vy, vz. cbn [fst snd nsub nsq nmul nadd].
  apply Qle_bool_eq. ring.
Qed.

Lemma find_within_none (vs : ndarray) (v : vec) (i : nat) :
  find_within eps vs v i = None <-> Forall (fun u => within eps u v = false) vs.
Proof.
  revert i. induction vs as [| u vs IH]; intro i; simpl.
  - split; [constructor | reflexivity].
  - destruct (within eps u v) eqn:Hw.
    + split; [discriminate |]. intro H. inversion H. congruence.
    + rewrite IH. split; [now constructor | intro H; now inversion H].
Qed.

Lemma separated_nil : separated eps [].
Proof. intros i j u v _ Hi. destruct i; discriminate Hi. Qed.

Lemma separated_snoc (vs : ndarray) (v : vec) :
  separated eps vs ->
  Forall (fun u => within eps u v = false) vs ->
  separated eps (vs ++ [v]).
Proof.
  intros Hsep Hall i j u x Hij Hi Hj.
  assert (Hjlen : (j < length (vs ++ [v]))%nat)
    by (apply nth_error_Some; congruence).
  rewrite length_app in Hjlen. simpl in Hjlen.
  destruct (Nat.eq_dec j (length vs)) as [-> | Hne].
  - rewrite nth_error_app2, Nat.sub_diag in Hj by lia. inversion Hj; subst x.
    rewrite nth_error_app1 in Hi by lia.
    rewrite Forall_forall in Hall. apply Hall. eapply nth_error_In. exact Hi.
  - rewrite nth_error_app1 in Hi, Hj by lia. exact (Hsep i j u x Hij Hi Hj).
Qed.

Lemma separated_prefix (vs t : ndarray) : separated eps (vs ++ t) -> separated eps vs.
Proof.
  intros Hsep i j u v Hij Hi Hj. apply (Hsep i j u v Hij).
  - rewrite nth_error_app1; [exact Hi | apply nth_error_Some; congruence].
  - rewrite nth_error_app1; [exact Hj | apply nth_error_Some; congruence].
Qed.

Lemma intern_separated (vs : ndarray) (v : vec) :
  separated eps vs -> separated eps (fst (intern eps vs v)).
Proof.
  intro Hsep. unfold intern.
  destruct (find_within eps vs v 0) as [i |] eqn:Hf; [exact Hsep |].
  apply separated_snoc; [exact Hsep | now apply find_within_none in Hf].
Qed.

Lemma intern_all_separated (boundary vs : ndarray) :
  separated eps vs -> separated eps (fst (intern_all eps vs boundary)).
Proof.
  revert vs. induction boundary as [| v rest IH]; intros vs Hsep; simpl.
  - exact Hsep.
  - pose proof (intern_separated vs v Hsep) as H1.
    destruct (intern eps vs v) as [vs1 i]. simpl in H1.
    specialize (IH vs1 H1).
    destruct (intern_all eps vs1 rest) as [vs2 idx]. exact IH.
Qed.

Lemma index_from_separated (hull : ndarray -> result ndarray)
      (surfaces : list ndarray) (vs out : ndarray) (faces : list (list Z)) :
  separated eps vs ->
  index_from eps hull vs surfaces = Ok (out, faces) ->
  separated eps out.
Proof.
  revert vs out faces. induction surfaces as [| s rest IH];
    intros vs out faces Hsep H; simpl in H.
  - inversion H. now subst.
  - destruct (hull s) as [boundary | e]; [| discriminate H].
    pose proof (intern_all_separated boundary vs Hsep) as H1.
    destruct (intern_all eps vs boundary) as [vs1 face]. simpl in H1.
    destruct (length (nodup Nat.eq_dec face) <? 3)%nat; [discriminate H |].
    destruct (index_from eps hull vs1 rest) as [[vs2 faces'] | e] eqn:Hrest;
      [| discriminate H].
    inversion H; subst. exact (IH vs1 out faces' H1 Hrest).
Qed.

(** Indexing a separated array again gives the array back, each vertex
    under its own index. *)
Lemma intern_all_separated_id (rest pre : ndarray) :
  separated eps (pre ++ rest) ->
  intern_all eps pre rest = (pre ++ rest, seq (length pre) (length rest)).
Proof.
  revert pre. induction rest as [| v rest IH]; intros pre Hsep; simpl.
  - now rewrite app_nil_r.
  - assert (Hnone : find_within eps pre v 0 = None).
    { apply find_within_none. apply Forall_forall. intros u Hu.
      destruct (In_nth_error _ _ Hu) as [i Hi].
      apply (Hsep i (length pre) u v).
      - apply nth_error_Some. congruence.
      - rewrite nth_error_app1; [exact Hi | apply nth_error_Some; congruence].
      - rewrite nth_error_app2, Nat.sub_diag by lia. reflexivity. }
    unfold intern. rewrite Hnone.
    replace (pre ++ v :: rest) with ((pre ++ [v]) ++ rest) in *
      by now rewrite <- app_assoc.
    rewrite (IH (pre ++ [v]) Hsep).
    rewrite length_app. simpl. rewrite Nat.add_1_r. reflexivity.
Qed.

End Indexing.

(** C7.  When the indexing returns a vertex array, no two of its vertices at
    different positions are within epsilon of each other; indexing that
    array once more leaves it unchanged, each vertex under its own index;
    and the result is a function of the surfaces: a second run returns the
    same arrays. *)
Theorem index_deduplicates
        (eps : Q) (hull : ndarray -> result ndarray) (surfaces : list ndarray)
        (vertices : ndarray) (faces : list (list Z)) :
  Pointcloud.index eps hull surfaces = Ok (vertices, faces) ->
  (forall i j u v,
      i <> j -> nth_error vertices i = Some u -> nth_error vertices j = Some v ->
      Pointcloud.within eps u v = false)
  /\ Pointcloud.intern_all eps [] vertices
     = (vertices, seq 0 (length vertices))
  /\ (forall again, again = Pointcloud.index eps hull surfaces ->
                    again = Ok (vertices, faces)).
Proof.
  intro H. unfold Pointcloud.index in H.
  pose proof (index_from_separated eps hull surfaces [] vertices faces
                                   (separated_nil eps) H) as Hsep.
  split; [| split].
  - intros i j u v Hij Hi Hj.
    destruct (Nat.lt_ge_cases i j) as [Hlt | Hge].
    + exact (Hsep i j u v Hlt Hi Hj).
    + rewrite within_sym. apply (Hsep j i v u); [lia | exact Hj | exact Hi].
  - exact (intern_all_separated_id eps vertices [] Hsep).
  - intros again ->. exact H.
Qed.



(** ** The statements on the test rig *)

(** The hypotheses of [reaches_centering] on the rig, by computation. *)
Ltac rig_reaches n :=
  split; [reflexivity |];
  split; [vm_compute; reflexivity |];
  split; [reflexivity |];
  split; [vm_compute; reflexivity |];
  split; [vm_compute; lia |];
  exists [Rig.cloud n], [[0; 1; 2; 3]];
  repeat split; vm_compute; reflexivity.

Lemma output_name_checked_first_witness :
  let w' := snd (rig_run "arena" false 0 101) in
  rig_run "arena" false 0 101 = (Raise TypeError, w')
  /\ In (OpenForWriting "arena.obj") (log w')
  /\ output_name_outcome Posix "arena" (Rig.start 0 101) (Raise TypeError) w'.
Proof.
  intro w'.
  assert (H : rig_run "arena" false 0 101 = (Raise TypeError, w'))
    by (vm_compute; reflexivity).
  split; [exact H |].
  split; [vm_compute; repeat (first [left; reflexivity | right]) |].
  exact (output_name_checked_first Rig.env Rig.lib Posix _ _ _ _ _ _ _ _ _ H).
Defined.

(** C3 as the specification has it fails: a cloud of exactly 100 points is
    rejected. *)
Lemma hundred_points_rejected :
  length (Rig.cloud 100) = 100%nat
  /\ fst (rig_run "arena" false 0 100)
     = Raise (AssertionError (TooFewPoints 100)).
Proof. split; vm_compute; reflexivity. Qed.

Lemma minimum_point_count_witness :
  norm_index (env_screens Rig.env (st (after [GetScreens] (Rig.start 0 101)))) 1
  = Some 1%nat
  /\ fst (acquire Rig.env 1 (Rig.start 0 101)) = Ok 0%nat.
Proof.
  assert (H : norm_index
                (env_screens Rig.env (st (after [GetScreens] (Rig.start 0 101)))) 1
              = Some 1%nat) by reflexivity.
  split; [exact H |].
  apply (proj1 (proj1 (minimum_point_count Rig.env 1 (Rig.start 0 101) 1 H))).
  vm_compute. lia.
Defined.

Lemma pivot_alignment_bounded_witness :
  reaches_centering Rig.lib Posix "project.ttp" "arena" "arena" 0 1
                    (Rig.start 2 101) Rig.saved 1 (Rig.cloud 101)
                    Rig.vertices Rig.normals Rig.faces
  /\ in_range (length Rig.vertices) Rig.faces
  /\ fst (rig_run "arena" false 2 101) = Raise TypeError
  /\ exists m,
      centroid_is Rig.vertices Rig.faces m
      /\ alignment_outcome (output_path Posix "arena") "arena" (Rig.start 2 101)
           (entry_events "project.ttp" "arena" Rig.saved 1 (Rig.cloud 101)
                         (Rig.start 2 101))
           (Rig.cloud 101) Rig.vertices Rig.normals Rig.faces m
           (rig_run "arena" false 2 101).
Proof.
  assert (H1 : reaches_centering Rig.lib Posix "project.ttp" "arena" "arena" 0 1
                 (Rig.start 2 101) Rig.saved 1 (Rig.cloud 101)
                 Rig.vertices Rig.normals Rig.faces) by rig_reaches 101%nat.
  assert (H2 : in_range (length Rig.vertices) Rig.faces).
  { intros i Hi. change (length Rig.vertices) with 4%nat.
    simpl in Hi. intuition lia. }
  split; [exact H1 |]. split; [exact H2 |].
  split; [vm_compute; reflexivity |].
  exact (pivot_alignment_bounded Rig.env Rig.lib Posix _ _ _ _ _ _ _ _ _ _ _ _
           H1 H2).
Defined.

Lemma mean_centering_translates_witness :
  let w' := snd (rig_run "arena" false 2 101) in
  reaches_centering Rig.lib Posix "project.ttp" "arena" "arena" 0 1
                    (Rig.start 2 101) Rig.saved 1 (Rig.cloud 101)
                    Rig.vertices Rig.normals Rig.faces
  /\ in_range (length Rig.vertices) Rig.faces
  /\ rig_run "arena" false 2 101 = (Raise TypeError, w')
  /\ centred_by_centroid "arena" (Rig.start 2 101) w' (Rig.cloud 101)
                         Rig.vertices Rig.faces.
Proof.
  intro w'.
  assert (H1 : reaches_centering Rig.lib Posix "project.ttp" "arena" "arena" 0 1
                 (Rig.start 2 101) Rig.saved 1 (Rig.cloud 101)
                 Rig.vertices Rig.normals Rig.faces) by rig_reaches 101%nat.
  assert (H2 : in_range (length Rig.vertices) Rig.faces).
  { intros i Hi. change (length Rig.vertices) with 4%nat.
    simpl in Hi. intuition lia. }
  assert (H3 : rig_run "arena" false 2 101 = (Raise TypeError, w'))
    by (vm_compute; reflexivity).
  split; [exact H1 |]. split; [exact H2 |]. split; [exact H3 |].
  exact (mean_centering_translates Rig.env Rig.lib Posix _ _ _ _ _ _ _ _ _ _ _ _
           _ _ H1 H2 H3).
Defined.

Lemma centred_mesh_centroid_at_origin_witness :
  let w1 := with_heap [Rig.cloud 120; Rig.vertices] (Rig.start 0 120) in
  let w2 := snd (mean_center Rig.env "arena" false 0 1 Rig.faces w1) in
  let w' := snd (rig_run "arena" false 0 120) in
  (centroid_is (heap_get (heap w1) 1) Rig.faces Rig.centre
   /\ finite Rig.centre
   /\ centred_at_origin (heap_get (heap w2) 1) Rig.faces)
  /\ (mean_center Rig.env "arena" false 0 1 Rig.faces w1 = (Ok tt, w2)
      /\ centred_at_origin (heap_get (heap w2) 1) Rig.faces)
  /\ (rig_run "arena" false 0 120 = (Raise TypeError, w')
      /\ written_mesh_centred (Rig.start 0 120) w').
Proof.
  intros w1 w2 w'.
  assert (H0 : centroid_is (heap_get (heap w1) 1) Rig.faces Rig.centre).
  { exists [Rig.pt 1 1 0; Rig.pt 3 1 0; Rig.pt 3 3 0;
            Rig.pt 1 1 0; Rig.pt 3 3 0; Rig.pt 1 3 0].
    split.
    - repeat constructor;
        first [ exists 0%nat; split; [reflexivity | left; split; reflexivity || lia]
              | exists 1%nat; split; [reflexivity | left; split; reflexivity || lia]
              | exists 2%nat; split; [reflexivity | left; split; reflexivity || lia]
              | exists 3%nat; split; [reflexivity | left; split; reflexivity || lia] ].
    - split; [| split].
      + exists (map inject_Z [1; 3; 3; 1; 3; 1]).
        split; [reflexivity |]. split; [discriminate | reflexivity].
      + exists (map inject_Z [1; 1; 3; 1; 3; 3]).
        split; [reflexivity |]. split; [discriminate | reflexivity].
      + exists (map inject_Z [0; 0; 0; 0; 0; 0]).
        split; [reflexivity |]. split; [discriminate | reflexivity]. }
  assert (Hf : finite Rig.centre) by (do 3 eexists; reflexivity).
  assert (H1 : mean_center Rig.env "arena" false 0 1 Rig.faces w1 = (Ok tt, w2))
    by (vm_compute; reflexivity).
  assert (H2 : rig_run "arena" false 0 120 = (Raise TypeError, w'))
    by (vm_compute; reflexivity).
  split; [split; [exact H0 |]; split; [exact Hf |] |].
  - exact (proj1 (centred_mesh_centroid_at_origin Rig.env Rig.lib Posix)
                 "arena"%string 0%nat 1%nat Rig.faces w1 Rig.centre
                 (O_S 0) H0 Hf).
  - split; (split; [assumption |]).
    + exact (proj1 (proj2 (centred_mesh_centroid_at_origin Rig.env Rig.lib Posix))
                   "arena"%string 0%nat 1%nat Rig.faces w1 w2 (O_S 0) H1).
    + exact (proj2 (proj2 (centred_mesh_centroid_at_origin Rig.env Rig.lib Posix))
                   _ _ _ _ _ _ _ _ H2).
Defined.

(** C9 as the specification has it fails: the array that held the raw cloud
    when it was previewed holds other values once the mesh is centred, and
    these are what the run plots next to the mesh before it stops at line
    190. *)
Lemma recentring_alters_the_cloud :
  let run := rig_run "arena" false 0 101 in
  fst run = Raise TypeError
  /\ In (ShowScatter [Rig.cloud 101]) (log (snd run))
  /\ heap_get (heap (snd run)) 0 <> Rig.cloud 101
  /\ In (ShowScatter [every_12th (heap_get (heap (snd run)) 0);
                      heap_get (heap (snd run)) 1]) (log (snd run)).
Proof.
  split; [vm_compute; reflexivity |]. split; [| split].
  - vm_compute. repeat (first [left; reflexivity | right]).
  - vm_compute. intro H. discriminate H.
  - vm_compute. repeat (first [left; reflexivity | right]).
Qed.

Lemma recentring_overwrites_in_place_witness :
  let w' := snd (rig_run "arena" false 1 104) in
  rig_run "arena" false 1 104 = (Raise TypeError, w')
  /\ reaches_centering Rig.lib Posix "project.ttp" "arena" "arena" 0 1
                       (Rig.start 1 104) Rig.saved 1 (Rig.cloud 104)
                       Rig.vertices Rig.normals Rig.faces
  /\ heap_outcome Rig.lib Posix "project.ttp" "arena" "arena" false 0 1
                  (Rig.start 1 104) w'.
Proof.
  intro w'.
  assert (H : rig_run "arena" false 1 104 = (Raise TypeError, w'))
    by (vm_compute; reflexivity).
  split; [exact H |].
  split; [rig_reaches 104%nat |].
  exact (recentring_overwrites_in_place Rig.env Rig.lib Posix _ _ _ _ _ _ _ _ _ H).
Defined.

Lemma uncentred_run_untouched_witness :
  let w' := snd (rig_run "arena" true 0 101) in
  rig_run "arena" true 0 101 = (Raise TypeError, w')
  /\ uncentred_outcome Rig.lib Posix "project.ttp" "arena" "arena" 0 1
                       (Rig.start 0 101) (Raise TypeError) w'.
Proof.
  intro w'.
  assert (H : rig_run "arena" true 0 101 = (Raise TypeError, w'))
    by (vm_compute; reflexivity).
  split; [exact H |].
  exact (uncentred_run_untouched Rig.env Rig.lib Posix _ _ _ _ _ _ _ _ H).
Defined.

Lemma fan_triangulation_witness :
  (3 <= length [7; 8; 9; 10])%nat
  /\ exists ts,
      Pointcloud.triangulate_face [7; 8; 9; 10] = Ok ts
      /\ length ts = (length [7; 8; 9; 10] - 2)%nat
      /\ forall i, (1 <= i <= length [7; 8; 9; 10] - 2)%nat ->
           nth_error ts (i - 1)
           = Some (nth 0 [7; 8; 9; 10] 0, nth i [7; 8; 9; 10] 0,
                   nth (i + 1) [7; 8; 9; 10] 0).
Proof.
  assert (H : (3 <= length [7; 8; 9; 10])%nat) by (simpl; lia).
  split; [exact H |].
  exact (proj2 (fan_triangulation [7; 8; 9; 10]) H).
Defined.

Lemma index_deduplicates_witness :
  Pointcloud.index (1 # 1000) Rig.first_four [Rig.cloud 9; Rig.cloud 6]
  = Ok (Rig.corners, [[0; 1; 2; 3]; [0; 1; 2; 3]])
  /\ Pointcloud.intern_all (1 # 1000) [] Rig.corners
     = (Rig.corners, seq 0 (length Rig.corners)).
Proof.
  assert (H : Pointcloud.index (1 # 1000) Rig.first_four [Rig.cloud 9; Rig.cloud 6]
              = Ok (Rig.corners, [[0; 1; 2; 3]; [0; 1; 2; 3]]))
    by (vm_compute; reflexivity).
  split; [exact H |].
  exact (proj1 (proj2 (index_deduplicates _ _ _ _ _ H))).
Defined.


(** ** More on the output name (lines 90-91) *)

Section OutputName.

Lemma rfind_from_app (c : ascii) (p q : list ascii) (i found : Z) :
  rfind_from c (p ++ q) i found
  = rfind_from c q (i + Z.of_nat (length p)) (rfind_from c p i found).
Proof.
  revert i found. induction p as [| a p IH]; intros i found; simpl app.
  - cbn [length rfind_from]. now rewrite Z.add_0_r.
  - cbn [rfind_from]. rewrite IH. f_equal. cbn [length]. lia.
Qed.

Lemma rfind_from_bounds (c : ascii) (p : list ascii) (i found : Z) :
  -1 <= found < i ->
  -1 <= rfind_from c p i found < i + Z.of_nat (length p).
Proof.
  revert i found. induction p as [| a p IH]; intros i found H; cbn [rfind_from length].
  - lia.
  - destruct (Ascii.eqb a c).
    + specialize (IH (i + 1) i). lia.
    + specialize (IH (i + 1) found). lia.
Qed.

Lemma rfind_bounds (c : ascii) (p : list ascii) :
  -1 <= rfind c p < Z.of_nat (length p).
Proof.
  unfold rfind. pose proof (rfind_from_bounds c p 0 (-1)). lia.
Qed.

Lemma list_ascii_of_string_app (s1 s2 : string) :
  list_ascii_of_string (s1 ++ s2)
  = list_ascii_of_string s1 ++ list_ascii_of_string s2.
Proof.
  induction s1 as [| a s1 IH]; simpl; [reflexivity | now rewrite IH].
Qed.

(** The last dot of [p + '.obj'] is the appended one. *)
Lemma rfind_dot_obj (p : list ascii) :
  rfind "."%char (p ++ list_ascii_of_string ".obj") = Z.of_nat (length p).
Proof. unfold rfind. rewrite rfind_from_app. reflexivity. Qed.

Lemma rfind_slash_obj (p : list ascii) :
  rfind "/"%char (p ++ list_ascii_of_string ".obj") = rfind "/"%char p.
Proof. unfold rfind. rewrite rfind_from_app. reflexivity. Qed.

Lemma rfind_backslash_obj (p : list ascii) :
  rfind "\"%char (p ++ list_ascii_of_string ".obj") = rfind "\"%char p.
Proof. unfold rfind. rewrite rfind_from_app. reflexivity. Qed.

Lemma last_sep_obj (os : flavour) (p : list ascii) :
  last_sep os (p ++ list_ascii_of_string ".obj") = last_sep os p.
Proof.
  destruct os; unfold last_sep.
  - apply rfind_slash_obj.
  - now rewrite rfind_slash_obj, rfind_backslash_obj.
Qed.

Lemma last_sep_bounds (os : flavour) (p : list ascii) :
  -1 <= last_sep os p < Z.of_nat (length p).
Proof.
  destruct os; unfold last_sep.
  - apply rfind_bounds.
  - pose proof (rfind_bounds "\"%char p). pose proof (rfind_bounds "/"%char p). lia.
Qed.

Lemma splitext_eq (os : flavour) (p : string) :
  splitext os p
  = let cs := list_ascii_of_string p in
    let sepIndex := last_sep os cs in
    let dotIndex := rfind "."%char cs in
    if sepIndex <? dotIndex then
      if only_leading_dots
           (firstn (Z.to_nat (dotIndex - (sepIndex + 1)))
                   (skipn (Z.to_nat (sepIndex + 1)) cs))
      then (p, EmptyString)
      else (string_of_list_ascii (firstn (Z.to_nat dotIndex) cs),
            string_of_list_ascii (skipn (Z.to_nat dotIndex) cs))
    else (p, EmptyString).
Proof. destruct os; reflexivity. Qed.

(** The extension of [p + '.obj']: it is [.obj] unless what follows the last
    separator of [p] is empty or only dots. *)
Lemma splitext_obj (os : flavour) (p : string) :
  snd (splitext os (p ++ ".obj"))
  = if only_leading_dots (basename_chars os p) then EmptyString else ".obj"%string.
Proof.
  rewrite splitext_eq. cbv zeta. unfold basename_chars.
  rewrite list_ascii_of_string_app.
  set (cs := list_ascii_of_string p).
  rewrite last_sep_obj, rfind_dot_obj.
  pose proof (last_sep_bounds os cs) as Hb.
  destruct (Z.ltb_spec (last_sep os cs) (Z.of_nat (length cs))) as [_ | Hge]; [| lia].
  assert (Hslice : firstn (Z.to_nat (Z.of_nat (length cs) - (last_sep os cs + 1)))
                          (skipn (Z.to_nat (last_sep os cs + 1))
                                 (cs ++ list_ascii_of_string ".obj"))
                   = skipn (Z.to_nat (last_sep os cs + 1)) cs).
  { rewrite skipn_app.
    replace (Z.to_nat (last_sep os cs + 1) - length cs)%nat with 0%nat by lia.
    cbn [skipn]. rewrite firstn_app.
    rewrite length_skipn.
    replace (Z.to_nat (Z.of_nat (length cs) - (last_sep os cs + 1))
             - (length cs - Z.to_nat (last_sep os cs + 1)))%nat with 0%nat by lia.
    cbn [firstn]. rewrite app_nil_r. apply firstn_all2.
    rewrite length_skipn. lia. }
  rewrite Hslice.
  destruct (only_leading_dots (skipn (Z.to_nat (last_sep os cs + 1)) cs));
    [reflexivity |].
  cbn [snd]. rewrite Nat2Z.id, skipn_app, Nat.sub_diag, skipn_all.
  reflexivity.
Qed.

End OutputName.

(** X1.  A name without an extension is accepted, under the name with [.obj]
    appended, exactly when what follows its last separator has a character
    other than the dot; a name such as the empty one, [dir/] or [..] is
    refused although [.obj] is appended to it. *)
Theorem bare_name_accepted_iff_not_dots
        (E : Environment) (os : flavour) (output_filename : string) (w : World E) :
  snd (splitext os output_filename) = EmptyString ->
  check_output E os output_filename w
  = if only_leading_dots (basename_chars os output_filename)
    then (Raise (AssertionError NotWavefront), w)
    else (Ok (output_filename ++ ".obj")%string, w).
Proof.
  intro Hext. unfold check_output, output_path. rewrite Hext. cbn [String.eqb].
  rewrite splitext_obj.
  destruct (only_leading_dots (basename_chars os output_filename)); reflexivity.
Qed.

Lemma bare_name_accepted_iff_not_dots_witness :
  snd (splitext Nt "scans\.") = EmptyString
  /\ check_output Rig.env Nt "scans\." (Rig.start 0 0)
     = (Raise (AssertionError NotWavefront), Rig.start 0 0).
Proof.
  assert (H : snd (splitext Nt "scans\.") = EmptyString) by reflexivity.
  split; [exact H |].
  exact (bare_name_accepted_iff_not_dots Rig.env Nt "scans\." (Rig.start 0 0) H).
Defined.

(** ** More properties of [scan_arena] *)

(** X2.  When the output name is accepted and the project has cameras but
    no rigid body of the given name, the run stops with the assertion error
    right after the look-up: the cameras have been put into the
    visible-light configuration, nothing else was done, and in particular no
    reset command was issued. *)
Theorem missing_body_stops_after_vislight
        (E : Environment) (L : PointcloudLib) (os : flavour)
        (motive_filename output_filename body : string) (nomeancenter : bool)
        (nsides screen : Z) (w : World E) :
  snd (splitext os (output_path os output_filename)) = ".obj"%string ->
  env_cams E (run_events E (prepare_head motive_filename) (st w)) <> [] ->
  existsb (String.eqb body)
          (env_bodies E (run_events E (prepare_head motive_filename ++ prepare_mid)
                                    (st w))) = false ->
  scan_arena E L os motive_filename output_filename body nomeancenter nsides screen w
  = (Raise (AssertionError BodyNotFound),
     after (prepare_head motive_filename ++ prepare_mid) w).
Proof.
  intros Hext Hcams Hbody. unfold scan_arena.
  destruct (check_output_cases E os output_filename w) as [[_ Hc] | [Hne _]];
    [| contradiction].
  rewrite (bind_step _ _ _ _ _ Hc). cbv zeta.
  change (chars (encode motive_filename)) with motive_filename. apply bind_raise.
  rewrite prepare_to_bodies. rewrite st_after.
  destruct (env_cams E (run_events E (prepare_head motive_filename) (st w)));
    [contradiction |].
  cbv zeta. rewrite st_after, Hbody. reflexivity.
Qed.

(** X3.  When the output name is accepted and the project has no camera, the
    run stops with an [IndexError] at line 100, before the cameras are
    reconfigured: all it did was to initialise the driver, load the project
    and ask for the cameras twice. *)
Theorem no_camera_stops_before_vislight
        (E : Environment) (L : PointcloudLib) (os : flavour)
        (motive_filename output_filename body : string) (nomeancenter : bool)
        (nsides screen : Z) (w : World E) :
  snd (splitext os (output_path os output_filename)) = ".obj"%string ->
  env_cams E (run_events E (prepare_head motive_filename) (st w)) = [] ->
  scan_arena E L os motive_filename output_filename body nomeancenter nsides screen w
  = (Raise IndexError, after (prepare_head motive_filename) w).
Proof.
  intros Hext Hcams. unfold scan_arena.
  destruct (check_output_cases E os output_filename w) as [[_ Hc] | [Hne _]];
    [| contradiction].
  rewrite (bind_step _ _ _ _ _ Hc). cbv zeta.
  change (chars (encode motive_filename)) with motive_filename. apply bind_raise.
  rewrite prepare_to_bodies, st_after, Hcams. reflexivity.
Qed.

(** X4.  No run returns and none saves the project.  A run ends with an
    exception; either it has opened and dumped no mesh file, or the mesh
    file was opened, dumped and plotted by its last three events and the
    exception is the [TypeError] of line 190, where a [str] is added to the
    [bytes] that line 94 made of the project file name. *)
Theorem project_never_saved
        (E : Environment) (L : PointcloudLib) (os : flavour)
        (motive_filename output_filename body : string) (nomeancenter : bool)
        (nsides screen : Z) (w : World E) (r : result unit) (w' : World E) :
  scan_arena E L os motive_filename output_filename body nomeancenter nsides screen w
  = (r, w') ->
  outputs_outcome os output_filename body w r w'.
Proof.
  intro H.
  destruct (scan_arena_outputs E L os _ _ _ _ _ _ _ _ _ H) as [Hr [l [Hlog Hl]]].
  split; [exact Hr |]. exists l. split; [exact Hlog |]. split; [| exact Hl].
  destruct Hl as [[pre [pts [V [N [F [_ [Hl Fpre]]]]]]] | Fl].
  - subst l. apply Forall_app. split;
      [now apply no_output_no_save | apply export_events_no_save].
  - now apply no_output_no_save.
Qed.

(** X5.  Whatever camera a restoring command addresses, the frame rate it
    sets is the one that the first camera had at line 100, the image gain
    it sets is 1, and the settings it sets are those that the camera in the
    same position of the list had at line 99. *)
Theorem cameras_get_first_frame_rate
        (E : Environment) (L : PointcloudLib) (os : flavour)
        (motive_filename output_filename body : string) (nomeancenter : bool)
        (nsides screen : Z) (w : World E) (r : result unit) (w' : World E) :
  scan_arena E L os motive_filename output_filename body nomeancenter nsides screen w
  = (r, w') ->
  cameras_outcome motive_filename w w'.
Proof.
  intro H. apply scan_arena_log in H. destruct H as [l [Hlog Hcases]].
  exists l. split; [exact Hlog |].
  assert (Hearly : Forall (fun ev => is_early ev = true) l ->
                   forall e, is_camera_setter e = true -> ~ In e l).
  { intros Fl e He Hin. apply (Forall_In_absurd _ _ _ Fl Hin).
    intro Hearly. apply early_not_setter in Hearly. congruence. }
  destruct Hcases as [[Hr Hl] | [[e [Hr [_ Fl]]] | [[e [l2 [Hr [Hl Fl2]]]] | Hreach]]].
  - subst l. repeat split; intros ? ? [].
  - repeat split; intros i x Hin; exfalso;
      (eapply (Hearly Fl); [| exact Hin]; reflexivity).
  - assert (Fl : Forall (fun ev => is_early ev = true) l).
    { subst l. apply Forall_app. split; [apply prepare_events_early | exact Fl2]. }
    repeat split; intros i x Hin; exfalso;
      (eapply (Hearly Fl); [| exact Hin]; reflexivity).
  - destruct Hreach as [c [cams0 [k [pts [V [N [F [mid [Hc [Hrec [Fmid Hend]]]]]]]]]]].
    cbv zeta in Hend.
    assert (Hfind : forall e, is_camera_setter e = true -> In e l ->
              In e (restore_events 0
                      (map cam_settings
                           (env_cams E
                              (run_events E [MotiveInitialize;
                                             MotiveLoadProject motive_filename;
                                             MotiveGetCams] (st w))))
                      (env_cams E
                         (run_events E
                            (prepare_events motive_filename body
                               ++ acquire_events k pts ++ [MotiveGetCams]) (st w)))
                      (cam_frame_rate c))).
    { intros e He Hin.
      assert (Hmid : ~ In e mid).
      { intro Hm. apply (Forall_In_absurd _ _ _ Fmid Hm). intro Ha.
        apply alignment_not_setter in Ha. congruence. }
      assert (Hpe : ~ In e (prepare_events motive_filename body)).
      { intro Hm. apply (Forall_In_absurd _ _ _ (prepare_events_early _ _) Hm).
        intro Ha. apply early_not_setter in Ha. congruence. }
      assert (Hae : ~ In e (acquire_events k pts)).
      { intro Hm. apply (Forall_In_absurd _ _ _ (acquire_events_early _ _) Hm).
        intro Ha. apply early_not_setter in Ha. congruence. }
      assert (Hexp : forall pts' V',
                 ~ In e (export_events (output_path os output_filename) body
                                       pts' V' N F)).
      { intros pts' V' Hm. unfold export_events in Hm. simpl in Hm.
        destruct Hm as [Hm | [Hm | [Hm | []]]]; subst e; discriminate He. }
      destruct Hend as [[pts' [V' [_ Hl]]] | [_ Hl]]; rewrite Hl in Hin;
        repeat (progress (rewrite ?in_app_iff in Hin; cbn [In] in Hin));
        repeat match goal with
               | Hor : _ \/ _ |- _ => destruct Hor
               | Hf : False |- _ => destruct Hf
               end;
        try contradiction; try assumption;
        try (subst e; discriminate He);
        try (exfalso; eapply Hexp; eassumption). }
    split; [| split].
    + intros i rate Hin. exists c, cams0. split; [exact Hc |].
      pose proof (Hfind (SetCamFrameRate i rate) eq_refl Hin) as Hin'.
      exact (restore_events_frame_rate _ _ _ _ _ _ Hin').
    + intros i g Hin.
      pose proof (Hfind (SetCamImageGain i g) eq_refl Hin) as Hin'.
      exact (restore_events_gain _ _ _ _ _ _ Hin').
    + intros i s Hin.
      pose proof (Hfind (SetCamSettings i s) eq_refl Hin) as Hin'.
      destruct (restore_events_settings _ _ _ _ _ _ Hin') as [_ Hnth].
      now rewrite Nat.sub_0_r in Hnth.
Qed.

(** X6.  A run that stops because the scan collected too few points, or
    because a point-cloud function fails, has put the cameras into the
    visible-light configuration and never gives them their settings back. *)
Theorem failed_scan_leaves_vislight
        (E : Environment) (L : PointcloudLib) (os : flavour)
        (motive_filename output_filename body : string) (nomeancenter : bool)
        (nsides screen : Z) (w : World E) (e : exn) (w' : World E) :
  scan_arena E L os motive_filename output_filename body nomeancenter nsides screen w
  = (Raise e, w') ->
  (exists n, e = AssertionError (TooFewPoints n)) \/ (exists pe, e = PointcloudError pe) ->
  vislight_left_on w w'.
Proof.
  intros H He. apply scan_arena_log in H. destruct H as [l [Hlog Hcases]].
  exists l. split; [exact Hlog |].
  destruct Hcases as [[Hr Hl] | [[e' [Hr [Hkind Fl]]] | [[e' [l2 [Hr [Hl Fl2]]]] | Hreach]]].
  - inversion Hr; subst e. destruct He as [[n Hn] | [pe Hpe]]; discriminate.
  - inversion Hr; subst e'.
    destruct He as [[n Hn] | [pe Hpe]]; subst e;
      destruct Hkind as [Hk | [Hk | [Hk | Hk]]]; discriminate Hk.
  - subst l. split.
    + apply in_or_app. left. unfold prepare_events, prepare_head, prepare_mid.
      simpl. tauto.
    + apply Forall_app. split.
      * exact (early_all _ _ early_not_setter (prepare_events_early _ _)).
      * exact (early_all _ _ early_not_setter Fl2).
  - destruct Hreach as [c [cams0 [k [pts [V [N [F [mid [_ [_ [_ Hend]]]]]]]]]]].
    cbv zeta in Hend. destruct Hend as [[pts' [V' [Hr _]]] | [[Hr | [Hr | Hr]] _]];
      inversion Hr; subst e; destruct He as [[n Hn] | [pe Hpe]]; discriminate.
Qed.

(** ** More on the mean-centering (lines 150-170) *)


(** X7.  With the mean-centering on, the step raises [IndexError] exactly
    when some entry of the face index array lies outside [-n, n) for the
    [n] vertices; it then stops before anything is touched: both arrays are
    as they were and nothing was asked of the driver. *)
Theorem index_error_iff_out_of_range
        (E : Environment) (body : string) (points vertices : nat)
        (faces : list (list Z)) (w : World E) :
  (exists i, In i (flatten faces)
             /\ out_of_range (length (heap_get (heap w) vertices)) i)
  <-> mean_center E body false points vertices faces w = (Raise IndexError, w).
Proof.
  rewrite <- take_rows_none. split.
  - intro Hnone. apply mean_center_index_error. unfold centroid. now rewrite Hnone.
  - intro H.
    destruct (take_rows (heap_get (heap w) vertices) (flatten faces))
      as [rows |] eqn:Hrows; [| reflexivity].
    exfalso.
    assert (Hc : centroid (heap_get (heap w) vertices) faces
                 = Some (mean_axis0 rows)).
    { unfold centroid. now rewrite Hrows. }
    destruct (mean_center_run E body points vertices faces w _ Hc)
      as [[k [_ [_ [_ Hrun]]]] | [_ Hrun]];
      rewrite Hrun in H; discriminate H.
Qed.

Lemma allclose_not_finite (rtol : Q) (a m : vec) :
  ~ finite m -> allclose rtol a m = false.
Proof.
  intro Hnf. destruct (allclose rtol a m) eqn:Hc; [| reflexivity].
  exfalso. apply Hnf. exact (allclose_finite _ _ _ Hc).
Qed.

(** X8.  When the centroid has a coordinate that is not a number (a
    referenced vertex has one, or no vertex is referenced at all), no report
    of the driver can match it: the loop makes all 300 attempts and the step
    raises [ValueError], with both arrays already overwritten. *)
Theorem nan_centroid_never_converges
        (E : Environment) (body : string) (points vertices : nat)
        (faces : list (list Z)) (w : World E) (m : vec) :
  centroid (heap_get (heap w) vertices) faces = Some m ->
  ~ finite m ->
  let h1 := heap_set (heap w) vertices (translate (heap_get (heap w) vertices) m) in
  let h2 := heap_set h1 points (translate (heap_get h1 points) m) in
  mean_center E body false points vertices faces w
  = (Raise ValueError,
     after (GetLocation body :: attempts body m 300) (with_heap h2 w)).
Proof.
  intros Hc Hnf h1 h2.
  destruct (mean_center_run E body points vertices faces w m Hc)
    as [[k [_ [_ [Hat _]]]] | [_ Hrun]].
  - rewrite (allclose_not_finite _ _ _ Hnf) in Hat. discriminate Hat.
  - cbv zeta in Hrun. rewrite Hrun, after_app. reflexivity.
Qed.

Lemma isclose_refl (x : Q) :
  isclose pivot_rtol default_atol (Fin x) (Fin x) = true.
Proof.
  unfold isclose. apply Qle_bool_iff.
  assert (Hz : (x - x == 0)%Q) by ring.
  rewrite Hz. change (Qabs 0) with 0%Q.
  pose proof (Qabs_nonneg x) as Hx. unfold pivot_rtol, default_atol.
  generalize dependent (Qabs x). intros y Hy. lra.
Qed.

Lemma allclose_refl (m : vec) : finite m -> allclose pivot_rtol m m = true.
Proof.
  intros [x [y [z ->]]]. unfold allclose, vx, vy, vz. cbn [fst snd].
  now rewrite !isclose_refl.
Qed.

(** X9.  When the centroid is finite and the driver, after the first
    attempt, reports exactly the location it was given, the loop stops
    there: one pivot reset, one location command, one poll. *)
Theorem obedient_driver_one_attempt
        (E : Environment) (body : string) (points vertices : nat)
        (faces : list (list Z)) (w : World E) (m : vec) :
  centroid (heap_get (heap w) vertices) faces = Some m ->
  finite m ->
  let h1 := heap_set (heap w) vertices (translate (heap_get (heap w) vertices) m) in
  let h2 := heap_set h1 points (translate (heap_get h1 points) m) in
  let w3 := after [GetLocation body] (with_heap h2 w) in
  reported E body m 1 (st w3) = m ->
  mean_center E body false points vertices faces w
  = (Ok tt, after (attempt body m ++ [GetLocation body]) w3).
Proof.
  intros Hc Hfin h1 h2 w3 Hrep.
  destruct (mean_center_run E body points vertices faces w m Hc)
    as [[k [Hk [Hbefore [_ Hrun]]]] | [Hall _]]; cbv zeta in *.
  - destruct (Nat.eq_dec k 1) as [-> | Hne].
    + rewrite Hrun. cbn [attempts]. now rewrite app_nil_r.
    + exfalso. specialize (Hbefore 1%nat ltac:(lia)).
      fold h1 in Hbefore. fold h2 in Hbefore. fold w3 in Hbefore.
      rewrite Hrep, (allclose_refl m Hfin) in Hbefore. discriminate Hbefore.
  - exfalso. specialize (Hall 1%nat ltac:(lia)).
    fold h1 in Hall. fold h2 in Hall. fold w3 in Hall.
    rewrite Hrep, (allclose_refl m Hfin) in Hall. discriminate Hall.
Qed.

(** ** The scan window (lines 24-77) *)

Section ScanWindow.

Import GridScan.

Variable T : Tracker.
Variable circle : nat -> vec.
Variable home : vec.

Local Abbreviation State := (GridScan.State T).
Local Abbreviation after_moves := (GridScan.after_moves circle home).

Lemma detect_keeps_moves (k : nat) (s : State) :
  after_moves k (win T s) -> after_moves k (win T (call T s Detect)).
Proof.
  intro H. unfold call. destruct (detecting (win T s)); exact H.
Qed.

Lemma move_counts (k : nat) (s : State) :
  after_moves k (win T s) -> after_moves (S k) (win T (call T s Move)).
Proof.
  intros [Hpos [Hcam [Hclosed Hdet]]]. unfold call, move_camera.
  destruct (Nat.le_gt_cases k 38) as [Hle | Hgt].
  - replace (39 - k)%nat with (S (38 - k)) in Hpos by lia.
    cbn [seq map] in Hpos. rewrite Hpos. unfold GridScan.after_moves.
    cbn [win cam_positions camera_position closed detecting].
    replace (39 - S k)%nat with (38 - k)%nat by lia.
    split; [reflexivity |]. split; [now rewrite Nat.min_l by lia |].
    rewrite Hclosed, Hdet.
    destruct (Nat.ltb_spec 39 k), (Nat.ltb_spec 39 (S k)); try lia; auto.
  - replace (39 - k)%nat with 0%nat in Hpos by lia.
    cbn [seq map] in Hpos. rewrite Hpos. unfold GridScan.after_moves.
    cbn [win cam_positions camera_position closed detecting].
    replace (39 - S k)%nat with 0%nat by lia.
    split; [reflexivity |]. split.
    + rewrite Hcam. destruct k as [| j]; [lia |].
      now rewrite !Nat.min_r by lia.
    + destruct (Nat.ltb_spec 39 (S k)); [auto | lia].
Qed.

Lemma calls_count_moves (cs : list Callback) (k : nat) (s : State) :
  after_moves k (win T s) ->
  after_moves (k + moves cs) (win T (calls T cs s)).
Proof.
  revert k s. induction cs as [| c cs IH]; intros k s H.
  - unfold moves. simpl. now rewrite Nat.add_0_r.
  - unfold calls. cbn [fold_left]. fold (calls T cs (call T s c)).
    destruct c.
    + apply (IH k). now apply detect_keeps_moves.
    + unfold moves. cbn [filter is_move length].
      rewrite Nat.add_succ_r. apply (IH (S k)). now apply move_counts.
Qed.

Lemma init_no_moves (t : tr_state T) :
  after_moves 0 (win T (init T circle home t)).
Proof. repeat split. Qed.

(** Once the generator is exhausted the callbacks ask nothing more of the
    tracker and leave the markers and the camera alone. *)
Lemma call_when_closed (k : nat) (s : State) (c : Callback) :
  after_moves k (win T s) -> (40 <= k)%nat ->
  marker_pos (win T (call T s c)) = marker_pos (win T s)
  /\ camera_position (win T (call T s c)) = camera_position (win T s)
  /\ filter is_tracker_call (trace T (call T s c))
     = filter is_tracker_call (trace T s)
  /\ filter is_set_position (trace T (call T s c))
     = filter is_set_position (trace T s).
Proof.
  intros [Hpos [_ [_ Hdet]]] Hk.
  replace (39 - k)%nat with 0%nat in Hpos by lia. cbn [seq map] in Hpos.
  destruct (Nat.ltb_spec 39 k) as [_ | Hlt]; [| lia]. cbn [negb] in Hdet.
  destruct c; unfold call.
  - rewrite Hdet. auto.
  - unfold move_camera. rewrite Hpos.
    cbn [win trace marker_pos camera_position act].
    rewrite !filter_app. cbn [filter is_tracker_call is_set_position].
    now rewrite !app_nil_r.
Qed.

Lemma calls_when_closed (cs : list Callback) (k : nat) (s : State) :
  after_moves k (win T s) -> (40 <= k)%nat ->
  marker_pos (win T (calls T cs s)) = marker_pos (win T s)
  /\ camera_position (win T (calls T cs s)) = camera_position (win T s)
  /\ filter is_tracker_call (trace T (calls T cs s))
     = filter is_tracker_call (trace T s)
  /\ filter is_set_position (trace T (calls T cs s))
     = filter is_set_position (trace T s).
Proof.
  revert k s. induction cs as [| c cs IH]; intros k s Hk H40; [auto |].
  unfold calls. cbn [fold_left]. fold (calls T cs (call T s c)).
  destruct (call_when_closed k s c Hk H40) as [H1 [H2 [H3 H4]]].
  assert (Hnext : exists k', after_moves k' (win T (call T s c)) /\ (40 <= k')%nat).
  { destruct c.
    - exists k. split; [now apply detect_keeps_moves | exact H40].
    - exists (S k). split; [now apply move_counts | lia]. }
  destruct Hnext as [k' [Hk' H40']].
  destruct (IH k' _ Hk' H40') as [G1 [G2 [G3 G4]]].
  rewrite G1, G2, G3, G4. auto.
Qed.

Lemma detect_trace (s : State) :
  trace T (call T s Detect)
  = trace T s ++ (if detecting (win T s)
                  then [FlushCameraQueues; Update; Update; GetUnidentMarkers]
                  else [])
  /\ cam_positions (win T (call T s Detect)) = cam_positions (win T s).
Proof.
  unfold call. destruct (detecting (win T s)).
  - unfold detect_projection_point. cbn [trace win cam_positions act].
    split; [now rewrite <- !app_assoc | reflexivity].
  - split; [now rewrite app_nil_r | reflexivity].
Qed.

Lemma move_trace (s : State) :
  trace T (call T s Move)
  = trace T s ++ match cam_positions (win T s) with
                 | p :: _ => [SetCameraPosition p]
                 | [] => [UnscheduleDetection; CloseWindow]
                 end.
Proof.
  unfold call, move_camera. destruct (cam_positions (win T s)).
  - cbn [trace act]. now rewrite <- app_assoc.
  - reflexivity.
Qed.

(** One frame: a detection if it is still scheduled, then a move. *)
Lemma one_frame (k : nat) (s : State) :
  after_moves k (win T s) ->
  let s' := call T (call T s Detect) Move in
  length (filter is_get_markers (trace T s'))
  = (length (filter is_get_markers (trace T s)) + (if k <=? 39 then 1 else 0))%nat
  /\ length (filter is_tracker_call (trace T s'))
     = (length (filter is_tracker_call (trace T s)) + (if k <=? 39 then 4 else 0))%nat
  /\ length (filter is_set_position (trace T s'))
     = (length (filter is_set_position (trace T s)) + (if k <=? 38 then 1 else 0))%nat.
Proof.
  intros [Hpos [_ [_ Hdet]]]. cbv zeta.
  destruct (detect_trace s) as [Htr Hcp].
  rewrite move_trace, Hcp, Htr, Hpos, Hdet.
  destruct (Nat.leb_spec k 39) as [H39 | H39].
  - destruct (Nat.ltb_spec 39 k) as [Hlt | _]; [lia |]. cbn [negb].
    destruct (Nat.leb_spec k 38) as [H38 | H38].
    + replace (39 - k)%nat with (S (38 - k)) by lia. cbn [seq map].
      rewrite !filter_app, !length_app.
      cbn [filter is_get_markers is_tracker_call is_set_position length]. lia.
    + replace (39 - k)%nat with 0%nat by lia. cbn [seq map].
      rewrite !filter_app, !length_app.
      cbn [filter is_get_markers is_tracker_call is_set_position length]. lia.
  - destruct (Nat.ltb_spec 39 k) as [_ | Hge]; [| lia]. cbn [negb].
    replace (39 - k)%nat with 0%nat by lia. cbn [seq map].
    destruct (Nat.leb_spec k 38) as [H38 | _]; [lia |].
    rewrite !filter_app, !length_app.
    cbn [filter is_get_markers is_tracker_call is_set_position length]. lia.
Qed.

Lemma frames_counts (n k : nat) (s : State) :
  after_moves k (win T s) ->
  let s' := calls T (frames n) s in
  after_moves (k + n) (win T s')
  /\ length (filter is_get_markers (trace T s'))
     = (length (filter is_get_markers (trace T s))
        + (Nat.min (k + n) 40 - Nat.min k 40))%nat
  /\ length (filter is_tracker_call (trace T s'))
     = (length (filter is_tracker_call (trace T s))
        + 4 * (Nat.min (k + n) 40 - Nat.min k 40))%nat
  /\ length (filter is_set_position (trace T s'))
     = (length (filter is_set_position (trace T s))
        + (Nat.min (k + n) 39 - Nat.min k 39))%nat.
Proof.
  revert k s. induction n as [| n IH]; intros k s Hk; cbv zeta.
  - cbn [frames calls fold_left]. rewrite Nat.add_0_r.
    split; [exact Hk |]. repeat split; lia.
  - cbn [frames]. unfold calls. cbn [fold_left].
    fold (calls T (frames n) (call T (call T s Detect) Move)).
    destruct (one_frame k s Hk) as [F1 [F2 F3]]. cbv zeta in F1, F2, F3.
    assert (Hk' : after_moves (S k) (win T (call T (call T s Detect) Move))).
    { apply move_counts. now apply detect_keeps_moves. }
    destruct (IH (S k) _ Hk') as [G0 [G1 [G2 G3]]]. cbv zeta in G0, G1, G2, G3.
    replace (k + S n)%nat with (S k + n)%nat by lia.
    split; [exact G0 |].
    rewrite G1, G2, G3, F1, F2, F3.
    destruct (Nat.leb_spec k 39), (Nat.leb_spec k 38); repeat split; lia.
Qed.

End ScanWindow.

(** X10.  However the clock interleaves the two callbacks, the window is
    where the number [k] of calls of [move_camera] puts it: the generator
    has the positions from the [k]-th on left, the camera is at the last
    position taken (the 39th at most), and the window is closed and the
    detection unscheduled exactly from the 40th call on. *)
Theorem window_closes_at_fortieth_move
        (T : GridScan.Tracker) (circle : nat -> vec) (home : vec)
        (cs : list GridScan.Callback) (t : GridScan.tr_state T) :
  GridScan.after_moves circle home (GridScan.moves cs)
    (GridScan.win T (GridScan.calls T cs (GridScan.init T circle home t))).
Proof.
  apply (calls_count_moves T circle home cs 0). apply init_no_moves.
Qed.

(** X11.  When every frame calls the detection and then the move, [n] frames
    make [min n 40] detections, each one a flush, two updates and one
    request for the markers, and set [min n 39] camera positions: the first
    detection precedes the first move, and the 40th frame detects once more
    before it closes the window. *)
Theorem frames_detect_forty_times
        (T : GridScan.Tracker) (circle : nat -> vec) (home : vec)
        (n : nat) (t : GridScan.tr_state T) :
  let s := GridScan.calls T (GridScan.frames n) (GridScan.init T circle home t) in
  length (filter GridScan.is_get_markers (GridScan.trace T s)) = Nat.min n 40
  /\ length (filter GridScan.is_tracker_call (GridScan.trace T s))
     = (4 * Nat.min n 40)%nat
  /\ length (filter GridScan.is_set_position (GridScan.trace T s)) = Nat.min n 39
  /\ GridScan.closed (GridScan.win T s) = (39 <? n)%nat.
Proof.
  cbv zeta.
  destruct (frames_counts T circle home n 0 (GridScan.init T circle home t)
                          (init_no_moves T circle home t))
    as [H0 [H1 [H2 H3]]].
  cbv zeta in H0, H1, H2, H3. cbn [Nat.add] in H0, H1, H2, H3.
  rewrite H1, H2, H3. destruct H0 as [_ [_ [Hclosed _]]].
  cbn [GridScan.init GridScan.trace filter length Nat.min Nat.sub Nat.add].
  repeat split; try lia. exact Hclosed.
Qed.

(** X12.  Once [move_camera] has been called 40 times, nothing that the
    clock still calls changes the markers collected or the position of the
    camera, and nothing more is asked of the tracker. *)
Theorem closed_window_is_inert
        (T : GridScan.Tracker) (circle : nat -> vec) (home : vec)
        (before later : list GridScan.Callback) (t : GridScan.tr_state T) :
  (40 <= GridScan.moves before)%nat ->
  let s1 := GridScan.calls T before (GridScan.init T circle home t) in
  let s2 := GridScan.calls T later s1 in
  GridScan.marker_pos (GridScan.win T s2) = GridScan.marker_pos (GridScan.win T s1)
  /\ GridScan.camera_position (GridScan.win T s2)
     = GridScan.camera_position (GridScan.win T s1)
  /\ filter GridScan.is_tracker_call (GridScan.trace T s2)
     = filter GridScan.is_tracker_call (GridScan.trace T s1)
  /\ filter GridScan.is_set_position (GridScan.trace T s2)
     = filter GridScan.is_set_position (GridScan.trace T s1).
Proof.
  intros H40 s1 s2.
  apply (calls_when_closed T circle home later (GridScan.moves before) s1);
    [| exact H40].
  apply (calls_count_moves T circle home before 0). apply init_no_moves.
Qed.

(** ** The further statements on the test rig *)

Lemma missing_body_stops_after_vislight_witness :
  snd (splitext Posix (output_path Posix "arena")) = ".obj"%string
  /\ env_cams Rig.env (run_events Rig.env (prepare_head "project.ttp")
                                  (st (Rig.start 0 101))) <> []
  /\ existsb (String.eqb "wall")
             (env_bodies Rig.env
                (run_events Rig.env (prepare_head "project.ttp" ++ prepare_mid)
                            (st (Rig.start 0 101)))) = false
  /\ scan_arena Rig.env Rig.lib Posix "project.ttp" "arena" "wall" false 0 1
                (Rig.start 0 101)
     = (Raise (AssertionError BodyNotFound),
        after (prepare_head "project.ttp" ++ prepare_mid) (Rig.start 0 101)).
Proof.
  assert (H1 : snd (splitext Posix (output_path Posix "arena")) = ".obj"%string)
    by reflexivity.
  assert (H2 : env_cams Rig.env (run_events Rig.env (prepare_head "project.ttp")
                                            (st (Rig.start 0 101))) <> [])
    by (simpl; discriminate).
  assert (H3 : existsb (String.eqb "wall")
                 (env_bodies Rig.env
                    (run_events Rig.env (prepare_head "project.ttp" ++ prepare_mid)
                                (st (Rig.start 0 101)))) = false)
    by reflexivity.
  split; [exact H1 |]. split; [exact H2 |]. split; [exact H3 |].
  exact (missing_body_stops_after_vislight Rig.env Rig.lib Posix "project.ttp"
           "arena" "wall" false 0 1 (Rig.start 0 101) H1 H2 H3).
Defined.

Lemma no_camera_stops_before_vislight_witness :
  snd (splitext Posix (output_path Posix "arena")) = ".obj"%string
  /\ env_cams Studio.env (run_events Studio.env (prepare_head "project.ttp")
                                     (st Studio.start)) = []
  /\ scan_arena Studio.env Rig.lib Posix "project.ttp" "arena" "arena" false 0 0
                Studio.start
     = (Raise IndexError, after (prepare_head "project.ttp") Studio.start).
Proof.
  assert (H1 : snd (splitext Posix (output_path Posix "arena")) = ".obj"%string)
    by reflexivity.
  assert (H2 : env_cams Studio.env (run_events Studio.env (prepare_head "project.ttp")
                                               (st Studio.start)) = [])
    by reflexivity.
  split; [exact H1 |]. split; [exact H2 |].
  exact (no_camera_stops_before_vislight Studio.env Rig.lib Posix "project.ttp"
           "arena" "arena" false 0 0 Studio.start H1 H2).
Defined.

Lemma project_never_saved_witness :
  let w' := snd (rig_run "arena" false 1 101) in
  rig_run "arena" false 1 101 = (Raise TypeError, w')
  /\ outputs_outcome Posix "arena" "arena" (Rig.start 1 101) (Raise TypeError) w'.
Proof.
  intro w'.
  assert (H : rig_run "arena" false 1 101 = (Raise TypeError, w'))
    by (vm_compute; reflexivity).
  split; [exact H |].
  exact (project_never_saved Rig.env Rig.lib Posix _ _ _ _ _ _ _ _ _ H).
Defined.

Lemma cameras_get_first_frame_rate_witness :
  let w' := snd (rig_run "arena" true 0 102) in
  rig_run "arena" true 0 102 = (Raise TypeError, w')
  /\ cameras_outcome "project.ttp" (Rig.start 0 102) w'.
Proof.
  intro w'.
  assert (H : rig_run "arena" true 0 102 = (Raise TypeError, w'))
    by (vm_compute; reflexivity).
  split; [exact H |].
  exact (cameras_get_first_frame_rate Rig.env Rig.lib Posix _ _ _ _ _ _ _ _ _ H).
Defined.

Lemma failed_scan_leaves_vislight_witness :
  let w' := snd (rig_run "arena" false 0 8) in
  rig_run "arena" false 0 8 = (Raise (AssertionError (TooFewPoints 8)), w')
  /\ ((exists n, AssertionError (TooFewPoints 8) = AssertionError (TooFewPoints n))
      \/ (exists pe, AssertionError (TooFewPoints 8) = PointcloudError pe))
  /\ vislight_left_on (Rig.start 0 8) w'.
Proof.
  intro w'.
  assert (H : rig_run "arena" false 0 8
              = (Raise (AssertionError (TooFewPoints 8)), w'))
    by (vm_compute; reflexivity).
  assert (He : (exists n, AssertionError (TooFewPoints 8)
                          = AssertionError (TooFewPoints n))
               \/ (exists pe, AssertionError (TooFewPoints 8) = PointcloudError pe))
    by (left; exists 8%nat; reflexivity).
  split; [exact H |]. split; [exact He |].
  exact (failed_scan_leaves_vislight Rig.env Rig.lib Posix _ _ _ _ _ _ _ _ _ H He).
Defined.

Lemma index_error_iff_out_of_range_witness :
  let w := with_heap [Rig.cloud 3; Rig.corners] (Rig.start 0 3) in
  (exists i, In i (flatten [[0; 1; 4]])
             /\ out_of_range (length (heap_get (heap w) 1)) i)
  /\ mean_center Rig.env "arena" false 0 1 [[0; 1; 4]] w = (Raise IndexError, w).
Proof.
  intro w.
  assert (H : exists i, In i (flatten [[0; 1; 4]])
                        /\ out_of_range (length (heap_get (heap w) 1)) i).
  { exists 4. split; [simpl; tauto | right; simpl; lia]. }
  split; [exact H |].
  exact (proj1 (index_error_iff_out_of_range Rig.env "arena" 0 1 [[0; 1; 4]] w) H).
Defined.

Lemma nan_centroid_never_converges_witness :
  let V := [(NaN, Fin 0, Fin 0); Rig.pt 1 1 1] in
  let w := with_heap [Rig.cloud 3; V] (Rig.start 0 3) in
  let m := (NaN, Fin (0 # 3), Fin (0 # 3)) in
  centroid (heap_get (heap w) 1) [[0; 0; 0]] = Some m
  /\ ~ finite m
  /\ fst (mean_center Rig.env "arena" false 0 1 [[0; 0; 0]] w) = Raise ValueError.
Proof.
  intros V w m.
  assert (H1 : centroid (heap_get (heap w) 1) [[0; 0; 0]] = Some m)
    by (vm_compute; reflexivity).
  assert (H2 : ~ finite m).
  { intros [x [y [z Hm]]]. discriminate Hm. }
  split; [exact H1 |]. split; [exact H2 |].
  rewrite (nan_centroid_never_converges Rig.env "arena" 0 1 [[0; 0; 0]] w m H1 H2).
  reflexivity.
Defined.

Lemma obedient_driver_one_attempt_witness :
  let w := with_heap [Rig.cloud 3; Rig.corners] (Rig.start 0 3) in
  let F := [[0; 1; 2]; [0; 2; 3]] in
  let m := (Fin (12 # 6), Fin (12 # 6), Fin (0 # 6)) in
  centroid (heap_get (heap w) 1) F = Some m
  /\ finite m
  /\ fst (mean_center Rig.env "arena" false 0 1 F w) = Ok tt.
Proof.
  intros w F m.
  assert (H1 : centroid (heap_get (heap w) 1) F = Some m)
    by (vm_compute; reflexivity).
  assert (H2 : finite m) by (do 3 eexists; reflexivity).
  split; [exact H1 |]. split; [exact H2 |].
  rewrite (obedient_driver_one_attempt Rig.env "arena" 0 1 F w m H1 H2);
    reflexivity.
Defined.

Lemma closed_window_is_inert_witness :
  let before := GridScan.frames 40 in
  let later := GridScan.frames 3 in
  let s1 := GridScan.calls Bench.tracker before
              (GridScan.init Bench.tracker Bench.circle Bench.home 0%nat) in
  let s2 := GridScan.calls Bench.tracker later s1 in
  (40 <= GridScan.moves before)%nat
  /\ GridScan.marker_pos (GridScan.win Bench.tracker s2)
     = GridScan.marker_pos (GridScan.win Bench.tracker s1).
Proof.
  intros before later s1 s2.
  assert (H : (40 <= GridScan.moves before)%nat) by (vm_compute; lia).
  split; [exact H |].
  exact (proj1 (closed_window_is_inert Bench.tracker Bench.circle Bench.home
                                       before later 0%nat H)).
Defined.
